(** * piwheels master: worker protocol, file transfer and index writers

    A shallow embedding of [piwheels/master/__init__.py] (the classes
    [TransferState], [SlaveState] and the [slave_driver] and
    [build_catcher] loops of [PiWheelsMaster]) and of [AtomicReplaceFile]
    from [piwheels/master/the_scribe.py].

    Python integers are [Z], byte strings and text are [string], the
    contents of a file are a list of bytes ([ascii]), dictionaries keyed by
    a transport address are [gmap]s (or an insertion-ordered association
    list where the code iterates over the values), and code that can raise
    returns an [outcome]. *)

From Stdlib Require Import ZArith List String Ascii Bool Lia Sorted Permutation.
From stdpp Require Import gmap strings pretty.
Import ListNotations.

Open Scope Z_scope.

(** ** Exceptions and non-termination *)

Inductive exn : Type :=
  | AssertionError | AttributeError | IndexError | KeyError
  | OSError | TypeError | ValueError | UnboundLocalError.

(** The result of running a piece of code: a value, an uncaught exception,
    or no answer within the given number of loop iterations. *)
Inductive outcome (A : Type) : Type :=
  | Ok (a : A)
  | Raise (e : exn)
  | Diverge.
Arguments Ok {A} a.
Arguments Raise {A} e.
Arguments Diverge {A}.

#[global] Instance outcome_bind : MBind outcome := fun A B k m =>
  match m with
  | Ok a => k a
  | Raise e => Raise e
  | Diverge => Diverge
  end.
#[global] Instance outcome_ret : MRet outcome := fun A a => Ok a.

Definition bytes : Type := list ascii.

(** ** Calls into the operating system and the outside world

    The file system under the output path is driven through [os], [pathlib]
    and [tempfile]; the code's side of it is the sequence of calls it makes.
    Paths are written relative to the output path. *)

Inductive fs_call : Type :=
  | MkTemp (dir tmp : string)    (* NamedTemporaryFile(dir=dir, delete=False) *)
  | WriteFile (path : string) (data : bytes)   (* write on the open file *)
  | CloseFile (path : string)
  | Chmod (path : string) (mode : Z)           (* chmod / fchmod *)
  | Mkdir (path : string)        (* mkdir, FileExistsError being swallowed *)
  | Rename (src dst : string)                  (* rename / os.replace *)
  | Unlink (path : string).

Definition join (dir file : string) : string :=
  if String.eqb dir "" then file else (dir ++ "/" ++ file)%string.

(** ** Ranges *)

Module Ranges.

(** A Python [range(start, stop)] with step 1. *)
Record range : Type := Range { start : Z; stop : Z }.

(** [len(r)] *)
Definition rlen (r : range) : Z := Z.max 0 (stop r - start r).

(** The truth value of a range: it is non-empty. *)
Definition range_bool (r : range) : bool := start r <? stop r.

(** [p in r] *)
Definition contains (r : range) (p : Z) : bool :=
  (start r <=? p) && (p <? stop r).

(** Modelled from the spec: [intersect] of [piwheels/master/ranges.py],
    which [__init__.py] imports and which is not part of the sources at
    hand. The spec (section 4.2, step 4) has [fetch] "return the
    intersection" of a missing range with the window when the two
    intersect; there is no result otherwise. *)
Definition intersect (range1 range2 : range) : option range :=
  let lo := Z.max (start range1) (start range2) in
  let hi := Z.min (stop range1) (stop range2) in
  if lo <? hi then Some (Range lo hi) else None.

(** [if result:] on what [intersect] returned. *)
Definition result_bool (result : option range) : bool :=
  match result with
  | Some r => range_bool r
  | None => false
  end.

(** Modelled from the spec: the step of [exclude] (see below) on one range.
    What is left of [r] once [ex] is taken out of it: [r] itself when the
    two share no position, else the part of [r] below [ex] and the part
    above it, where they are not empty. *)
Definition exclude_one (r ex : range) : list range :=
  if (stop ex <=? start ex) || (stop r <=? start ex) || (stop ex <=? start r)
  then [r]
  else (if start r <? start ex then [Range (start r) (start ex)] else [])
    ++ (if stop ex <? stop r then [Range (stop ex) (stop r)] else []).

(** Modelled from the spec: [exclude] of [piwheels/master/ranges.py],
    likewise absent. The spec has [chunk] "subtract the written range
    from missing_ranges" with "set-subtraction semantics", by "an
    explicit ordered list and a linear-time subtract-range routine", and
    "subtracting an already-disjoint range from missing_ranges is a
    no-op". *)
Definition exclude (ranges : list range) (ex : range) : list range :=
  flat_map (fun r => exclude_one r ex) ranges.

(** [sum(len(r) for r in ranges)] *)
Definition total_len (ranges : list range) : Z :=
  fold_right (fun r acc => rlen r + acc) 0 ranges.

(** [p] lies in one of the ranges. *)
Definition covers (ranges : list range) (p : Z) : bool :=
  existsb (fun r => contains r p) ranges.

End Ranges.

(** ** JSON values *)

Module Json.

(** The JSON values of the worker protocol. A number with a fraction is
    kept as the fraction it denotes. *)
Inductive jval : Type :=
  | JNull
  | JBool (b : bool)
  | JInt (n : Z)
  | JFloat (num : Z) (den : positive)
  | JStr (s : string).

(** [v == s] for a string literal [s]. *)
Definition is_str (v : jval) (s : string) : bool :=
  match v with
  | JStr t => String.eqb t s
  | _ => false
  end.

(** [if v:] *)
Definition truthy (v : jval) : bool :=
  match v with
  | JNull => false
  | JBool b => b
  | JInt n => negb (n =? 0)
  | JFloat num _ => negb (num =? 0)
  | JStr s => negb (String.eqb s "")
  end.

(** A value used as a file position or a range bound: [bool] is a
    subclass of [int]; anything else is a [TypeError]. *)
Definition as_int (v : jval) : option Z :=
  match v with
  | JInt n => Some n
  | JBool b => Some (if b then 1 else 0)
  | _ => None
  end.

Definition as_str (v : jval) : option string :=
  match v with
  | JStr s => Some s
  | _ => None
  end.

End Json.

(** ** TransferState *)

Module Transfer.
Import Ranges Json.

Definition chunk_size : Z := 65536.
Definition pipeline_size : Z := 10.

(** The [NamedTemporaryFile] a transfer writes into. Every access seeks
    first, so the file position is not part of the state. The bytes are
    kept with the handle: until [verify] closes it nothing else reads or
    writes this file. *)
Record tempfile : Type := TempFile {
  name : string;
  content : bytes;
  closed : bool
}.

Record TransferState : Type := MkTransferState {
  _file : tempfile;
  _credit : Z;
  _offset : Z;
  _map : list range
}.

Definition zero : ascii := Ascii.zero.

(** [f.seek(filesize); f.truncate()] on a new, empty file. *)
Definition truncate_to (filesize : Z) : bytes :=
  repeat zero (Z.to_nat filesize).

(** [TransferState(filesize)]; [tmpname] is the name the operating system
    picked for the temporary file. [seek] refuses a negative position. *)
Definition TransferState_init (tmpname : string) (filesize : Z)
  : outcome TransferState :=
  if filesize <? 0 then Raise OSError
  else Ok {|
    _file := TempFile tmpname (truncate_to filesize) false;
    _credit := Z.max 1 (Z.min pipeline_size (filesize / chunk_size));
    _offset := 0;
    _map := [Range 0 filesize]
  |}.

(** [done] *)
Definition done (t : TransferState) : bool :=
  match _map t with [] => true | _ => false end.

(** The [for map_range in self._map] loop of [fetch]: either a [return
    result] or the loop runs to its end. *)
Fixpoint fetch_scan (map : list range) (fetch_range : range) : option range :=
  match map with
  | [] => None
  | map_range :: rest =>
      let result := intersect map_range fetch_range in
      if result_bool result then result
      else if start fetch_range <? start map_range
      then fetch_scan rest
             (Range (start map_range) (start map_range + chunk_size))
      else fetch_scan rest fetch_range
  end.

(** The [while True] loop of [fetch], run for at most [fuel] rounds. *)
Fixpoint fetch_loop (fuel : nat) (map : list range) (fetch_range : range)
  : outcome (option range) :=
  match fuel with
  | O => Diverge
  | S fuel' =>
      match fetch_scan map fetch_range with
      | Some result => Ok (Some result)
      | None =>
          match map with
          | [] => Ok None                       (* IndexError: return None *)
          | first :: _ =>
              fetch_loop fuel' map
                (Range (start first) (start first + chunk_size))
          end
      end
  end.

Definition set_credit (c : Z) (t : TransferState) : TransferState :=
  MkTransferState (_file t) c (_offset t) (_map t).
Definition set_offset (o : Z) (t : TransferState) : TransferState :=
  MkTransferState (_file t) (_credit t) o (_map t).

(** [fetch()] *)
Definition fetch (fuel : nat) (t : TransferState)
  : outcome (option range * TransferState) :=
  if _credit t =? 0 then Ok (None, t)
  else
    let t1 := set_credit (_credit t - 1) t in
    if _credit t1 <? 0 then Raise AssertionError
    else
      result ← fetch_loop fuel (_map t1)
                  (Range (_offset t1) (_offset t1 + chunk_size));
      match result with
      | Some r => Ok (Some r, set_offset (stop r) t1)
      | None => Ok (None, t1)
      end.

(** [f.seek(offset); f.write(data)]: writing nothing leaves the file as
    it is, wherever the position is; a write of some bytes past the end
    of the file fills the gap with zero bytes. *)
Definition write_at (old : bytes) (offset : nat) (data : bytes) : bytes :=
  match data with
  | [] => old
  | _ :: _ =>
      firstn offset old ++ repeat zero (offset - length old)%nat
        ++ data ++ skipn (offset + length data)%nat old
  end.

Definition seek_write (f : tempfile) (offset : Z) (data : string)
  : outcome tempfile :=
  if closed f then Raise ValueError
  else if offset <? 0 then Raise OSError
  else Ok (TempFile (name f)
             (write_at (content f) (Z.to_nat offset)
                (list_ascii_of_string data))
             false).

(** [chunk(offset, data)] *)
Definition chunk (offset : Z) (data : string) (t : TransferState)
  : outcome TransferState :=
  f ← seek_write (_file t) offset data;
  let map :=
    exclude (_map t)
      (Range offset (offset + Z.of_nat (String.length data))) in
  Ok (MkTransferState f
        (match map with [] => 0 | _ => _credit t + 1 end)
        (_offset t) map).

(** [reset_credit()] *)
Definition reset_credit (t : TransferState) : TransferState :=
  if _credit t =? 0 then set_credit pipeline_size t else t.

(** A history of calls on one transfer, as [build_catcher] makes them. *)
Inductive call : Type :=
  | Chunk (offset : Z) (data : string)
  | Fetch.

Fixpoint run (fuel : nat) (calls : list call) (t : TransferState)
  : outcome TransferState :=
  match calls with
  | [] => Ok t
  | Chunk offset data :: rest =>
      t' ← chunk offset data t; run fuel rest t'
  | Fetch :: rest =>
      '(_, t') ← fetch fuel t; run fuel rest t'
  end.

(** Position [p] of the file has been delivered by one of the calls. *)
Definition received (calls : list call) (p : Z) : bool :=
  existsb (fun c =>
             match c with
             | Chunk offset data =>
                 contains
                   (Range offset (offset + Z.of_nat (String.length data))) p
             | Fetch => false
             end) calls.

(** How many of the positions [0 .. n-1] satisfy [P]. *)
Definition count (P : Z -> bool) (n : nat) : Z :=
  Z.of_nat (length (List.filter (fun i => P (Z.of_nat i)) (seq 0 n))).

(** The number of bytes of a file of [filesize] bytes received so far. *)
Definition bytes_received (filesize : Z) (calls : list call) : Z :=
  count (received calls) (Z.to_nat filesize).

(** Two ranges share no position. *)
Definition disjoint (a b : range) : Prop :=
  forall p, contains a p = true -> contains b p = false.

Definition pairwise_disjoint (l : list range) : Prop :=
  ForallOrdPairs disjoint l.

Definition increasing_starts (l : list range) : Prop :=
  StronglySorted (fun a b => start a < start b) l.

(** No range is empty, each ends before the next one starts, and the
    first one starts at [lo] or later. *)
Fixpoint chain (lo : Z) (l : list range) : Prop :=
  match l with
  | [] => True
  | r :: l' => lo <= start r /\ start r < stop r /\ chain (stop r) l'
  end.

(** The list of missing ranges is a chain, or it is the one empty range
    of an empty file. *)
Definition map_shape (l : list range) : Prop :=
  chain 0 l \/ l = [Range 0 0].

(** [r] is a non-empty part of [m]. *)
Definition subrange (r m : range) : Prop :=
  start m <= start r /\ start r < stop r /\ stop r <= stop m.

(** ASCII lower case, for [m.hexdigest().lower()]. *)
Definition lower_ascii (c : ascii) : ascii :=
  let n := nat_of_ascii c in
  if ((65 <=? n) && (n <=? 90))%nat then ascii_of_nat (n + 32) else c.

Fixpoint lower (s : string) : string :=
  match s with
  | EmptyString => EmptyString
  | String c s' => String (lower_ascii c) (lower s')
  end.

(** *** Paths

    [pathlib] on a POSIX system. Paths are written relative to the output
    path, where the temporary file of a transfer is. *)

(** The pieces of [s] between the "/" in it; [acc] is the piece being
    read. *)
Fixpoint components (acc : string) (s : string) : list string :=
  match s with
  | EmptyString => [acc]
  | String c rest =>
      if Ascii.eqb c "/" then acc :: components EmptyString rest
      else components (acc ++ String c EmptyString) rest
  end.

(** The parts [pathlib] makes of a string: empty pieces and "." are
    dropped. *)
Definition parse_parts (s : string) : list string :=
  List.filter (fun part => negb (String.eqb part "" || String.eqb part "."))
    (components EmptyString s).

Definition starts_with_slash (s : string) : bool :=
  match s with
  | String c _ => Ascii.eqb c "/"
  | EmptyString => false
  end.

Fixpoint ends_with_slash (s : string) : bool :=
  match s with
  | EmptyString => false
  | String c EmptyString => Ascii.eqb c "/"
  | String _ rest => ends_with_slash rest
  end.

(** The names [Path.with_name] takes: not empty, no "/" at either end,
    and one part. (From Python 3.12 on a name with a "/" anywhere is
    refused.) *)
Definition valid_name (name : string) : bool :=
  negb (String.eqb name "") && negb (ends_with_slash name)
  && negb (starts_with_slash name)
  && (length (parse_parts name) =? 1)%nat.

(** [p.with_name(name)] for the path [p] of the temporary file: the
    name takes the place of the file's. A value that is not a string is
    refused, with ValueError when it is false and TypeError when it is
    not. *)
Definition with_name (name : jval) : outcome string :=
  match name with
  | JStr s => if valid_name s then Ok s else Raise ValueError
  | _ => if truthy name then Raise TypeError else Raise ValueError
  end.

(** ["/".join(parts)] *)
Fixpoint join_parts (parts : list string) : string :=
  match parts with
  | [] => EmptyString
  | [part] => part
  | part :: rest => (part ++ "/" ++ join_parts rest)%string
  end.

(** The root of an absolute path: two leading slashes are kept, three
    or more are one. *)
Definition root_of (s : string) : string :=
  match s with
  | String _ (String c EmptyString) =>
      if Ascii.eqb c "/" then "//"%string else "/"%string
  | String _ (String c (String c' _)) =>
      if Ascii.eqb c "/" && negb (Ascii.eqb c' "/") then "//"%string
      else "/"%string
  | _ => "/"%string
  end.

(** [str(dir / name)]: an absolute [name] stands for itself; the parts
    of any other are put after [dir]. *)
Definition truediv (dir : string) (name : jval) : outcome string :=
  match name with
  | JStr s =>
      if starts_with_slash s then
        Ok (root_of s ++ join_parts (parse_parts s))%string
      else
        match parse_parts s with
        | [] => Ok dir
        | parts => Ok (dir ++ "/" ++ join_parts parts)%string
        end
  | _ => Raise TypeError
  end.

(** The operating system calls refuse a path with a NUL byte in it
    (ValueError). *)
Definition has_nul (s : string) : bool :=
  existsb (Ascii.eqb zero) (list_ascii_of_string s).

(** A file or directory name with nothing special about it: not empty,
    no "/" and no NUL byte in it, neither "." nor "..", and no longer
    than the 255 bytes a file system takes for one name. *)
Definition plain_name (name : string) : bool :=
  match components EmptyString name with
  | [part] =>
      negb (String.eqb part "" || String.eqb part "."
            || String.eqb part "..")
      && negb (has_nul name) && (String.length name <=? 255)%nat
  | _ => false
  end.

Section Verify.
(** [hashlib.sha256(...).hexdigest()] of a whole file, read in pieces
    of [chunk_size] bytes. *)
Variable sha256_hexdigest : bytes -> string.

(** [verify(build)], given the build's [filehash], [package] and
    [filename]. The result is the verdict, the file system calls made and
    the transfer with its file closed. The calls are taken to succeed
    whatever else is in the output tree, which is not looked at; what is
    refused whatever the tree holds is: a path with a NUL byte, and a
    target below the temporary file itself (a package that has the name
    of the temporary file: [mkdir] finds the file there, and the rename
    fails with NotADirectoryError). *)
Definition verify (filehash package filename : jval)
    (t : TransferState)
  : outcome (bool * list fs_call * TransferState) :=
  let f := _file t in
  if closed f then Raise ValueError       (* seek on a closed file *)
  else
    let t' := MkTransferState (TempFile (name f) (content f) true)
                (_credit t) (_offset t) (_map t) in
    let p := name f in
    if match filehash with
       | JStr h => String.eqb (lower (sha256_hexdigest (content f))) h
       | _ => false
       end
    then
      dir ← with_name package;
      if has_nul dir then Raise ValueError
      else
        target ← truediv dir filename;
        if has_nul target then Raise ValueError
        else if String.eqb dir p && String.prefix (dir ++ "/") target
        then Raise OSError
        else
          Ok (true,
              [CloseFile p; Chmod p 420; Mkdir dir; Rename p target],
              t')
    else Ok (false, [CloseFile p; Unlink p], t').
End Verify.

End Transfer.

(** ** Messages, BuildState and SlaveState *)

Module Slave.
Import Ranges Transfer.
Export Json.

Record BuildState : Type := MkBuildState {
  slave_id : Z;
  package : jval;
  version : jval;
  status : jval;
  output : jval;
  filename : jval;
  filesize : jval;
  filehash : jval;
  duration : jval;
  package_version_tag : jval;
  py_version_tag : jval;
  abi_tag : jval;
  platform_tag : jval
}.

(** [BuildState(slave_id, *args)]: a namedtuple of thirteen fields. *)
Definition BuildState_make (id : Z) (args : list jval) : outcome BuildState :=
  match args with
  | [a1; a2; a3; a4; a5; a6; a7; a8; a9; a10; a11; a12] =>
      Ok (MkBuildState id a1 a2 a3 a4 a5 a6 a7 a8 a9 a10 a11 a12)
  | _ => Raise TypeError
  end.

(** A [SlaveState]; [_transfer] refers to a [TransferState] object in the
    store, which the transfer map of [build_catcher] may refer to as
    well. [_last_seen] is the clock reading in microseconds. *)
Record SlaveState : Type := MkSlaveState {
  _slave_id : Z;
  _last_seen : option Z;
  _request : option (list jval);
  _reply : option (list jval);
  _build : option BuildState;
  _transfer : option nat;
  _terminated : bool
}.

(** [SlaveState()], [counter] being [SlaveState.counter] after its
    increment. *)
Definition SlaveState_init (counter : Z) : SlaveState :=
  MkSlaveState counter None None None None None false.

(** [kill()] *)
Definition kill (s : SlaveState) : SlaveState :=
  MkSlaveState (_slave_id s) (_last_seen s) (_request s) (_reply s)
    (_build s) (_transfer s) true.

(** The setter of [request]. *)
Definition set_request (now : Z) (value : list jval) (s : SlaveState)
  : outcome SlaveState :=
  match value with
  | [] => Raise IndexError
  | tag :: rest =>
      build ←
        (if is_str tag "BUILT"
         then b ← BuildState_make (_slave_id s) rest; Ok (Some b)
         else Ok (_build s));
      Ok (MkSlaveState (_slave_id s) (Some now) (Some value) (_reply s)
            build (_transfer s) (_terminated s))
  end.

(** What the setter of [request] makes of a [SlaveState] for a message
    that is not tagged BUILT. *)
Definition seen (now : Z) (message : list jval) (s : SlaveState)
  : SlaveState :=
  MkSlaveState (_slave_id s) (Some now) (Some message) (_reply s)
    (_build s) (_transfer s) (_terminated s).

(** [last_seen.timestamp()]: seconds, as a float. *)
Definition timestamp (last_seen : Z) : jval := JFloat last_seen 1000000.

(** The setter of [reply]. [store] holds the [TransferState] objects made
    so far, a new one is appended to it; [tmpname] is the name of the
    temporary file a new transfer would get. The result also carries the
    record sent on [SlaveState.status_queue]. *)
Definition set_reply (tmpname : string) (value : list jval)
    (s : SlaveState) (store : list TransferState)
  : outcome (SlaveState * list TransferState * list jval) :=
  match value with
  | [] => Raise IndexError
  | tag :: _ =>
      '(build, transfer, store') ←
        (if is_str tag "SEND" then
           match _build s with
           | None => Raise AttributeError
           | Some b =>
               match as_int (filesize b) with
               | None => Raise TypeError
               | Some n =>
                   t ← TransferState_init tmpname n;
                   Ok (_build s, Some (length store), store ++ [t])
               end
           end
         else if is_str tag "DONE" then Ok (None, None, store)
         else Ok (_build s, _transfer s, store));
      match _last_seen s with
      | None => Raise AttributeError
      | Some seen =>
          Ok (MkSlaveState (_slave_id s) (_last_seen s) (_request s)
                (Some value) build transfer (_terminated s),
              store',
              JInt (_slave_id s) :: timestamp seen :: value)
      end
  end.

End Slave.

(** ** The master's shared state, [slave_driver] and [build_catcher] *)

Module Master.
Import Ranges Transfer Slave.

Inductive level : Type := DEBUG | WARNING | ERROR.

(** What one iteration of a task's loop sends out. *)
Inductive effect : Type :=
  | Log (lvl : level) (message : string)
  | SendSlave (address empty : string) (reply : list jval)
  | SendFile (frames : list string)
  | SendIndex (package : string)
  | SendStatus (record : list jval)
  | DbLogBuild (build : BuildState)
  | Fs (call : fs_call).

(** A Python [dict] keyed by byte strings, in insertion order: [d[k]],
    [d[k] = v] (a key that is there keeps its place) and [del d[k]]. *)
Fixpoint dict_get {V} (k : string) (d : list (string * V)) : option V :=
  match d with
  | [] => None
  | (k', v) :: d' => if String.eqb k k' then Some v else dict_get k d'
  end.

Fixpoint dict_set {V} (k : string) (v : V) (d : list (string * V))
  : list (string * V) :=
  match d with
  | [] => [(k, v)]
  | (k', v') :: d' =>
      if String.eqb k k' then (k, v) :: d' else (k', v') :: dict_set k v d'
  end.

Fixpoint dict_del {V} (k : string) (d : list (string * V))
  : list (string * V) :=
  match d with
  | [] => []
  | (k', v') :: d' =>
      if String.eqb k k' then dict_del k d' else (k', v') :: dict_del k d'
  end.

(** The state the tasks share, and the local variables of the two loops
    that outlive an iteration. One iteration of a loop is one step on
    this state. [store] holds the [TransferState] objects; a [SlaveState]
    and the transfer map refer to them by position, and the transfer map
    can hold Python's [None]. *)
Record state : Type := MkState {
  slaves : list (string * SlaveState);
  transfers : gmap string (option nat);
  paused : bool;
  counter : Z;
  store : list TransferState;
  build_queue : list (jval * jval);
  driver_reply : option (list jval);
  catcher_slave_id : option Z
}.

Definition set_slaves v (st : state) : state :=
  MkState v (transfers st) (paused st) (counter st) (store st)
    (build_queue st) (driver_reply st) (catcher_slave_id st).
Definition set_transfers v (st : state) : state :=
  MkState (slaves st) v (paused st) (counter st) (store st)
    (build_queue st) (driver_reply st) (catcher_slave_id st).
Definition set_paused v (st : state) : state :=
  MkState (slaves st) (transfers st) v (counter st) (store st)
    (build_queue st) (driver_reply st) (catcher_slave_id st).
Definition set_counter v (st : state) : state :=
  MkState (slaves st) (transfers st) (paused st) v (store st)
    (build_queue st) (driver_reply st) (catcher_slave_id st).
Definition set_store v (st : state) : state :=
  MkState (slaves st) (transfers st) (paused st) (counter st) v
    (build_queue st) (driver_reply st) (catcher_slave_id st).
Definition set_build_queue v (st : state) : state :=
  MkState (slaves st) (transfers st) (paused st) (counter st) (store st)
    v (driver_reply st) (catcher_slave_id st).
Definition set_driver_reply v (st : state) : state :=
  MkState (slaves st) (transfers st) (paused st) (counter st) (store st)
    (build_queue st) v (catcher_slave_id st).
Definition set_catcher_slave_id v (st : state) : state :=
  MkState (slaves st) (transfers st) (paused st) (counter st) (store st)
    (build_queue st) (driver_reply st) v.

(** [main]: the state before any message. *)
Definition initial : state :=
  MkState [] ∅ false 0 [] [] None None.

(** [slave_id == v] for a JSON value [v]. *)
Definition id_eq (id : Z) (v : jval) : bool :=
  match v with
  | JInt n => id =? n
  | JBool b => id =? (if b then 1 else 0)
  | JFloat num den => id * Z.pos den =? num
  | _ => false
  end.

(** The control messages of [main] other than QUIT. *)
Definition control (message : list jval) (st : state)
  : outcome (state * list effect) :=
  match message with
  | [] => Raise ValueError
  | msg :: args =>
      if is_str msg "KILL" then
        match args with
        | [] => Raise IndexError
        | n :: _ =>
            Ok (set_slaves
                  (map (fun kv : string * SlaveState =>
                          if id_eq (_slave_id (snd kv)) n
                          then (fst kv, kill (snd kv)) else kv)
                     (slaves st)) st,
                [Log WARNING "Killing slave"])
        end
      else if is_str msg "PAUSE" then
        Ok (set_paused true st, [Log WARNING "Pausing operations"])
      else if is_str msg "RESUME" then
        Ok (set_paused false st, [Log WARNING "Resuming operations"])
      else Ok (st, [])
  end.

Section Driver.
Variable sha256_hexdigest : bytes -> string.

(** The end of an iteration of [slave_driver] that has a reply:
    [slave.reply = reply], then the reply is sent to the worker.
    [before] is what the iteration has sent so far. *)
Definition send_reply (tmpname address empty : string)
    (slave : SlaveState) (before : list effect) (reply : list jval)
    (st : state)
  : outcome (state * list effect) :=
  '(slave', store', record) ← set_reply tmpname reply slave (store st);
  Ok (set_driver_reply (Some reply)
        (set_store store'
           (set_slaves (dict_set address slave' (slaves st)) st)),
      before ++ [SendStatus record; SendSlave address empty reply]).

(** [slave = self.slaves[address]], and what the [KeyError] handler
    does: a new [SlaveState] for a HELLO, nothing otherwise. *)
Definition lookup_slave (address : string) (msg : jval) (st : state)
  : option (SlaveState * state) :=
  match dict_get address (slaves st) with
  | Some slave => Some (slave, st)
  | None =>
      if is_str msg "HELLO" then
        let slave := SlaveState_init (counter st + 1) in
        Some (slave,
              set_slaves (dict_set address slave (slaves st))
                (set_counter (counter st + 1) st))
      else None
  end.

(** One iteration of the loop of [slave_driver], once a message of
    three frames has arrived: [message] is [jsonapi.loads(msg)], [now]
    the clock, [tmpname] the name a new temporary file would get. *)
Definition slave_driver_step (now : Z) (tmpname : string)
    (address empty : string) (message : list jval) (st : state)
  : outcome (state * list effect) :=
  match message with
  | [] => Raise ValueError
  | msg :: args =>
      match lookup_slave address msg st with
      | None => Ok (st, [Log ERROR "Invalid first message from slave"])
      | Some (slave0, st0) =>
          slave ← set_request now (msg :: args) slave0;
          let st1 := set_slaves (dict_set address slave (slaves st0)) st0 in
          let send := send_reply tmpname address empty slave in
          if is_str msg "HELLO" then
            send [Log WARNING "New slave"]
              [JStr "HELLO"; JInt (_slave_id slave)] st1
          else if is_str msg "BYE" then
            Ok (set_slaves (dict_del address (slaves st1)) st1,
                [Log WARNING "Slave shutdown"])
          else if is_str msg "IDLE" then
            if _terminated slave then send [] [JStr "BYE"] st1
            else if paused st1 then send [] [JStr "SLEEP"] st1
            else
              match build_queue st1 with
              | (package, version) :: rest =>
                  send [] [JStr "BUILD"; package; version]
                    (set_build_queue rest st1)
              | [] => send [] [JStr "SLEEP"] st1
              end
          else if is_str msg "BUILT" then
            match _build slave with
            | None => Raise AttributeError
            | Some b =>
                send [DbLogBuild b]
                  (if truthy (status b) then [JStr "SEND"]
                   else [JStr "DONE"]) st1
            end
          else if is_str msg "SENT" then
            match _transfer slave with
            | None =>
                Ok (st1, [Log ERROR "No transfer to verify from slave"])
            | Some l =>
                match store st1 !! l, _build slave with
                | Some t, Some b =>
                    '(ok, calls, t') ←
                      verify sha256_hexdigest (filehash b) (package b)
                        (filename b) t;
                    let st2 := set_store (<[l := t']> (store st1)) st1 in
                    if ok : bool then
                      match as_str (package b) with
                      | Some pkg =>
                          send (map Fs calls ++ [SendIndex pkg])
                            [JStr "DONE"] st2
                      | None => Raise TypeError
                      end
                    else send (map Fs calls) [JStr "SEND"] st2
                | _, _ => Raise AttributeError
                end
            end
          else
            (* no branch assigns [reply]: the one of an earlier
               iteration is used *)
            match driver_reply st1 with
            | None => Raise UnboundLocalError
            | Some reply =>
                send [Log ERROR "Invalid message from existing slave"]
                  reply st1
            end
      end
  end.
End Driver.

(** [int(b)] on the bytes of a frame, or on the string decoded from
    them: white space, an optional sign, decimal digits with single
    underscores between them, white space; more than 4300 digits are
    refused (the default of [sys.set_int_max_str_digits]). *)
Definition digit (c : ascii) : option Z :=
  let n := nat_of_ascii c in
  if ((48 <=? n) && (n <=? 57))%nat then Some (Z.of_nat (n - 48)) else None.

(** Tab, line feed, vertical tab, form feed, carriage return, space. *)
Definition is_space (c : ascii) : bool :=
  let n := nat_of_ascii c in
  (((9 <=? n) && (n <=? 13)) || (n =? 32))%nat.

Fixpoint lstrip (s : string) : string :=
  match s with
  | EmptyString => EmptyString
  | String c rest => if is_space c then lstrip rest else s
  end.

(** Where the reading of the digits stands: a digit has to come (at the
    start and after an underscore), a digit has just been read, or the
    white space at the end has begun. *)
Inductive int_state : Type := NeedDigit | AfterDigit | Trailing.

Fixpoint parse_digits (s : string) (acc : Z) (state : int_state)
  : option Z :=
  match s with
  | EmptyString =>
      match state with
      | NeedDigit => None
      | _ => Some acc
      end
  | String c s' =>
      match state with
      | Trailing => if is_space c then parse_digits s' acc Trailing else None
      | NeedDigit =>
          match digit c with
          | Some d => parse_digits s' (10 * acc + d) AfterDigit
          | None => None
          end
      | AfterDigit =>
          match digit c with
          | Some d => parse_digits s' (10 * acc + d) AfterDigit
          | None =>
              if Ascii.eqb c "_" then parse_digits s' acc NeedDigit
              else if is_space c then parse_digits s' acc Trailing
              else None
          end
      end
  end.

(** The number of digits in [s]. *)
Definition digit_count (s : string) : nat :=
  length (List.filter (fun c => match digit c with
                                | Some _ => true
                                | None => false
                                end) (list_ascii_of_string s)).

Definition max_str_digits : nat := 4300.

Definition parse_int (s : string) : option Z :=
  if (max_str_digits <? digit_count s)%nat then None
  else
    match lstrip s with
    | EmptyString => None
    | String c s' =>
        if Ascii.eqb c "-" then Z.opp <$> parse_digits s' 0 NeedDigit
        else if Ascii.eqb c "+" then parse_digits s' 0 NeedDigit
        else parse_digits (String c s') 0 NeedDigit
    end.

(** [[slave for slave in self.slaves.values()
      if slave.slave_id == slave_id][0]] *)
Definition find_slave (id : Z) (d : list (string * SlaveState))
  : option SlaveState :=
  head (List.filter (fun s => _slave_id s =? id) (List.map snd d)).

(** The loop that ends an iteration of [build_catcher]: FETCH frames as
    long as [fetch] returns a range. *)
Fixpoint fetch_all (rounds fuel : nat) (address : string)
    (t : TransferState) : outcome (TransferState * list effect) :=
  match rounds with
  | O => Diverge
  | S rounds' =>
      '(fetch_range, t1) ← fetch fuel t;
      match fetch_range with
      | Some r =>
          if range_bool r then
            '(t2, sent) ← fetch_all rounds' fuel address t1;
            Ok (t2,
                SendFile [address; "FETCH"; pretty (start r);
                          pretty (rlen r)] :: sent)
          else Ok (t1, [])
      | None => Ok (t1, [])
      end
  end.

(** [transfer.fetch()] and the loop after it, on what the variable
    [transfer] refers to. *)
Definition run_fetches (fuel : nat) (address : string)
    (transfer : option nat) (before : list effect) (st : state)
  : outcome (state * list effect) :=
  match transfer with
  | None => Raise AttributeError
  | Some l =>
      match store st !! l with
      | None => Raise AttributeError
      | Some t =>
          '(t', sent) ← fetch_all fuel fuel address t;
          Ok (set_store (<[l := t']> (store st)) st, before ++ sent)
      end
  end.

(** One iteration of the loop of [build_catcher], once a message has
    arrived; [frames] is what [recv_multipart] returned. *)
Definition build_catcher_step (fuel : nat) (frames : list string)
    (st : state) : outcome (state * list effect) :=
  match frames with
  | address :: msg :: args =>
      match transfers st !! address with
      | None =>
          if String.eqb msg "CHUNK" then
            Ok (st, [Log DEBUG "Ignoring redundant CHUNK from prior transfer"])
          else if negb (String.eqb msg "HELLO") then
            Ok (st, [Log ERROR "Invalid start transfer from slave"])
          else
            match args with
            | [] =>
                (* IndexError: its handler formats [slave_id] *)
                match catcher_slave_id st with
                | None => Raise UnboundLocalError
                | Some _ =>
                    Ok (st, [Log ERROR "Unknown slave_id during start transfer"])
                end
            | a :: _ =>
                match parse_int a with
                | None =>
                    Ok (st, [Log ERROR "Invalid slave_id during start transfer"])
                | Some id =>
                    let st1 := set_catcher_slave_id (Some id) st in
                    match find_slave id (slaves st1) with
                    | None =>
                        Ok (st1,
                            [Log ERROR "Unknown slave_id during start transfer"])
                    | Some slave =>
                        let transfer := _transfer slave in
                        run_fetches fuel address transfer
                          (match transfer with
                           | None =>
                               [Log ERROR "No active transfer for slave"]
                           | Some _ => []
                           end)
                          (set_transfers
                             (<[address := transfer]> (transfers st1)) st1)
                    end
                end
            end
      | Some transfer =>
          if String.eqb msg "CHUNK" then
            match transfer with
            | None => Raise AttributeError
            | Some l =>
                match store st !! l, args with
                | None, _ => Raise AttributeError
                | Some t, a0 :: rest =>
                    match parse_int a0, rest with
                    | None, _ => Raise ValueError
                    | Some _, [] => Raise IndexError
                    | Some offset, a1 :: _ =>
                        t' ← chunk offset a1 t;
                        let st1 := set_store (<[l := t']> (store st)) st in
                        if done t' then
                          Ok (set_transfers (delete address (transfers st1)) st1,
                              [SendFile [address; "DONE"]])
                        else run_fetches fuel address transfer [] st1
                    end
                | Some _, [] => Raise IndexError
                end
            end
          else if String.eqb msg "HELLO" then
            match transfer with
            | None => Raise AttributeError
            | Some l =>
                match store st !! l with
                | None => Raise AttributeError
                | Some t =>
                    run_fetches fuel address transfer
                      (if _credit t =? 0 then []
                       else [Log WARNING
                               "Transfer still has credit; no need for reset"])
                      (set_store (<[l := reset_credit t]> (store st)) st)
                end
            end
          else
            run_fetches fuel address transfer
              [Log ERROR "Invalid chunk header from slave"] st
      end
  | _ => Raise ValueError
  end.

End Master.

(** ** The index writers *)

Module Index.

(** The files under the output path: contents and mode of each path. *)
Abbreviation files := (gmap string (bytes * Z)).

(** The effect of one call on the files. A temporary file is created
    empty with mode 0600; bytes written through a handle are taken to
    reach the file at once. *)
Definition apply_call (c : fs_call) (f : files) : files :=
  match c with
  | MkTemp dir tmp => <[join dir tmp := ([], 384)]> f
  | WriteFile p d => alter (fun x => (fst x ++ d, snd x)) p f
  | CloseFile _ => f
  | Chmod p m => alter (fun x => (fst x, m)) p f
  | Mkdir _ => f
  | Rename src dst =>
      match f !! src with
      | Some x => <[dst := x]> (delete src f)
      | None => f
      end
  | Unlink p => delete p f
  end.

Definition apply_calls (cs : list fs_call) (f : files) : files :=
  fold_left (fun acc c => apply_call c acc) cs f.

(** What the body of a [with] block does to the file it is given: it
    writes [data] and ends, or it raises after [data] has been written
    (rendering the page raises before any byte is written, a full disk
    after some). *)
Inductive attempt : Type :=
  | Written (data : bytes)
  | Failed (data : bytes).

(** [write_root_index] and [write_package_index] of [__init__.py]: the
    temporary file is made in [dir] (the output path itself, or the
    directory of the package) and replaces [dir/index.html]. The result
    tells whether the call returned ([true]) or raised. *)
Definition write_index (dir tmp : string) (body : attempt)
  : list fs_call * bool :=
  let t := join dir tmp in
  match body with
  | Written data =>
      ([MkTemp dir tmp; WriteFile t data; Chmod t 420;
        Rename t (join dir "index.html"); CloseFile t], true)
  | Failed data =>
      ([MkTemp dir tmp; WriteFile t data; CloseFile t], false)
  end.

Definition write_root_index (tmp : string) (body : attempt) :=
  write_index "" tmp body.
Definition write_package_index (package tmp : string) (body : attempt) :=
  write_index package tmp body.

(** [with AtomicReplaceFile(dir/file) as f: body] of [the_scribe.py]:
    [__init__] makes the temporary file in the parent of the target,
    [__exit__] sets the mode, closes, and renames or unlinks. *)
Definition AtomicReplaceFile (dir file tmp : string) (body : attempt)
  : list fs_call * bool :=
  let t := join dir tmp in
  match body with
  | Written data =>
      ([MkTemp dir tmp; WriteFile t data; Chmod t 420; CloseFile t;
        Rename t (join dir file)], true)
  | Failed data =>
      ([MkTemp dir tmp; WriteFile t data; Chmod t 420; CloseFile t;
        Unlink t], false)
  end.

(** The files as they are after each call of a sequence, in order. *)
Fixpoint visible (cs : list fs_call) (f : files) : list files :=
  match cs with
  | [] => [f]
  | c :: cs' => f :: visible cs' (apply_call c f)
  end.

End Index.

(** ** Runs of the master *)

Module Scenario.
Import Ranges Transfer Slave Master.

(** What arrives at the master: a message on the worker socket (with the
    clock and the name a new temporary file would get), frames on the file
    socket, or a control message. *)
Inductive event : Type :=
  | Worker (now : Z) (tmpname address : string) (message : list jval)
  | File (frames : list string)
  | Control (message : list jval).

Section Run.
Variable sha256_hexdigest : bytes -> string.
Variable fuel : nat.

Definition handle (e : event) (st : state) : outcome (state * list effect) :=
  match e with
  | Worker now tmpname address message =>
      slave_driver_step sha256_hexdigest now tmpname address "" message st
  | File frames => build_catcher_step fuel frames st
  | Control message => control message st
  end.

(** The events handled one after the other, each by the task it is for. *)
Fixpoint handle_all (es : list event) (st : state)
  : outcome (state * list (list effect)) :=
  match es with
  | [] => Ok (st, [])
  | e :: es' =>
      '(st1, out) ← handle e st;
      '(st2, outs) ← handle_all es' st1;
      Ok (st2, out :: outs)
  end.
End Run.

(** What is looked at after a run: what each event made the master send,
    the build and transfer of every worker, and the credit and missing
    ranges of every transfer. *)
Definition observe (o : outcome (state * list (list effect)))
  : option (list (list effect)
            * list (option BuildState * option nat)
            * list (Z * list range)) :=
  match o with
  | Ok (st, outs) =>
      Some (outs,
            List.map (fun kv : string * SlaveState =>
                        (_build (snd kv), _transfer (snd kv))) (slaves st),
            List.map (fun t => (_credit t, _map t)) (store st))
  | _ => None
  end.

(** A BUILT message for a successful build of foo 1.0. *)
Definition built (size : Z) (hash : string) : list jval :=
  [JStr "BUILT"; JStr "foo"; JStr "1.0"; JBool true; JStr "ok";
   JStr "foo-1.0-py3-none-any.whl"; JInt size; JStr hash; JFloat 25 2;
   JStr "1.0"; JStr "py3"; JStr "none"; JStr "any"].

(** [n] bytes of data. *)
Definition blob (n : Z) : string :=
  string_of_list_ascii (repeat "a"%char (Z.to_nat n)).

(** A stand-in for SHA-256 in worked examples: every file has the digest
    "AB". *)
Definition constant_digest (_ : bytes) : string := "AB".

End Scenario.

(** ** What a transfer delivers *)

Module Delivery.
Import Ranges Transfer.

(** No range is empty, each ends strictly before the next one starts, and
    the first one starts after [lo]. *)
Fixpoint gapped (lo : Z) (l : list range) : Prop :=
  match l with
  | [] => True
  | r :: l' => lo < start r /\ start r < stop r /\ gapped (stop r) l'
  end.

(** A [chunk] call that carries bytes of the file [F], at the place they
    have in [F]. *)
Definition slice_of (F : bytes) (c : call) : Prop :=
  match c with
  | Chunk offset data =>
      0 <= offset
      /\ offset + Z.of_nat (String.length data) <= Z.of_nat (length F)
      /\ list_ascii_of_string data
         = take (String.length data) (drop (Z.to_nat offset) F)
  | Fetch => True
  end.

End Delivery.

(** ** Frames on the file socket *)

Module Wire.
Import Ranges Transfer Slave Master.

(** [e] is a FETCH frame sent to [address] for a non-empty part, of at
    most [chunk_size] bytes, of one of the ranges of [missing]. *)
Definition fetch_frame (address : string) (missing : list range)
    (e : effect) : Prop :=
  exists r m,
    e = SendFile [address; "FETCH"%string; pretty (start r); pretty (rlen r)]
    /\ In m missing /\ subrange r m /\ rlen r <= chunk_size.

(** The first missing range, if there is one, is not empty. *)
Definition head_not_empty (missing : list range) : Prop :=
  match missing with
  | [] => True
  | first :: _ => start first < stop first
  end.

(** The credit of a transfer is not negative. *)
Definition credit_ok (t : TransferState) : Prop := 0 <= _credit t.


End Wire.

(** ** the_scribe.py: names, pages and counts *)

Module Scribe.
Import Transfer.

(** A character of the class [[-_.]] of [_canonicalize_regex]. *)
Definition separator (c : ascii) : bool :=
  Ascii.eqb c "-" || Ascii.eqb c "_" || Ascii.eqb c ".".

(** [_canonicalize_regex.sub("-", name)]: from left to right, every run
    of separators, taken as long as it gets, is replaced by one "-".
    [in_run] tells whether the character before belongs to a run. *)
Fixpoint sub_runs (in_run : bool) (name : string) : string :=
  match name with
  | EmptyString => EmptyString
  | String c rest =>
      if separator c then
        if in_run then sub_runs true rest
        else String "-" (sub_runs true rest)
      else String c (sub_runs false rest)
  end.

(** [canonicalize_name(name)], for a name of ASCII characters (what
    [str.lower] does to other characters is not modelled). *)
Definition canonicalize_name (name : string) : string :=
  lower (sub_runs false name).

(** A character below 128. *)
Definition is_ascii (c : ascii) : bool := (nat_of_ascii c <? 128)%nat.

Definition upper_case (c : ascii) : bool :=
  ((65 <=? nat_of_ascii c) && (nat_of_ascii c <=? 90))%nat.

(** The canonical form of PEP 503: no upper case letter, no "_" or ".",
    and no "-" next to another; [after_dash] tells whether the character
    before is a "-". *)
Fixpoint canonical_from (after_dash : bool) (name : string) : bool :=
  match name with
  | EmptyString => true
  | String c rest =>
      if Ascii.eqb c "-" then negb after_dash && canonical_from true rest
      else negb (separator c) && negb (upper_case c)
           && canonical_from false rest
  end.

Definition canonical (name : string) : bool := canonical_from false name.

(** What [zip_longest] holds for each of its arguments: here a reference
    to the one iterator over the data, which all the arguments of
    [grouper] share, or [repeat(fillvalue)] once that iterator has been
    found exhausted at this position. *)
Inductive slot : Type := Shared | Filler.

(** One round of the [while True] loop of [zip_longest]: a value is taken
    for each position in turn; [it] is what the shared iterator has left,
    [num_active] the count of positions not yet replaced by a filler.
    [None] is the [return] taken when that count reaches zero. *)
Fixpoint zip_round {A} (fillvalue : A) (slots : list slot) (it : list A)
    (num_active : nat) : option (list A * list slot * list A * nat) :=
  match slots with
  | [] => Some ([], [], it, num_active)
  | Filler :: rest =>
      '(values, rest', it', active) ←
        zip_round fillvalue rest it num_active;
      Some (fillvalue :: values, Filler :: rest', it', active)
  | Shared :: rest =>
      match it with
      | value :: it1 =>
          '(values, rest', it', active) ←
            zip_round fillvalue rest it1 num_active;
          Some (value :: values, Shared :: rest', it', active)
      | [] =>
          let num_active := Nat.pred num_active in
          if (num_active =? 0)%nat then None
          else
            '(values, rest', it', active) ←
              zip_round fillvalue rest [] num_active;
            Some (fillvalue :: values, Filler :: rest', it', active)
      end
  end.

(** The rounds of [zip_longest], at most [fuel] of them: the tuples it
    yields until it returns. *)
Fixpoint zip_rounds {A} (fuel : nat) (fillvalue : A) (slots : list slot)
    (it : list A) (num_active : nat) : outcome (list (list A)) :=
  match fuel with
  | O => Diverge
  | S fuel' =>
      match zip_round fillvalue slots it num_active with
      | None => Ok []
      | Some (values, slots', it', active) =>
          tuples ← zip_rounds fuel' fillvalue slots' it' active;
          Ok (values :: tuples)
      end
  end.

(** [list(grouper(iterable, n, fillvalue))]: [zip_longest] over [n]
    references to one iterator; with no argument at all it yields
    nothing. *)
Definition grouper {A} (fuel : nat) (iterable : list A) (n : nat)
    (fillvalue : A) : outcome (list (list A)) :=
  match n with
  | O => Ok []
  | _ => zip_rounds fuel fillvalue (repeat Shared n) iterable n
  end.

(** The value of a version in the dict [get_project_versions_and_files]
    returns, as far as the counts look at it: under ['builds'], for each
    ABI tag, the dict ['successful_builds'] from platform tag to file. *)
Definition builds (F : Type) : Type :=
  list (string * list (string * F)).

(** [get_num_files_for_version(builds)] *)
Definition get_num_files_for_version {F} (b : builds F) : nat :=
  list_sum (List.map (fun abi => length (snd abi)) b).

(** [get_num_files(versions)] *)
Definition get_num_files {F} (versions : list (string * builds F)) : nat :=
  list_sum (List.map (fun v => get_num_files_for_version (snd v)) versions).

(** [get_num_versions(versions)] *)
Definition get_num_versions {F} (versions : list (string * builds F))
  : nat :=
  length (List.filter
            (fun v => (0 <? get_num_files_for_version (snd v))%nat)
            versions).

(** What [handle_index] receives: [recv_msg] raises IOError, or gives a
    message and its data (the name of a package, or statistics taken as
    they are). *)
Inductive request : Type :=
  | Broken (error : string)
  | Msg (msg data : string).

(** The writers [handle_index] calls, with what they are given; the
    index of all packages is written from the package cache. *)
Inductive written : Type :=
  | LogError (error : string)
  | SimpleIndex (packages : gset string)
  | PackageIndex (package : string)
  | ProjectPage (package : string)
  | JsonFile (package : string)
  | Homepage (statistics : string)
  | Sitemap (packages : gset string)
  | SearchIndex (search_index : string).

(** [handle_index(queue)], on the package cache; the writers are taken
    to return. *)
Definition handle_index (r : request) (package_cache : gset string)
  : gset string * list written :=
  match r with
  | Broken e => (package_cache, [LogError e])
  | Msg msg data =>
      if String.eqb msg "PKGBOTH" then
        if decide (data ∈ package_cache) then
          (package_cache,
           [PackageIndex data; ProjectPage data; JsonFile data])
        else
          let package_cache := {[ data ]} ∪ package_cache in
          (package_cache,
           [SimpleIndex package_cache; PackageIndex data; ProjectPage data;
            JsonFile data])
      else if String.eqb msg "PKGPROJ" then
        (package_cache, [ProjectPage data; JsonFile data])
      else if String.eqb msg "HOME" then
        (package_cache, [Homepage data; Sitemap package_cache])
      else if String.eqb msg "SEARCH" then
        (package_cache, [SearchIndex data])
      else (package_cache, [])
  end.

(** The requests handled one after the other. *)
Fixpoint handle_indexes (rs : list request) (package_cache : gset string)
  : gset string * list written :=
  match rs with
  | [] => (package_cache, [])
  | r :: rs' =>
      let '(cache1, out1) := handle_index r package_cache in
      let '(cache2, out2) := handle_indexes rs' cache1 in
      (cache2, out1 ++ out2)
  end.

Definition is_simple_index (w : written) : bool :=
  match w with SimpleIndex _ => true | _ => false end.

Definition is_package_index (w : written) : bool :=
  match w with PackageIndex _ => true | _ => false end.

Definition is_pkgboth (r : request) : bool :=
  match r with Msg msg _ => String.eqb msg "PKGBOTH" | _ => false end.

End Scribe.

(** ** index_scribbler *)

Module Scribbler.

(** The set [packages] of [index_scribbler]: the [Path] objects of the
    directories found under the output path when the task starts, and
    the package names, which are strings, added since. A [Path] is never
    equal to a string, so [package not in packages] is decided by the
    names alone. *)
Record packages : Type := MkPackages {
  dirs : gset string;
  names : gset string
}.

(** The two writers, with what they are given (the files of a package
    come from the database). *)
Inductive index_write : Type :=
  | WriteRootIndex (p : packages)
  | WritePackageIndex (package : string).

(** One iteration of the loop of [index_scribbler] that has received
    [package]; the writers are taken to return. *)
Definition index_scribbler_step (package : string) (p : packages)
  : packages * list index_write :=
  if decide (package ∈ names p) then (p, [WritePackageIndex package])
  else
    let p' := MkPackages (dirs p) ({[ package ]} ∪ names p) in
    (p', [WriteRootIndex p'; WritePackageIndex package]).

(** The iterations for the names received, in order. *)
Fixpoint index_scribbler_loop (received : list string) (p : packages)
  : packages * list index_write :=
  match received with
  | [] => (p, [])
  | package :: rest =>
      let '(p1, out1) := index_scribbler_step package p in
      let '(p2, out2) := index_scribbler_loop rest p1 in
      (p2, out1 ++ out2)
  end.

(** [index_scribbler], from the directories there are at the start. *)
Definition index_scribbler (output_dirs : gset string)
    (received : list string) : packages * list index_write :=
  index_scribbler_loop received (MkPackages output_dirs ∅).

Definition is_root_write (w : index_write) : bool :=
  match w with WriteRootIndex _ => true | _ => false end.

End Scribbler.

(** * Properties *)

(** ** Ranges and TransferState *)

Module TransferProofs.
Import Ranges Json Transfer.

Ltac bool_lia :=
  repeat match goal with
  | H : _ && _ = true |- _ => apply andb_true_iff in H; destruct H
  | H : _ || _ = false |- _ => apply orb_false_iff in H; destruct H
  | H : (_ <=? _) = true |- _ => apply Z.leb_le in H
  | H : (_ <=? _) = false |- _ => apply Z.leb_gt in H
  | H : (_ <? _) = true |- _ => apply Z.ltb_lt in H
  | H : (_ <? _) = false |- _ => apply Z.ltb_ge in H
  | H : (_ =? _) = true |- _ => apply Z.eqb_eq in H
  | H : (_ =? _) = false |- _ => apply Z.eqb_neq in H
  end; try lia.

(** *** intersect *)

Lemma intersect_subrange m w r :
  intersect m w = Some r ->
  subrange r m /\ start w <= start r /\ stop r <= stop w.
Proof.
  unfold intersect, subrange.
  destruct (Z.max (start m) (start w) <? Z.min (stop m) (stop w)) eqn:E;
    intros H; inversion H; subst; clear H; simpl.
  bool_lia.
Qed.

Lemma intersect_head m :
  start m < stop m ->
  result_bool
    (intersect m (Range (start m) (start m + chunk_size))) = true.
Proof.
  intros Hm. unfold intersect, result_bool, range_bool, chunk_size; simpl.
  destruct (Z.max (start m) (start m) <? Z.min (stop m) (start m + 65536))
    eqn:E; simpl; bool_lia.
Qed.

(** *** exclude *)

Ltac to_prop :=
  repeat (rewrite ?orb_true_iff, ?andb_true_iff, ?negb_true_iff,
            ?andb_false_iff, ?orb_false_iff, ?negb_false_iff,
            ?Z.leb_le, ?Z.ltb_lt, ?Z.leb_gt, ?Z.ltb_ge in *).

Lemma contains_exclude_one r ex p :
  existsb (fun x => contains x p) (exclude_one r ex)
  = contains r p && negb (contains ex p).
Proof.
  apply eq_true_iff_eq. unfold exclude_one, contains.
  destruct ((stop ex <=? start ex) || (stop r <=? start ex)
            || (stop ex <=? start r)) eqn:E.
  - simpl. to_prop. lia.
  - destruct (start r <? start ex) eqn:?, (stop ex <? stop r) eqn:?; simpl;
      to_prop; lia.
Qed.

Lemma covers_app l1 l2 p : covers (l1 ++ l2) p = covers l1 p || covers l2 p.
Proof. unfold covers. apply existsb_app. Qed.

Lemma covers_exclude l ex p :
  covers (exclude l ex) p = covers l p && negb (contains ex p).
Proof.
  induction l as [|r l IH]; [reflexivity|].
  unfold exclude in *. simpl. rewrite covers_app, IH.
  unfold covers at 1. rewrite contains_exclude_one.
  simpl. destruct (contains r p), (contains ex p), (covers l p); reflexivity.
Qed.

Lemma exclude_one_fixed r ex x :
  In x (exclude_one r ex) -> exclude_one x ex = [x].
Proof.
  unfold exclude_one at 1.
  destruct ((stop ex <=? start ex) || (stop r <=? start ex)
            || (stop ex <=? start r)) eqn:E.
  - intros [<-|[]]. unfold exclude_one. now rewrite E.
  - intros Hin. apply in_app_or in Hin.
    assert (Hx : stop x <= start ex \/ stop ex <= start x).
    { destruct Hin as [Hin|Hin];
        [destruct (start r <? start ex) | destruct (stop ex <? stop r)];
        simpl in Hin; try tauto; destruct Hin as [<-|[]]; simpl; lia. }
    unfold exclude_one.
    replace ((stop ex <=? start ex) || (stop x <=? start ex)
             || (stop ex <=? start x)) with true; [reflexivity|].
    symmetry. destruct Hx as [Hx|Hx]; apply Z.leb_le in Hx; rewrite Hx;
      rewrite ?orb_true_r; reflexivity.
Qed.

Lemma exclude_fixed l ex :
  (forall x, In x l -> exclude_one x ex = [x]) -> exclude l ex = l.
Proof.
  induction l as [|r l IH]; intros H; [reflexivity|].
  unfold exclude in *. simpl. rewrite (H r) by (left; reflexivity).
  simpl. f_equal. apply IH. intros x Hx. apply H. now right.
Qed.

Lemma exclude_idempotent l ex : exclude (exclude l ex) ex = exclude l ex.
Proof.
  apply exclude_fixed. intros x Hx.
  unfold exclude in Hx. apply in_flat_map in Hx as (r & _ & Hx).
  eapply exclude_one_fixed, Hx.
Qed.

(** *** The shape of the list of missing ranges *)

Lemma chain_weaken lo lo' l : lo' <= lo -> chain lo l -> chain lo' l.
Proof. destruct l; simpl; [tauto|]. intros; intuition lia. Qed.

Lemma chain_app lo mid l1 l2 :
  chain lo l1 -> (forall r, In r l1 -> stop r <= mid) -> lo <= mid ->
  chain mid l2 -> chain lo (l1 ++ l2).
Proof.
  revert lo. induction l1 as [|r l1 IH]; simpl; intros lo H1 Hb Hlo H2.
  - eapply chain_weaken; eauto.
  - destruct H1 as (? & ? & H1). repeat split; try assumption.
    apply IH; auto.
Qed.

Lemma chain_exclude_one r ex :
  start r < stop r ->
  chain (start r) (exclude_one r ex)
  /\ forall x, In x (exclude_one r ex) -> stop x <= stop r.
Proof.
  intros Hr. unfold exclude_one.
  destruct ((stop ex <=? start ex) || (stop r <=? start ex)
            || (stop ex <=? start r)) eqn:E.
  - simpl. split; [lia|]. intros x [<-|[]]. lia.
  - to_prop.
    destruct (start r <? start ex) eqn:?, (stop ex <? stop r) eqn:?;
      simpl; to_prop; (split; [|intros x Hx]); simpl in *;
      intuition (subst; simpl; lia).
Qed.

Lemma chain_exclude lo l ex : chain lo l -> chain lo (exclude l ex).
Proof.
  revert lo. induction l as [|r l IH]; simpl; intros lo H; [exact I|].
  destruct H as (Hlo & Hr & H).
  destruct (chain_exclude_one r ex Hr) as [Hc Hb].
  unfold exclude in *. simpl.
  apply chain_app with (mid := stop r); auto; try lia.
  eapply chain_weaken; eauto.
Qed.

Lemma chain_lower lo l : chain lo l -> Forall (fun r => lo <= start r) l.
Proof.
  revert lo. induction l as [|r l IH]; simpl; intros lo H; constructor.
  - tauto.
  - destruct H as (? & ? & H). apply IH in H.
    eapply Forall_impl; [exact H|]. simpl. intros; lia.
Qed.

Lemma chain_increasing lo l : chain lo l -> increasing_starts l.
Proof.
  revert lo. induction l as [|r l IH]; simpl; intros lo H; constructor.
  - destruct H as (_ & _ & H). eapply IH, H.
  - destruct H as (_ & ? & H). apply chain_lower in H.
    eapply Forall_impl; [exact H|]. simpl. intros; lia.
Qed.

Lemma chain_disjoint lo l : chain lo l -> pairwise_disjoint l.
Proof.
  revert lo. induction l as [|r l IH]; simpl; intros lo H; constructor.
  - destruct H as (_ & ? & H). apply chain_lower in H.
    eapply Forall_impl; [exact H|]. simpl.
    intros a Ha p Hp. unfold contains in *. to_prop. lia.
  - destruct H as (_ & _ & H). eapply IH, H.
Qed.

Lemma chain_not_covered lo l p : chain lo l -> p < lo -> covers l p = false.
Proof.
  revert lo. induction l as [|r l IH]; simpl; intros lo H Hp; [reflexivity|].
  destruct H as (? & ? & H). rewrite (IH _ H) by lia.
  unfold contains. rewrite orb_false_r. to_prop. lia.
Qed.

(** *** Counting positions *)

Lemma count_S P n :
  count P (S n) = count P n + (if P (Z.of_nat n) then 1 else 0).
Proof.
  unfold count. rewrite seq_S, List.filter_app, length_app. simpl.
  destruct (P (Z.of_nat n)); simpl; lia.
Qed.

Lemma count_ext P Q n :
  (forall p, 0 <= p < Z.of_nat n -> P p = Q p) -> count P n = count Q n.
Proof.
  induction n as [|n IH]; intros H; [reflexivity|].
  rewrite !count_S, IH, (H (Z.of_nat n)) by (intros; try apply H; lia).
  reflexivity.
Qed.

Lemma count_false n : count (fun _ => false) n = 0.
Proof. induction n as [|n IH]; [reflexivity|]. rewrite count_S, IH. lia. Qed.

Lemma count_or P Q n :
  (forall p, 0 <= p < Z.of_nat n -> P p = true -> Q p = false) ->
  count (fun p => P p || Q p) n = count P n + count Q n.
Proof.
  induction n as [|n IH]; intros H; [reflexivity|].
  rewrite !count_S, IH by (intros; apply H; [lia|assumption]).
  specialize (H (Z.of_nat n)).
  destruct (P (Z.of_nat n)), (Q (Z.of_nat n)); simpl; lia.
Qed.

Lemma count_split P n :
  count P n + count (fun p => negb (P p)) n = Z.of_nat n.
Proof.
  induction n as [|n IH]; [reflexivity|].
  rewrite !count_S. destruct (P (Z.of_nat n)); simpl; lia.
Qed.

Lemma count_contains r n :
  count (contains r) n
  = Z.max 0 (Z.min (stop r) (Z.of_nat n) - Z.max (start r) 0).
Proof.
  induction n as [|n IH].
  - unfold count. simpl. lia.
  - rewrite count_S, IH. unfold contains.
    destruct ((start r <=? Z.of_nat n) && (Z.of_nat n <? stop r)) eqn:E;
      to_prop; lia.
Qed.

Lemma total_len_count lo l n :
  chain lo l -> 0 <= lo -> (forall r, In r l -> stop r <= Z.of_nat n) ->
  total_len l = count (covers l) n.
Proof.
  revert lo. induction l as [|r l IH]; simpl; intros lo H Hlo Hb.
  - now rewrite count_false.
  - destruct H as (? & ? & H).
    change (covers (r :: l)) with (fun p => contains r p || covers l p).
    rewrite count_or, count_contains, <- (IH (stop r)); auto; try lia.
    + specialize (Hb r (or_introl eq_refl)). unfold rlen. lia.
    + intros p _ Hp. eapply chain_not_covered; [exact H|].
      unfold contains in Hp. to_prop. lia.
Qed.

(** *** fetch *)

Lemma fetch_scan_sound l w r :
  fetch_scan l w = Some r -> exists m, In m l /\ subrange r m.
Proof.
  revert w. induction l as [|m l IH]; simpl; intros w H; [discriminate|].
  destruct (result_bool (intersect m w)) eqn:E.
  - exists m. split; [now left|]. now apply intersect_subrange in H.
  - destruct (start w <? start m);
      apply IH in H as (m' & ? & ?); exists m'; auto.
Qed.

Lemma fetch_loop_sound fuel l w r :
  fetch_loop fuel l w = Ok (Some r) -> exists m, In m l /\ subrange r m.
Proof.
  revert w. induction fuel as [|fuel IH]; simpl; intros w H; [discriminate|].
  destruct (fetch_scan l w) as [r'|] eqn:E.
  - inversion H; subst. eapply fetch_scan_sound, E.
  - destruct l as [|m l]; [discriminate|]. eapply IH, H.
Qed.

Lemma fetch_loop_returns fuel first rest w :
  start first < stop first ->
  exists r, fetch_loop (S (S fuel)) (first :: rest) w = Ok (Some r).
Proof.
  intros Hf. cbn [fetch_loop].
  destruct (fetch_scan (first :: rest) w) as [r|]; [now exists r|].
  cbn [fetch_scan]. rewrite (intersect_head first Hf).
  destruct (intersect first (Range (start first) (start first + chunk_size)))
    as [r|] eqn:E; [now exists r|].
  pose proof (intersect_head first Hf) as Hh. rewrite E in Hh. discriminate.
Qed.

Lemma fetch_keeps fuel t res t' :
  fetch fuel t = Ok (res, t') -> _map t' = _map t /\ _file t' = _file t.
Proof.
  unfold fetch. destruct (_credit t =? 0); [intros H; now inversion H|].
  destruct (_credit (set_credit (_credit t - 1) t) <? 0); [discriminate|].
  destruct (fetch_loop _ _ _) as [[r|]| |]; simpl; intros H;
    inversion H; subst; auto.
Qed.

(** *** Writing into the file *)

Lemma write_at_nil old offset : write_at old offset [] = old.
Proof. reflexivity. Qed.

Lemma write_at_parts old offset data :
  data <> [] ->
  write_at old offset data
  = (firstn offset old ++ repeat zero (offset - length old)%nat)
      ++ data ++ skipn (offset + length data)%nat old.
Proof.
  intros Hd. unfold write_at. destruct data; [congruence|].
  now rewrite <- app_assoc.
Qed.

Lemma write_at_twice old offset data :
  write_at (write_at old offset data) offset data = write_at old offset data.
Proof.
  destruct (list_eq_nil_dec data) as [->|Hd]; [reflexivity|].
  rewrite (write_at_parts old) by exact Hd.
  set (pre := firstn offset old ++ repeat zero (offset - length old)%nat).
  set (rest := skipn (offset + length data)%nat old).
  assert (Hpre : length pre = offset).
  { unfold pre. rewrite length_app, length_take, repeat_length. lia. }
  rewrite write_at_parts by exact Hd.
  replace (firstn offset (pre ++ data ++ rest)) with pre
    by (rewrite <- Hpre at 1; now rewrite take_app_length).
  replace (offset - length (pre ++ data ++ rest))%nat with 0%nat
    by (rewrite !length_app; lia).
  replace (skipn (offset + length data) (pre ++ data ++ rest)) with rest.
  - simpl. now rewrite app_nil_r.
  - rewrite app_assoc. rewrite <- Hpre at 1. rewrite <- length_app.
    now rewrite drop_app_length.
Qed.

(** *** Histories of calls *)

Lemma chunk_ok offset data t t' :
  chunk offset data t = Ok t' ->
  0 <= offset
  /\ _map t'
     = exclude (_map t)
         (Range offset (offset + Z.of_nat (String.length data)))
  /\ content (_file t')
     = write_at (content (_file t)) (Z.to_nat offset)
         (list_ascii_of_string data)
  /\ name (_file t') = name (_file t) /\ closed (_file t') = false
  /\ closed (_file t) = false /\ _offset t' = _offset t.
Proof.
  unfold chunk, seek_write.
  destruct (closed (_file t)) eqn:Hc; [discriminate|].
  destruct (offset <? 0) eqn:Ho; [discriminate|].
  simpl. intros H. inversion H; subst; clear H. simpl.
  to_prop. auto 10.
Qed.

Lemma run_covers fuel calls : forall t t' P,
  (forall p, covers (_map t) p = P p) ->
  run fuel calls t = Ok t' ->
  forall p, covers (_map t') p = P p && negb (received calls p).
Proof.
  induction calls as [|c calls IH]; simpl; intros t t' P HP H p.
  - inversion H; subst. now rewrite HP, andb_true_r.
  - destruct c as [offset data|].
    + destruct (chunk offset data t) as [t1| |] eqn:E; try discriminate.
      simpl in H. apply chunk_ok in E as (_ & Hm & _).
      rewrite (IH t1 t' (fun p => P p && negb (contains
        (Range offset (offset + Z.of_nat (String.length data))) p))); auto.
      * now rewrite negb_orb, andb_assoc.
      * intros q. now rewrite Hm, covers_exclude, HP.
    + destruct (fetch fuel t) as [[res t1]| |] eqn:E; try discriminate.
      simpl in H. apply fetch_keeps in E as [Hm _].
      rewrite (IH t1 t' P); auto. intros q. now rewrite Hm.
Qed.

Lemma run_shape fuel calls : forall t t',
  map_shape (_map t) -> run fuel calls t = Ok t' -> map_shape (_map t').
Proof.
  induction calls as [|c calls IH]; simpl; intros t t' Hs H.
  - now inversion H; subst.
  - destruct c as [offset data|].
    + destruct (chunk offset data t) as [t1| |] eqn:E; try discriminate.
      simpl in H. apply chunk_ok in E as (Ho & Hm & _).
      apply (IH t1 t'); auto. rewrite Hm.
      destruct Hs as [Hs| ->]; [left; now apply chain_exclude|right].
      unfold exclude, exclude_one; simpl.
      replace (0 <=? offset) with true by (symmetry; now apply Z.leb_le).
      now rewrite orb_true_r.
    + destruct (fetch fuel t) as [[res t1]| |] eqn:E; try discriminate.
      simpl in H. apply fetch_keeps in E as [Hm _].
      apply (IH t1 t'); auto. now rewrite Hm.
Qed.

Lemma map_shape_sorted l :
  map_shape l -> pairwise_disjoint l /\ increasing_starts l.
Proof.
  intros [H| ->].
  - split; [eapply chain_disjoint | eapply chain_increasing]; exact H.
  - split; repeat constructor.
Qed.

Lemma chain_covered_stop lo l r :
  chain lo l -> In r l -> covers l (stop r - 1) = true.
Proof.
  revert lo. induction l as [|m l IH]; simpl; intros lo H Hin; [easy|].
  destruct H as (? & ? & H). destruct Hin as [->|Hin].
  - unfold contains. apply orb_true_iff. left. to_prop. lia.
  - apply orb_true_iff. right. eapply IH; eauto.
Qed.

(** *** The claims on TransferState *)

(** C2. Range completeness: after any history of [chunk] and [fetch]
    calls on a transfer created for [filesize] bytes, the lengths of the
    missing ranges and the number of bytes received add up to
    [filesize], and the missing ranges are pairwise disjoint and strictly
    increasing by start. *)
Theorem range_completeness tmpname filesize fuel calls t0 t :
  TransferState_init tmpname filesize = Ok t0 ->
  run fuel calls t0 = Ok t ->
  total_len (_map t) + bytes_received filesize calls = filesize
  /\ pairwise_disjoint (_map t)
  /\ increasing_starts (_map t).
Proof.
  unfold TransferState_init. destruct (filesize <? 0) eqn:Hf; [discriminate|].
  intros H0 Hrun. inversion H0; subst t0; clear H0. to_prop.
  assert (Hs : map_shape (_map t)).
  { eapply run_shape; [|exact Hrun]. simpl.
    destruct (Z.eq_dec filesize 0) as [->|]; [now right|left].
    simpl. lia. }
  split; [|now apply map_shape_sorted].
  assert (Hc : forall p, covers (_map t) p
                 = contains (Range 0 filesize) p && negb (received calls p)).
  { eapply run_covers; [|exact Hrun]. intros p. simpl. apply orb_false_r. }
  assert (Hlen : total_len (_map t)
                 = count (covers (_map t)) (Z.to_nat filesize)).
  { destruct Hs as [Hs|Hs].
    - eapply total_len_count; [exact Hs|lia|].
      intros r Hr. pose proof (chain_covered_stop _ _ _ Hs Hr) as Hp.
      rewrite Hc in Hp. unfold contains in Hp; simpl in Hp. to_prop. lia.
    - rewrite Hs. rewrite (count_ext _ (fun _ => false)), count_false;
        [reflexivity|].
      intros p _. simpl. unfold contains; simpl. to_prop. lia. }
  rewrite Hlen. unfold bytes_received.
  rewrite (count_ext _ (fun p => negb (received calls p))).
  - pose proof (count_split (received calls) (Z.to_nat filesize)). lia.
  - intros p Hp. rewrite Hc. unfold contains; simpl.
    replace (0 <=? p) with true by (symmetry; apply Z.leb_le; lia).
    replace (p <? filesize) with true by (symmetry; apply Z.ltb_lt; lia).
    reflexivity.
Qed.

Lemma range_completeness_witness :
  exists t0 t,
    TransferState_init "tmp" 10 = Ok t0
    /\ run 2 [Fetch; Chunk 3 "abc"; Chunk 4 "bcd"; Fetch; Chunk 0 "xy"] t0
       = Ok t
    /\ _map t = [Range 2 3; Range 7 10]
    /\ total_len (_map t)
       + bytes_received 10
           [Fetch; Chunk 3 "abc"; Chunk 4 "bcd"; Fetch; Chunk 0 "xy"]
       = 10.
Proof.
  eexists. eexists.
  split; [reflexivity|]. split; [vm_compute; reflexivity|].
  split; [reflexivity|].
  refine (proj1 (range_completeness "tmp" 10 2
    [Fetch; Chunk 3 "abc"; Chunk 4 "bcd"; Fetch; Chunk 0 "xy"] _ _ _ _)).
  - reflexivity.
  - vm_compute. reflexivity.
Defined.

(** Such a history runs to its end when the file is not empty and no
    chunk has a negative offset. *)
Lemma run_returns fuel calls : forall t,
  chain 0 (_map t) -> 0 <= _credit t -> closed (_file t) = false ->
  Forall (fun c => match c with
                   | Chunk offset _ => 0 <= offset
                   | Fetch => True
                   end) calls ->
  exists t', run (S (S fuel)) calls t = Ok t'.
Proof.
  induction calls as [|c calls IH]; intros t Hch Hcr Hcl Hall;
    [now exists t|].
  apply Forall_cons in Hall as [Hc Hall]. cbn [run].
  destruct c as [offset data|].
  - destruct (chunk offset data t) as [t1| |] eqn:E.
    + pose proof (chunk_ok _ _ _ _ E) as (_ & Hm & _ & _ & Hcl' & _).
      simpl. apply IH; auto.
      * rewrite Hm. now apply chain_exclude.
      * unfold chunk in E. destruct (seek_write _ _ _); try discriminate.
        simpl in E. inversion E; subst; simpl.
        destruct (exclude _ _); lia.
    + unfold chunk, seek_write in E. rewrite Hcl in E.
      replace (offset <? 0) with false in E
        by (symmetry; apply Z.ltb_ge; lia).
      discriminate.
    + unfold chunk, seek_write in E. rewrite Hcl in E.
      destruct (offset <? 0); discriminate.
  - assert (Hf : exists res t1, fetch (S (S fuel)) t = Ok (res, t1)
                                 /\ 0 <= _credit t1).
    { unfold fetch. destruct (_credit t =? 0) eqn:E0; [eauto|].
      replace (_credit (set_credit (_credit t - 1) t) <? 0) with false
        by (symmetry; simpl; to_prop; lia).
      cbn [_map set_credit _offset].
      destruct (_map t) as [|first rest] eqn:Em.
      - simpl. eexists _, _. split; [reflexivity|]. simpl. to_prop. lia.
      - destruct Hch as (_ & Hne & _).
        destruct (fetch_loop_returns fuel first rest
                    (Range (_offset t) (_offset t + chunk_size)) Hne)
          as [r ->].
        simpl. eexists _, _. split; [reflexivity|]. simpl. to_prop. lia. }
    destruct Hf as (res & t1 & E & Hcr1). rewrite E. simpl.
    apply fetch_keeps in E as [Hm Hfl]. apply IH; auto.
    + now rewrite Hm.
    + now rewrite Hfl.
Qed.

(** C3. Fetch coverage: on a transfer whose missing ranges are pairwise
    disjoint and increasing and whose credit is positive, every range
    [fetch] returns is a non-empty part of one of the missing ranges of
    the time of the call. Moreover, when no missing range is empty,
    [fetch] does return within two rounds of its loop, and it returns a
    range unless nothing is missing. *)
Theorem fetch_coverage t :
  pairwise_disjoint (_map t) -> increasing_starts (_map t) ->
  0 < _credit t ->
  (forall fuel r t',
      fetch fuel t = Ok (Some r, t') ->
      exists m, In m (_map t) /\ subrange r m)
  /\ (Forall (fun m => start m < stop m) (_map t) ->
      forall fuel, exists res t',
        fetch (S (S fuel)) t = Ok (res, t')
        /\ (res = None <-> _map t = [])).
Proof.
  intros _ _ Hcr. split.
  - intros fuel r t'. unfold fetch.
    destruct (_credit t =? 0); [discriminate|].
    destruct (_credit (set_credit (_credit t - 1) t) <? 0); [discriminate|].
    destruct (fetch_loop _ _ _) as [[r'|]| |] eqn:E; simpl; intros H;
      inversion H; subst.
    eapply fetch_loop_sound, E.
  - intros Hne fuel. unfold fetch.
    replace (_credit t =? 0) with false by (symmetry; to_prop; lia).
    replace (_credit (set_credit (_credit t - 1) t) <? 0) with false
      by (symmetry; simpl; to_prop; lia).
    cbn [_map set_credit _offset].
    destruct (_map t) as [|first rest] eqn:Em.
    + simpl. eexists _, _. split; [reflexivity|]. tauto.
    + apply Forall_cons in Hne as [Hf _].
      destruct (fetch_loop_returns fuel first rest
                  (Range (_offset t) (_offset t + chunk_size)) Hf) as [r ->].
      simpl. eexists _, _. split; [reflexivity|]. split; discriminate.
Qed.

Lemma fetch_coverage_witness :
  let t := MkTransferState (TempFile "tmp" [] false) 2 150
             [Range 0 100; Range 200 300] in
  fetch 2 t = Ok (Some (Range 200 300), set_offset 300 (set_credit 1 t))
  /\ exists m, In m (_map t) /\ subrange (Range 200 300) m.
Proof.
  intros t. split; [reflexivity|].
  refine (proj1 (fetch_coverage t _ _ _) 2%nat (Range 200 300) _ _).
  - apply (chain_disjoint 0). simpl. lia.
  - apply (chain_increasing 0). simpl. lia.
  - simpl. lia.
  - reflexivity.
Defined.

(** C4. Idempotent CHUNK: a [chunk] call that is made a second time with
    the same offset and data leaves the missing ranges and the file as
    the first call left them. *)
Theorem chunk_idempotent offset data t t1 :
  chunk offset data t = Ok t1 ->
  exists t2,
    chunk offset data t1 = Ok t2
    /\ _map t2 = _map t1
    /\ content (_file t2) = content (_file t1)
    /\ _file t2 = _file t1.
Proof.
  intros H. pose proof (chunk_ok _ _ _ _ H) as (Ho & Hm & Hc & Hn & Hcl & _).
  destruct (chunk offset data t1) as [t2| |] eqn:E.
  - pose proof (chunk_ok _ _ _ _ E) as (_ & Hm2 & Hc2 & Hn2 & Hcl2 & _).
    exists t2. split; [reflexivity|].
    assert (Hcont : content (_file t2) = content (_file t1))
      by (rewrite Hc2, Hc; apply write_at_twice).
    repeat split.
    + rewrite Hm2, Hm. apply exclude_idempotent.
    + exact Hcont.
    + destruct (_file t2), (_file t1); simpl in *; congruence.
  - unfold chunk, seek_write in E. rewrite Hcl in E.
    replace (offset <? 0) with false in E by (symmetry; to_prop; lia).
    discriminate.
  - unfold chunk, seek_write in E. rewrite Hcl in E.
    destruct (offset <? 0); discriminate.
Qed.

Lemma chunk_idempotent_witness :
  exists t t1 t2,
    TransferState_init "tmp" 8 = Ok t
    /\ chunk 2 "abc" t = Ok t1
    /\ chunk 2 "abc" t1 = Ok t2
    /\ _map t2 = _map t1
    /\ content (_file t2) = content (_file t1)
    /\ _file t2 = _file t1.
Proof.
  eexists. eexists.
  destruct (chunk_idempotent 2 "abc"
              (MkTransferState (TempFile "tmp" (truncate_to 8) false) 1 0
                 [Range 0 8]) _ eq_refl) as (t2 & H).
  exists t2. split; [reflexivity|]. split; [reflexivity|]. exact H.
Defined.

(** C5 (as the code has it). On a transfer with no missing range [fetch]
    returns none; it does not set the credit to zero: a positive credit
    is one less afterwards, a credit of zero stays zero. *)
Theorem fetch_nothing_missing fuel t :
  _map t = [] -> 0 <= _credit t ->
  fetch (S fuel) t = Ok (None, set_credit (Z.max 0 (_credit t - 1)) t).
Proof.
  intros Hm Hc. unfold fetch.
  destruct (_credit t =? 0) eqn:E; to_prop.
  - apply Z.eqb_eq in E. destruct t; simpl in *. subst. reflexivity.
  - apply Z.eqb_neq in E.
    replace (_credit (set_credit (_credit t - 1) t) <? 0) with false
      by (symmetry; simpl; to_prop; lia).
    cbn [_map set_credit]. rewrite Hm. simpl.
    now replace (Z.max 0 (_credit t - 1)) with (_credit t - 1) by lia.
Qed.

Lemma fetch_nothing_missing_witness :
  fetch 1 (MkTransferState (TempFile "tmp" [] false) 3 0 [])
  = Ok (None, MkTransferState (TempFile "tmp" [] false) 2 0 []).
Proof.
  refine (fetch_nothing_missing 0
            (MkTransferState (TempFile "tmp" [] false) 3 0 []) _ _).
  - reflexivity.
  - simpl. lia.
Defined.

(** C5 as stated fails: a transfer of one byte is completed by one
    chunk, a HELLO then resets its credit to ten, and the [fetch] that
    follows returns none with a credit of nine. *)
Lemma fetch_nothing_missing_credit_left :
  exists t0 t1 t2,
    TransferState_init "tmp" 1 = Ok t0
    /\ chunk 0 "x" t0 = Ok t1
    /\ _map (reset_credit t1) = []
    /\ fetch 1 (reset_credit t1) = Ok (None, t2)
    /\ _credit t2 = 9.
Proof. repeat eexists. Qed.

(** *** Paths *)

Lemma append_cons c s1 s2 :
  (String c s1 ++ s2)%string = String c (s1 ++ s2)%string.
Proof. reflexivity. Qed.

Lemma append_nil_r s : (s ++ "")%string = s.
Proof.
  induction s as [|c s IH]; [reflexivity|]. now rewrite append_cons, IH.
Qed.

Lemma append_assoc s1 s2 s3 :
  ((s1 ++ s2) ++ s3)%string = (s1 ++ s2 ++ s3)%string.
Proof.
  induction s1 as [|c s1 IH]; [reflexivity|].
  now rewrite !append_cons, IH.
Qed.

Lemma components_not_nil s : forall acc, components acc s <> [].
Proof.
  induction s as [|c s IH]; intros acc; simpl; [discriminate|].
  destruct (Ascii.eqb c "/"); [discriminate|apply IH].
Qed.

Lemma components_one s : forall acc part,
  components acc s = [part] ->
  part = (acc ++ s)%string
  /\ starts_with_slash s = false /\ ends_with_slash s = false.
Proof.
  induction s as [|c s IH]; intros acc part H; simpl in H.
  - inversion H; subst. now rewrite append_nil_r.
  - destruct (Ascii.eqb c "/") eqn:Ec.
    + inversion H as [[Ha Hrest]]. now apply components_not_nil in Hrest.
    + apply IH in H as (-> & _ & He). rewrite append_assoc.
      split; [reflexivity|]. split; [exact Ec|].
      destruct s; [exact Ec|exact He].
Qed.

Lemma has_nul_append s1 s2 :
  has_nul (s1 ++ s2) = has_nul s1 || has_nul s2.
Proof.
  unfold has_nul. induction s1 as [|c s1 IH]; [reflexivity|].
  rewrite append_cons. simpl. now rewrite IH, orb_assoc.
Qed.

(** A plain name is its own single part. *)
Lemma plain_name_parts s :
  plain_name s = true ->
  components "" s = [s] /\ parse_parts s = [s]
  /\ starts_with_slash s = false /\ ends_with_slash s = false
  /\ String.eqb s "" = false /\ has_nul s = false.
Proof.
  unfold plain_name, parse_parts.
  destruct (components "" s) as [|part [|]] eqn:E; try discriminate.
  apply components_one in E as (-> & Hs & He).
  change ("" ++ s)%string with s.
  intros H. apply andb_true_iff in H as [H _].
  apply andb_true_iff in H as [H Hn].
  apply negb_true_iff in H, Hn.
  apply orb_false_iff in H as [H _]. simpl. rewrite H. simpl.
  apply orb_false_iff in H as [H _]. auto 10.
Qed.

Lemma plain_name_valid s : plain_name s = true -> valid_name s = true.
Proof.
  intros H. apply plain_name_parts in H as (_ & Hp & Hs & He & Hn & _).
  unfold valid_name. now rewrite Hp, Hs, He, Hn.
Qed.

Lemma with_name_plain s : plain_name s = true -> with_name (JStr s) = Ok s.
Proof. intros H. simpl. now rewrite plain_name_valid. Qed.

Lemma truediv_plain dir s :
  plain_name s = true -> truediv dir (JStr s) = Ok (dir ++ "/" ++ s)%string.
Proof.
  intros H. apply plain_name_parts in H as (_ & Hp & Hs & _).
  unfold truediv. now rewrite Hs, Hp.
Qed.

(** [verify] on a build whose package and file name are plain names,
    the package not having the name of the temporary file. *)
Lemma verify_plain sha filehash pkg file t :
  closed (_file t) = false ->
  plain_name pkg = true -> plain_name file = true ->
  name (_file t) <> pkg ->
  verify sha filehash (JStr pkg) (JStr file) t
  = let ok := match filehash with
              | JStr h => String.eqb (lower (sha (content (_file t)))) h
              | _ => false
              end in
    let p := name (_file t) in
    Ok (ok,
        if ok
        then [CloseFile p; Chmod p 420; Mkdir pkg;
              Rename p (pkg ++ "/" ++ file)%string]
        else [CloseFile p; Unlink p],
        MkTransferState (TempFile p (content (_file t)) true)
          (_credit t) (_offset t) (_map t)).
Proof.
  intros Hc Hp Hf Hne. unfold verify. rewrite Hc.
  destruct (match filehash with JStr _ => _ | _ => _ end); [|reflexivity].
  rewrite (with_name_plain pkg Hp). cbn [mbind outcome_bind].
  rewrite (truediv_plain pkg file Hf). cbn [mbind outcome_bind].
  pose proof (plain_name_parts pkg Hp) as (_ & _ & _ & _ & _ & Hn).
  pose proof (plain_name_parts file Hf) as (_ & _ & _ & _ & _ & Hn').
  rewrite Hn, !has_nul_append, Hn, Hn'. cbn [has_nul orb].
  replace (String.eqb pkg (name (_file t))) with false; [reflexivity|].
  symmetry. apply String.eqb_neq. congruence.
Qed.

(** With a hash that matches, a package name that [with_name] refuses
    makes [verify] raise ValueError (the file has been closed and its
    mode set by then). *)
Lemma verify_invalid_package sha h pkg filename t :
  closed (_file t) = false ->
  String.eqb (lower (sha (content (_file t)))) h = true ->
  valid_name pkg = false ->
  verify sha (JStr h) (JStr pkg) filename t = Raise ValueError.
Proof.
  intros Hc Hh Hv. unfold verify. rewrite Hc, Hh.
  cbn [with_name]. now rewrite Hv.
Qed.

End TransferProofs.

(** ** SlaveState *)

Module SlaveProofs.
Import Ranges Transfer Slave.

(** C10. The setter of [reply]: a reply tagged SEND makes a new
    [TransferState] from the file size of the current build and puts it
    in the place of whatever transfer there was, with nothing received
    yet; a reply tagged DONE sets the build and the transfer to [None];
    any other reply leaves the two as they are. *)
Theorem reply_setter tmpname tag rest s store seen :
  _last_seen s = Some seen ->
  (is_str tag "SEND" = true ->
   forall b n,
     _build s = Some b -> as_int (filesize b) = Some n -> 0 <= n ->
     exists t s' record,
       TransferState_init tmpname n = Ok t
       /\ set_reply tmpname (tag :: rest) s store
          = Ok (s', store ++ [t], record)
       /\ store !! length store = None
       /\ (store ++ [t]) !! length store = Some t
       /\ _transfer s' = Some (length store)
       /\ _build s' = Some b
       /\ _map t = [Range 0 n]
       /\ content (_file t) = repeat zero (Z.to_nat n))
  /\ (is_str tag "DONE" = true ->
      exists s' record,
        set_reply tmpname (tag :: rest) s store = Ok (s', store, record)
        /\ _build s' = None /\ _transfer s' = None)
  /\ (is_str tag "SEND" = false -> is_str tag "DONE" = false ->
      exists s' record,
        set_reply tmpname (tag :: rest) s store = Ok (s', store, record)
        /\ _build s' = _build s /\ _transfer s' = _transfer s).
Proof.
  intros Hseen. unfold set_reply. repeat split.
  - intros Htag b n Hb Hn Hpos. rewrite Htag, Hb, Hn.
    unfold TransferState_init.
    replace (n <? 0) with false by (symmetry; apply Z.ltb_ge; lia).
    simpl. rewrite Hseen. eexists _, _, _.
    split; [reflexivity|]. split; [reflexivity|].
    split; [apply lookup_ge_None_2; lia|].
    split; [|simpl; auto].
    rewrite lookup_app_r by lia.
    now replace (length store - length store)%nat with 0%nat by lia.
  - intros Htag.
    assert (is_str tag "SEND" = false) as ->.
    { destruct tag; simpl in *; try reflexivity.
      apply String.eqb_eq in Htag. now subst. }
    rewrite Htag. simpl. rewrite Hseen. eauto.
  - intros -> ->. simpl. rewrite Hseen. eauto.
Qed.

Lemma reply_setter_witness :
  let b := MkBuildState 1 (JStr "foo") (JStr "1.0") (JBool true) (JStr "ok")
             (JStr "foo-1.0-py3-none-any.whl") (JInt 5) (JStr "abcd")
             (JFloat 25 2) (JStr "1.0") (JStr "py3") (JStr "none")
             (JStr "any") in
  let s := MkSlaveState 1 (Some 7) (Some [JStr "SENT"]) (Some [JStr "SEND"])
             (Some b) (Some 0%nat) false in
  let old := MkTransferState (TempFile "tmp0" (list_ascii_of_string "hello")
                                false) 0 5 [] in
  exists t s' record,
    TransferState_init "tmp1" 5 = Ok t
    /\ set_reply "tmp1" [JStr "SEND"] s [old] = Ok (s', [old; t], record)
    /\ [old] !! 1%nat = None
    /\ [old; t] !! 1%nat = Some t
    /\ _transfer s' = Some 1%nat
    /\ _build s' = Some b
    /\ _map t = [Range 0 5]
    /\ content (_file t) = repeat zero 5.
Proof.
  intros b s old.
  refine (proj1 (reply_setter "tmp1" (JStr "SEND") [] s [old] 7 _)
            _ b 5 _ _ _).
  - reflexivity.
  - reflexivity.
  - reflexivity.
  - reflexivity.
  - lia.
Defined.

End SlaveProofs.

(** ** slave_driver and build_catcher *)

Module MasterProofs.
Import Ranges Transfer Slave Master.

Lemma dict_get_set {V} k (v : V) d : dict_get k (dict_set k v d) = Some v.
Proof.
  induction d as [|[k' v'] d IH]; simpl.
  - now rewrite String.eqb_refl.
  - destruct (String.eqb k k') eqn:E; simpl; rewrite ?E, ?String.eqb_refl;
      auto.
Qed.

Lemma dict_get_set_other {V} k k' (v : V) d :
  k <> k' -> dict_get k' (dict_set k v d) = dict_get k' d.
Proof.
  intros Hne. induction d as [|[k0 v0] d IH]; simpl.
  - replace (String.eqb k' k) with false; [reflexivity|].
    symmetry. apply String.eqb_neq. congruence.
  - destruct (String.eqb k k0) eqn:E; simpl.
    + apply String.eqb_eq in E. subst k0.
      replace (String.eqb k' k) with false; [reflexivity|].
      symmetry. apply String.eqb_neq. congruence.
    + now rewrite IH.
Qed.

Lemma dict_get_del {V} k (d : list (string * V)) :
  dict_get k (dict_del k d) = None.
Proof.
  induction d as [|[k' v'] d IH]; simpl; [reflexivity|].
  destruct (String.eqb k k') eqn:E; simpl; rewrite ?E; auto.
Qed.

Section Driver.
Variable sha256_hexdigest : bytes -> string.

Local Abbreviation step := (slave_driver_step sha256_hexdigest).


Lemma send_reply_plain tmpname address empty s before tag more st now :
  _last_seen s = Some now ->
  is_str (JStr tag) "SEND" = false ->
  exists st' s',
    send_reply tmpname address empty s before (JStr tag :: more) st
    = Ok (st',
          before ++ [SendStatus (JInt (_slave_id s) :: timestamp now
                                   :: JStr tag :: more);
                     SendSlave address empty (JStr tag :: more)])
    /\ dict_get address (slaves st') = Some s'
    /\ (forall a, a <> address ->
           dict_get a (slaves st') = dict_get a (slaves st))
    /\ counter st' = counter st /\ store st' = store st
    /\ transfers st' = transfers st
    /\ _slave_id s' = _slave_id s
    /\ _last_seen s' = _last_seen s
    /\ _request s' = _request s
    /\ _reply s' = Some (JStr tag :: more)
    /\ _terminated s' = _terminated s
    /\ (if is_str (JStr tag) "DONE"
        then _build s' = None /\ _transfer s' = None
        else _build s' = _build s /\ _transfer s' = _transfer s).
Proof.
  intros Hseen Htag. unfold send_reply, set_reply. rewrite Htag.
  destruct (is_str (JStr tag) "DONE") eqn:Hd; simpl; rewrite Hseen;
    simpl; eexists _, _; (split; [reflexivity|]); simpl;
    rewrite dict_get_set;
    (repeat split; auto using dict_get_set_other).
Qed.

Lemma set_request_plain now tag args s :
  is_str tag "BUILT" = false ->
  set_request now (tag :: args) s = Ok (seen now (tag :: args) s).
Proof. intros H. unfold set_request. now rewrite H. Qed.

(** C7 (as the code has it). A HELLO from a worker whose address is
    already in the slaves map is answered like a first HELLO, with the
    slave id the worker already has: no new [SlaveState] is made, and
    the one of the worker keeps its id, build, transfer and terminated
    flag, while its last-seen time, request and reply are updated. *)
Theorem hello_from_known_worker now tmpname address empty args st slave :
  dict_get address (slaves st) = Some slave ->
  exists st' s',
    step now tmpname address empty (JStr "HELLO" :: args) st
    = Ok (st',
          [Log WARNING "New slave";
           SendStatus [JInt (_slave_id slave); timestamp now;
                       JStr "HELLO"; JInt (_slave_id slave)];
           SendSlave address empty
             [JStr "HELLO"; JInt (_slave_id slave)]])
    /\ counter st' = counter st
    /\ dict_get address (slaves st') = Some s'
    /\ s' = MkSlaveState (_slave_id slave) (Some now)
              (Some (JStr "HELLO" :: args))
              (Some [JStr "HELLO"; JInt (_slave_id slave)])
              (_build slave) (_transfer slave) (_terminated slave).
Proof.
  intros Hget. unfold slave_driver_step, lookup_slave. rewrite Hget.
  rewrite set_request_plain by reflexivity.
  change (Ok (seen now (JStr "HELLO" :: args) slave) ≫= ?k)
    with (k (seen now (JStr "HELLO" :: args) slave)).
  cbv beta zeta. change (is_str (JStr "HELLO") "HELLO") with true.
  cbv iota.
  change (_slave_id (seen now (JStr "HELLO" :: args) slave))
    with (_slave_id slave).
  destruct (send_reply_plain tmpname address empty
              (seen now (JStr "HELLO" :: args) slave)
              [Log WARNING "New slave"] "HELLO"
              [JInt (_slave_id slave)]
              (set_slaves
                 (dict_set address (seen now (JStr "HELLO" :: args) slave)
                    (slaves st)) st) now eq_refl eq_refl)
    as (st' & s' & -> & Hs' & _ & Hc & _ & _ & Hid & Hls & Hrq & Hrp
        & Ht & Hb & Htr).
  exists st', s'. repeat split; auto.
  destruct s'; simpl in *; congruence.
Qed.

Ltac known_worker Hget :=
  unfold slave_driver_step, lookup_slave; rewrite Hget;
  rewrite set_request_plain by reflexivity;
  match goal with
  | |- context [Ok ?x ≫= ?k] => change (Ok x ≫= k) with (k x)
  end;
  cbv beta zeta.

(** C8 (as the code has it). Once the terminated flag of a worker is
    set, its next IDLE is answered BYE; the entry of the worker stays
    in the slaves map, and is removed when the worker sends BYE. *)
Theorem idle_after_kill now tmpname address empty args st slave :
  dict_get address (slaves st) = Some slave ->
  _terminated slave = true ->
  exists st' s',
    step now tmpname address empty (JStr "IDLE" :: args) st
    = Ok (st',
          [SendStatus [JInt (_slave_id slave); timestamp now; JStr "BYE"];
           SendSlave address empty [JStr "BYE"]])
    /\ dict_get address (slaves st') = Some s'
    /\ _slave_id s' = _slave_id slave
    /\ _terminated s' = true
    /\ forall now' tmpname' empty' args',
        exists st'',
          step now' tmpname' address empty' (JStr "BYE" :: args') st'
          = Ok (st'', [Log WARNING "Slave shutdown"])
          /\ dict_get address (slaves st'') = None.
Proof.
  intros Hget Hterm. known_worker Hget.
  change (is_str (JStr "IDLE") "HELLO") with false.
  change (is_str (JStr "IDLE") "BYE") with false.
  change (is_str (JStr "IDLE") "IDLE") with true.
  cbv iota.
  change (_terminated (seen now (JStr "IDLE" :: args) slave))
    with (_terminated slave).
  rewrite Hterm.
  destruct (send_reply_plain tmpname address empty
              (seen now (JStr "IDLE" :: args) slave) [] "BYE" []
              (set_slaves
                 (dict_set address (seen now (JStr "IDLE" :: args) slave)
                    (slaves st)) st) now eq_refl eq_refl)
    as (st' & s' & -> & Hs' & _ & _ & _ & _ & Hid & _ & _ & _ & Ht & _).
  exists st', s'. repeat split; auto.
  { now rewrite Ht. }
  intros now' tmpname' empty' args'. known_worker Hs'.
  change (is_str (JStr "BYE") "HELLO") with false.
  change (is_str (JStr "BYE") "BYE") with true.
  cbv iota. eexists. split; [reflexivity|].
  apply dict_get_del.
Qed.

Lemma send_reply_send tmpname address empty s before st now b n :
  _last_seen s = Some now ->
  _build s = Some b -> as_int (filesize b) = Some n -> 0 <= n ->
  exists st' s' t,
    TransferState_init tmpname n = Ok t
    /\ send_reply tmpname address empty s before [JStr "SEND"] st
       = Ok (st',
             before ++ [SendStatus [JInt (_slave_id s); timestamp now;
                                    JStr "SEND"];
                        SendSlave address empty [JStr "SEND"]])
    /\ dict_get address (slaves st') = Some s'
    /\ store st' = store st ++ [t]
    /\ _build s' = Some b
    /\ _transfer s' = Some (length (store st)).
Proof.
  intros Hseen Hb Hn Hpos. unfold send_reply, set_reply.
  change (is_str (JStr "SEND") "SEND") with true. cbv iota.
  rewrite Hb, Hn. unfold TransferState_init.
  replace (n <? 0) with false by (symmetry; apply Z.ltb_ge; lia).
  simpl. rewrite Hseen. simpl. eexists _, _, _.
  split; [reflexivity|]. split; [reflexivity|]. simpl.
  rewrite dict_get_set. repeat split; auto.
Qed.


End Driver.

(** *** Worked instances *)

Lemma hello_from_known_worker_witness :
  let slave := MkSlaveState 1 (Some 5) (Some [JStr "IDLE"])
                 (Some [JStr "SLEEP"]) None None false in
  let st := MkState [("w"%string, slave)] ∅ false 1 [] [] None None in
  exists st' s',
    slave_driver_step (fun _ => ""%string) 9 "tmp" "w" ""
      [JStr "HELLO"] st
    = Ok (st',
          [Log WARNING "New slave";
           SendStatus [JInt 1; timestamp 9; JStr "HELLO"; JInt 1];
           SendSlave "w" "" [JStr "HELLO"; JInt 1]])
    /\ counter st' = 1
    /\ dict_get "w" (slaves st') = Some s'
    /\ s' = MkSlaveState 1 (Some 9) (Some [JStr "HELLO"])
              (Some [JStr "HELLO"; JInt 1]) None None false.
Proof.
  intros slave st.
  exact (hello_from_known_worker (fun _ => ""%string) 9 "tmp" "w" "" []
           st slave eq_refl).
Defined.

(** C7 as stated fails: a worker that says HELLO twice gets a reply to
    the second HELLO too, and its [SlaveState] is not as it was. *)
Lemma hello_from_known_worker_is_answered :
  exists st1 e1 st2 e2 s1 s2,
    slave_driver_step (fun _ => ""%string) 5 "tmp" "w" "" [JStr "HELLO"]
      initial = Ok (st1, e1)
    /\ dict_get "w" (slaves st1) = Some s1
    /\ slave_driver_step (fun _ => ""%string) 9 "tmp" "w" ""
         [JStr "HELLO"] st1 = Ok (st2, e2)
    /\ In (SendSlave "w" "" [JStr "HELLO"; JInt 1]) e2
    /\ dict_get "w" (slaves st2) = Some s2
    /\ _last_seen s1 = Some 5 /\ _last_seen s2 = Some 9.
Proof.
  eexists _, _, _, _, _, _.
  split; [reflexivity|]. split; [reflexivity|]. split; [reflexivity|].
  split; [simpl; tauto|]. split; reflexivity || (split; reflexivity).
Qed.

Lemma idle_after_kill_witness :
  let slave := MkSlaveState 1 (Some 5) (Some [JStr "HELLO"])
                 (Some [JStr "HELLO"; JInt 1]) None None true in
  let st := MkState [("w"%string, slave)] ∅ false 1 [] [] None None in
  exists st' s',
    slave_driver_step (fun _ => ""%string) 9 "tmp" "w" "" [JStr "IDLE"] st
    = Ok (st',
          [SendStatus [JInt 1; timestamp 9; JStr "BYE"];
           SendSlave "w" "" [JStr "BYE"]])
    /\ dict_get "w" (slaves st') = Some s'
    /\ _slave_id s' = 1
    /\ _terminated s' = true
    /\ forall now' tmpname' empty' args',
        exists st'',
          slave_driver_step (fun _ => ""%string) now' tmpname' "w" empty'
            (JStr "BYE" :: args') st'
          = Ok (st'', [Log WARNING "Slave shutdown"])
          /\ dict_get "w" (slaves st'') = None.
Proof.
  intros slave st.
  exact (idle_after_kill (fun _ => ""%string) 9 "tmp" "w" "" [] st slave
           eq_refl eq_refl).
Defined.

(** C8 as stated fails: after HELLO, KILL 1 and IDLE the worker has been
    told BYE and its entry is still in the slaves map. *)
Lemma idle_after_kill_entry_remains :
  exists st1 e1 st2 e2 st3 s3,
    slave_driver_step (fun _ => ""%string) 5 "tmp" "w" "" [JStr "HELLO"]
      initial = Ok (st1, e1)
    /\ control [JStr "KILL"; JInt 1] st1 = Ok (st2, e2)
    /\ slave_driver_step (fun _ => ""%string) 9 "tmp" "w" ""
         [JStr "IDLE"] st2
       = Ok (st3, [SendStatus [JInt 1; timestamp 9; JStr "BYE"];
                   SendSlave "w" "" [JStr "BYE"]])
    /\ dict_get "w" (slaves st3) = Some s3.
Proof.
  eexists _, _, _, _, _, _.
  split; [reflexivity|]. split; [reflexivity|]. split; reflexivity.
Qed.


(** *** build_catcher: what a bad message does *)

(** From an address with no transfer, a tag other than HELLO is logged
    and dropped. *)
Lemma catcher_unknown_address_tag fuel address msg args st :
  transfers st !! address = None -> msg <> "HELLO"%string ->
  exists lvl text,
    build_catcher_step fuel (address :: msg :: args) st
    = Ok (st, [Log lvl text]).
Proof.
  intros Hnone Hmsg. unfold build_catcher_step. rewrite Hnone.
  destruct (String.eqb msg "CHUNK"); [eauto|].
  apply String.eqb_neq in Hmsg. rewrite Hmsg. simpl. eauto.
Qed.

(** A HELLO whose slave id is not a number is logged and dropped. *)
Lemma catcher_hello_malformed_id fuel address a args st :
  transfers st !! address = None -> parse_int a = None ->
  build_catcher_step fuel (address :: "HELLO"%string :: a :: args) st
  = Ok (st, [Log ERROR "Invalid slave_id during start transfer"]).
Proof.
  intros Hnone Ha. unfold build_catcher_step. rewrite Hnone.
  change (String.eqb "HELLO" "CHUNK") with false.
  change (String.eqb "HELLO" "HELLO") with true.
  simpl. now rewrite Ha.
Qed.

(** A HELLO that names no known worker is logged and dropped; the
    transfer map is as it was. *)
Lemma catcher_hello_unknown_id fuel address a id args st :
  transfers st !! address = None -> parse_int a = Some id ->
  find_slave id (slaves st) = None ->
  build_catcher_step fuel (address :: "HELLO"%string :: a :: args) st
  = Ok (set_catcher_slave_id (Some id) st,
        [Log ERROR "Unknown slave_id during start transfer"]).
Proof.
  intros Hnone Ha Hfind. unfold build_catcher_step. rewrite Hnone.
  change (String.eqb "HELLO" "CHUNK") with false.
  change (String.eqb "HELLO" "HELLO") with true.
  simpl. rewrite Ha. simpl. now rewrite Hfind.
Qed.

(** A HELLO that names a worker with no transfer is logged, and then
    [fetch] is called on [None]. *)
Lemma catcher_hello_no_transfer fuel address a id args st slave :
  transfers st !! address = None -> parse_int a = Some id ->
  find_slave id (slaves st) = Some slave -> _transfer slave = None ->
  build_catcher_step fuel (address :: "HELLO"%string :: a :: args) st
  = Raise AttributeError.
Proof.
  intros Hnone Ha Hfind Htr. unfold build_catcher_step. rewrite Hnone.
  change (String.eqb "HELLO" "CHUNK") with false.
  change (String.eqb "HELLO" "HELLO") with true.
  simpl. rewrite Ha. simpl. rewrite Hfind, Htr. reflexivity.
Qed.

(** A CHUNK whose offset is not a number is not caught either. *)
Lemma catcher_chunk_malformed_offset fuel address a data args st l t :
  transfers st !! address = Some (Some l) -> store st !! l = Some t ->
  parse_int a = None ->
  build_catcher_step fuel (address :: "CHUNK"%string :: a :: data :: args) st
  = Raise ValueError.
Proof.
  intros Htr Hst Ha. unfold build_catcher_step. rewrite Htr.
  change (String.eqb "CHUNK" "CHUNK") with true. cbv iota.
  now rewrite Hst, Ha.
Qed.

(** C6, where the code departs from it. Worker 1 has said HELLO to
    [slave_driver] and has no transfer; its HELLO on the file socket is
    logged, the transfer map is given [None] for the address, and the
    [fetch] that follows raises: the message is not dropped without a
    fault. *)
Theorem catcher_hello_no_transfer_faults :
  exists st1 e1,
    slave_driver_step (fun _ => ""%string) 5 "tmp" "w" "" [JStr "HELLO"]
      initial = Ok (st1, e1)
    /\ transfers st1 !! "f"%string = None
    /\ build_catcher_step 2 ["f"; "HELLO"; "1"]%string st1
       = Raise AttributeError.
Proof.
  eexists _, _. split; [reflexivity|]. split; [reflexivity|].
  eapply catcher_hello_no_transfer; reflexivity.
Qed.

End MasterProofs.

(** ** The index writers *)

Module IndexProofs.
Import Index.

(** *** AtomicReplaceFile *)

Lemma AtomicReplaceFile_calls_written dir file tmp data (f : files) :
  apply_calls (fst (AtomicReplaceFile dir file tmp (Written data))) f
  = <[join dir file := (data, 420)]> (delete (join dir tmp) f).
Proof.
  unfold apply_calls. simpl.
  rewrite !alter_insert_eq. simpl.
  rewrite lookup_insert_eq, delete_insert_eq. reflexivity.
Qed.

Lemma AtomicReplaceFile_calls_failed dir file tmp data (f : files) :
  apply_calls (fst (AtomicReplaceFile dir file tmp (Failed data))) f
  = delete (join dir tmp) f.
Proof.
  unfold apply_calls. simpl.
  rewrite !alter_insert_eq. simpl. now rewrite delete_insert_eq.
Qed.

Ltac each_state :=
  repeat match goal with
         | |- Forall _ (_ :: _) => constructor
         | |- Forall _ [] => constructor
         end.

(** X24. With [AtomicReplaceFile] the target is never seen half written:
    after every call it is the file it was, or the new file in full with
    mode 0644; at the end the temporary file is gone, and the target is
    the new file if the body ended and the old one if it raised. *)
Lemma AtomicReplaceFile_discipline dir file tmp body (f : files) :
  join dir tmp <> join dir file ->
  let target := join dir file in
  let new := match body with Written data | Failed data => data end in
  let calls := fst (AtomicReplaceFile dir file tmp body) in
  Forall (fun g : files =>
            g !! target = f !! target \/ g !! target = Some (new, 420))
    (visible calls f)
  /\ apply_calls calls f !! join dir tmp = None
  /\ apply_calls calls f !! target
     = (if snd (AtomicReplaceFile dir file tmp body)
        then Some (new, 420) else f !! target).
Proof.
  intros Hne target new calls.
  destruct body as [data|data]; subst target new calls.
  - split; [|split].
    + simpl. rewrite !alter_insert_eq. simpl.
      rewrite lookup_insert_eq, delete_insert_eq.
      each_state; rewrite ?lookup_insert_ne by assumption; auto.
      right. apply lookup_insert_eq.
    + rewrite AtomicReplaceFile_calls_written.
      rewrite lookup_insert_ne by congruence. apply lookup_delete_eq.
    + rewrite AtomicReplaceFile_calls_written. apply lookup_insert_eq.
  - split; [|split].
    + simpl. rewrite !alter_insert_eq. simpl. rewrite delete_insert_eq.
      each_state;
        rewrite ?lookup_insert_ne, ?lookup_delete_ne by assumption; auto.
    + rewrite AtomicReplaceFile_calls_failed. apply lookup_delete_eq.
    + rewrite AtomicReplaceFile_calls_failed. simpl.
      now rewrite lookup_delete_ne.
Qed.

(** *** write_root_index and write_package_index *)

Lemma write_index_written dir tmp data (f : files) :
  join dir tmp <> join dir "index.html" ->
  snd (write_index dir tmp (Written data)) = true
  /\ apply_calls (fst (write_index dir tmp (Written data))) f
       !! join dir "index.html" = Some (data, 420)
  /\ apply_calls (fst (write_index dir tmp (Written data))) f
       !! join dir tmp = None.
Proof.
  intros Hne. unfold apply_calls. simpl.
  rewrite !alter_insert_eq. simpl.
  rewrite lookup_insert_eq, delete_insert_eq.
  split; [reflexivity|]. split.
  - apply lookup_insert_eq.
  - rewrite lookup_insert_ne by congruence. apply lookup_delete_eq.
Qed.

Lemma write_index_failed_keeps_target dir tmp data (f : files) :
  join dir tmp <> join dir "index.html" ->
  apply_calls (fst (write_index dir tmp (Failed data))) f
    !! join dir "index.html" = f !! join dir "index.html".
Proof.
  intros Hne. unfold apply_calls. simpl. rewrite !alter_insert_eq. simpl.
  now rewrite lookup_insert_ne.
Qed.

(** C9, where the code departs from it. When the body of
    [write_root_index] or [write_package_index] raises, the temporary
    file is not unlinked: no [Unlink] is among the calls, and the file
    stays in the directory with what was written and the mode it was
    created with. *)
Theorem write_index_failed_leaves_temporary dir tmp data (f : files) :
  snd (write_index dir tmp (Failed data)) = false
  /\ ~ In (Unlink (join dir tmp)) (fst (write_index dir tmp (Failed data)))
  /\ apply_calls (fst (write_index dir tmp (Failed data))) f
       !! join dir tmp = Some (data, 384).
Proof.
  split; [reflexivity|]. split.
  - simpl. intros [H|[H|[H|[]]]]; discriminate.
  - unfold apply_calls. simpl. rewrite !alter_insert_eq. simpl.
    apply lookup_insert_eq.
Qed.

(** The root index of a tree with one package, written by a body that
    raises half way: the temporary file is left beside the index. *)
Example write_root_index_failed :
  let f : files :=
    {[ "index.html"%string := (list_ascii_of_string "old", 420) ]} in
  let f' :=
    apply_calls
      (fst (write_root_index "tmpab12"
              (Failed (list_ascii_of_string "<ht")))) f in
  f' !! "index.html"%string = Some (list_ascii_of_string "old", 420)
  /\ f' !! "tmpab12"%string = Some (list_ascii_of_string "<ht", 384).
Proof. split; vm_compute; reflexivity. Qed.

End IndexProofs.

(** ** Worked runs *)

Module ScenarioProofs.
Import Ranges Transfer Slave Master Scenario.

(** A build of 131072 bytes from HELLO to DONE: two FETCHes of 65536
    bytes after the HELLO on the file socket, a repeated FETCH after the
    first CHUNK, DONE after the second, and the file committed and the
    package put on the indexes queue after SENT. *)
Example happy_path :
  observe
    (handle_all constant_digest 20
       [Worker 1 "tmp0" "w" [JStr "HELLO"];
        Worker 2 "tmp0" "w" [JStr "IDLE"];
        Worker 3 "tmp1" "w" (built 131072 "ab");
        File ["f"; "HELLO"; "1"];
        File ["f"; "CHUNK"; "65536"; blob 65536];
        File ["f"; "CHUNK"; "0"; blob 65536];
        Worker 4 "tmp2" "w" [JStr "SENT"]]%string
       (set_build_queue [(JStr "foo", JStr "1.0")] initial))
  = Some
      ([[Log WARNING "New slave";
         SendStatus [JInt 1; timestamp 1; JStr "HELLO"; JInt 1];
         SendSlave "w" "" [JStr "HELLO"; JInt 1]];
        [SendStatus [JInt 1; timestamp 2; JStr "BUILD"; JStr "foo";
                     JStr "1.0"];
         SendSlave "w" "" [JStr "BUILD"; JStr "foo"; JStr "1.0"]];
        [DbLogBuild (MkBuildState 1 (JStr "foo") (JStr "1.0") (JBool true)
                       (JStr "ok") (JStr "foo-1.0-py3-none-any.whl")
                       (JInt 131072) (JStr "ab") (JFloat 25 2) (JStr "1.0")
                       (JStr "py3") (JStr "none") (JStr "any"));
         SendStatus [JInt 1; timestamp 3; JStr "SEND"];
         SendSlave "w" "" [JStr "SEND"]];
        [SendFile ["f"; "FETCH"; "0"; "65536"];
         SendFile ["f"; "FETCH"; "65536"; "65536"]];
        [SendFile ["f"; "FETCH"; "0"; "65536"]];
        [SendFile ["f"; "DONE"]];
        [Fs (CloseFile "tmp1"); Fs (Chmod "tmp1" 420); Fs (Mkdir "foo");
         Fs (Rename "tmp1" "foo/foo-1.0-py3-none-any.whl");
         SendIndex "foo";
         SendStatus [JInt 1; timestamp 4; JStr "DONE"];
         SendSlave "w" "" [JStr "DONE"]]]%string,
       [(None, None)],
       [(0, [])]).
Proof. vm_compute. reflexivity. Qed.

(** A transfer of one byte that is complete, and a worker that says HELLO
    twice more on the file socket before it says SENT: the second HELLO
    resets the credit, and the [fetch] that follows finds nothing missing
    and leaves a credit of nine. *)
Example credit_after_completion :
  observe
    (handle_all constant_digest 20
       [Worker 1 "tmp0" "w" [JStr "HELLO"];
        Worker 2 "tmp1" "w" (built 1 "ab");
        File ["f"; "HELLO"; "1"];
        File ["f"; "CHUNK"; "0"; "x"];
        File ["f"; "HELLO"; "1"];
        File ["f"; "HELLO"; "1"]]%string
       initial)
  = Some
      ([[Log WARNING "New slave";
         SendStatus [JInt 1; timestamp 1; JStr "HELLO"; JInt 1];
         SendSlave "w" "" [JStr "HELLO"; JInt 1]];
        [DbLogBuild (MkBuildState 1 (JStr "foo") (JStr "1.0") (JBool true)
                       (JStr "ok") (JStr "foo-1.0-py3-none-any.whl")
                       (JInt 1) (JStr "ab") (JFloat 25 2) (JStr "1.0")
                       (JStr "py3") (JStr "none") (JStr "any"));
         SendStatus [JInt 1; timestamp 2; JStr "SEND"];
         SendSlave "w" "" [JStr "SEND"]];
        [SendFile ["f"; "FETCH"; "0"; "1"]];
        [SendFile ["f"; "DONE"]];
        [];
        []]%string,
       [(Some (MkBuildState 1 (JStr "foo") (JStr "1.0") (JBool true)
                 (JStr "ok") (JStr "foo-1.0-py3-none-any.whl")
                 (JInt 1) (JStr "ab") (JFloat 25 2) (JStr "1.0")
                 (JStr "py3") (JStr "none") (JStr "any")), Some 0%nat)],
       [(9, [])]).
Proof. vm_compute. reflexivity. Qed.

End ScenarioProofs.

(** ** What a transfer delivers *)

Module DeliveryProofs.
Import Ranges Transfer Delivery TransferProofs.

Lemma length_list_ascii s :
  length (list_ascii_of_string s) = String.length s.
Proof. induction s as [|c s IH]; simpl; congruence. Qed.

(** *** The file *)

Lemma length_write_at old offset data :
  length (write_at old offset data)
  = match data with
    | [] => length old
    | _ :: _ => Nat.max (length old) (offset + length data)
    end.
Proof.
  unfold write_at. destruct data as [|c data]; [reflexivity|].
  rewrite !length_app, length_take, repeat_length, length_drop. lia.
Qed.

Lemma length_write_at_within old offset data :
  (offset + length data <= length old)%nat ->
  length (write_at old offset data) = length old.
Proof.
  intros H. rewrite length_write_at. destruct data; [reflexivity|]. lia.
Qed.

Lemma take_drop_write_at old offset data :
  take (length data) (drop offset (write_at old offset data)) = data.
Proof.
  destruct (list_eq_nil_dec data) as [->|Hd]; [reflexivity|].
  rewrite write_at_parts by exact Hd.
  set (pre := firstn offset old ++ repeat zero (offset - length old)%nat).
  assert (Hpre : length pre = offset).
  { unfold pre. rewrite length_app, length_take, repeat_length. lia. }
  rewrite <- Hpre at 1. rewrite drop_app_length. apply take_app_length.
Qed.

Lemma lookup_write_at_outside old offset data p :
  (p < offset \/ offset + length data <= p)%nat -> (p < length old)%nat ->
  write_at old offset data !! p = old !! p.
Proof.
  intros Hp Hlt.
  destruct (list_eq_nil_dec data) as [->|Hd]; [reflexivity|].
  rewrite write_at_parts by exact Hd. unfold bytes in *.
  set (pre := firstn offset old ++ repeat zero (offset - length old)%nat).
  assert (Hpre : length pre = offset).
  { unfold pre. rewrite length_app, length_take, repeat_length. lia. }
  destruct Hp as [Hp|Hp].
  - rewrite lookup_app_l by lia. unfold pre.
    rewrite lookup_app_l by (rewrite length_take; lia).
    now apply lookup_take_lt.
  - rewrite lookup_app_r by lia. rewrite lookup_app_r by lia.
    rewrite lookup_drop. f_equal. lia.
Qed.

Lemma lookup_write_at_inside old offset data p :
  (offset <= p < offset + length data)%nat ->
  write_at old offset data !! p = data !! (p - offset)%nat.
Proof.
  intros Hp.
  destruct (list_eq_nil_dec data) as [->|Hd]; [simpl in Hp; lia|].
  rewrite write_at_parts by exact Hd. unfold bytes in *.
  set (pre := firstn offset old ++ repeat zero (offset - length old)%nat).
  assert (Hpre : length pre = offset).
  { unfold pre. rewrite length_app, length_take, repeat_length. lia. }
  rewrite lookup_app_r by lia. rewrite lookup_app_l by lia.
  now rewrite Hpre.
Qed.

(** X1. What [chunk] writes can be read back: after [chunk(offset, data)]
    the file holds [data] at [offset]; a chunk of no bytes leaves the
    file exactly as it is, and after any other the file is as long as
    before or reaches to the end of [data]; every byte it had outside the
    written part is as it was. *)
Theorem chunk_stores_data offset data t t' :
  chunk offset data t = Ok t' ->
  take (String.length data) (drop (Z.to_nat offset) (content (_file t')))
  = list_ascii_of_string data
  /\ (if String.eqb data ""
      then content (_file t') = content (_file t)
      else length (content (_file t'))
           = Nat.max (length (content (_file t)))
               (Z.to_nat offset + String.length data))
  /\ forall p,
       (p < Z.to_nat offset \/ Z.to_nat offset + String.length data <= p)%nat ->
       (p < length (content (_file t)))%nat ->
       content (_file t') !! p = content (_file t) !! p.
Proof.
  intros H. apply chunk_ok in H as (_ & _ & Hc & _). rewrite Hc.
  rewrite <- (length_list_ascii data). split; [|split].
  - apply take_drop_write_at.
  - destruct data as [|c data]; [reflexivity|].
    cbn [String.eqb]. apply length_write_at.
  - intros p Hp Hlt. now apply lookup_write_at_outside.
Qed.

Lemma chunk_stores_data_witness :
  exists t t',
    TransferState_init "tmp" 4 = Ok t
    /\ chunk 2 "abc" t = Ok t'
    /\ content (_file t') = [zero; zero; "a"; "b"; "c"]%char
    /\ take 3 (drop 2 (content (_file t'))) = list_ascii_of_string "abc"
    /\ length (content (_file t')) = 5%nat.
Proof.
  eexists _, _. split; [reflexivity|]. split; [reflexivity|].
  split; [reflexivity|].
  destruct (chunk_stores_data 2 "abc"
              (MkTransferState (TempFile "tmp" (truncate_to 4) false) 1 0
                 [Range 0 4]) _ eq_refl) as (H1 & H2 & _).
  split; [exact H1|exact H2].
Defined.

(** *** Histories *)

Lemma run_content F fuel calls : forall t t' (R : nat -> bool),
  length (content (_file t)) = length F ->
  (forall p, R p = true -> content (_file t) !! p = F !! p) ->
  Forall (slice_of F) calls ->
  run fuel calls t = Ok t' ->
  length (content (_file t')) = length F
  /\ forall p, R p || received calls (Z.of_nat p) = true ->
               content (_file t') !! p = F !! p.
Proof.
  induction calls as [|c calls IH]; simpl; intros t t' R Hlen HR Hall H.
  - inversion H; subst. split; [assumption|].
    intros p Hp. rewrite orb_false_r in Hp. auto.
  - apply Forall_cons in Hall as [Hc Hall]. destruct c as [offset data|].
    + destruct (chunk offset data t) as [t1| |] eqn:E; try discriminate.
      simpl in H. destruct Hc as (Ho & Hend & Hslice).
      pose proof (chunk_ok _ _ _ _ E) as (_ & _ & Hcont & _).
      set (ex := Range offset (offset + Z.of_nat (String.length data))) in *.
      assert (Hlen1 : length (content (_file t1)) = length F).
      { rewrite Hcont, length_write_at_within; [exact Hlen|].
        rewrite length_list_ascii. lia. }
      destruct (IH t1 t' (fun p => R p || contains ex (Z.of_nat p)) Hlen1)
        as [Hl Hp]; auto.
      * intros p HRp. rewrite Hcont.
        destruct (contains ex (Z.of_nat p)) eqn:Hin.
        -- unfold contains, ex in Hin; simpl in Hin. to_prop.
           rewrite lookup_write_at_inside
             by (rewrite length_list_ascii; lia).
           rewrite Hslice. rewrite lookup_take_lt by lia.
           rewrite lookup_drop. f_equal. lia.
        -- rewrite orb_false_r in HRp.
           destruct (Nat.lt_ge_cases p (length F)) as [Hlt|Hge].
           ++ rewrite lookup_write_at_outside; auto; try lia.
              unfold contains, ex in Hin; simpl in Hin.
              rewrite length_list_ascii.
              apply andb_false_iff in Hin as [Hin|Hin]; to_prop; lia.
           ++ rewrite (lookup_ge_None_2 F) by lia.
              apply lookup_ge_None_2.
              rewrite length_write_at_within; [lia|].
              rewrite length_list_ascii. lia.
      * split; [assumption|]. intros p Hq. apply Hp.
        now rewrite <- orb_assoc.
    + destruct (fetch fuel t) as [[res t1]| |] eqn:E; try discriminate.
      simpl in H. apply fetch_keeps in E as [_ Hf].
      apply (IH t1 t' R); auto; now rewrite Hf.
Qed.

Lemma run_chain fuel calls : forall t t',
  chain 0 (_map t) -> run fuel calls t = Ok t' -> chain 0 (_map t').
Proof.
  induction calls as [|c calls IH]; simpl; intros t t' Hs H.
  - now inversion H; subst.
  - destruct c as [offset data|].
    + destruct (chunk offset data t) as [t1| |] eqn:E; try discriminate.
      simpl in H. apply chunk_ok in E as (_ & Hm & _).
      apply (IH t1 t'); auto. rewrite Hm. now apply chain_exclude.
    + destruct (fetch fuel t) as [[res t1]| |] eqn:E; try discriminate.
      simpl in H. apply fetch_keeps in E as [Hm _].
      apply (IH t1 t'); auto. now rewrite Hm.
Qed.

Lemma run_from_init tmpname filesize fuel calls t0 t :
  TransferState_init tmpname filesize = Ok t0 ->
  run fuel calls t0 = Ok t ->
  0 <= filesize
  /\ content (_file t0) = repeat zero (Z.to_nat filesize)
  /\ _map t0 = [Range 0 filesize]
  /\ forall p, covers (_map t) p
               = contains (Range 0 filesize) p && negb (received calls p).
Proof.
  unfold TransferState_init. destruct (filesize <? 0) eqn:Hf; [discriminate|].
  intros H0 Hrun. inversion H0; subst t0; clear H0. to_prop.
  repeat split; auto.
  eapply run_covers; [|exact Hrun]. intros p. simpl. apply orb_false_r.
Qed.

Lemma covers_nil_done t : done t = true <-> _map t = [].
Proof. unfold done. destruct (_map t); split; congruence. Qed.

(** X2. A transfer delivers the file: when every chunk of a history
    carries bytes of a file [F] at the place they have in [F], and the
    transfer (created for the size of [F]) is done at the end, the file
    the master holds is [F]. *)
Theorem transfer_complete F tmpname fuel calls t0 t :
  TransferState_init tmpname (Z.of_nat (length F)) = Ok t0 ->
  Forall (slice_of F) calls ->
  run fuel calls t0 = Ok t ->
  done t = true ->
  content (_file t) = F.
Proof.
  intros Hinit Hall Hrun Hdone.
  destruct (run_from_init _ _ _ _ _ _ Hinit Hrun) as (_ & Hc0 & _ & Hcov).
  apply covers_nil_done in Hdone.
  destruct (run_content F fuel calls t0 t (fun _ => false)) as [Hlen Hp];
    auto.
  { rewrite Hc0, repeat_length. lia. }
  { discriminate. }
  apply list_eq. intros p.
  destruct (Nat.lt_ge_cases p (length F)) as [Hlt|Hge].
  - apply Hp. simpl.
    specialize (Hcov (Z.of_nat p)). rewrite Hdone in Hcov. simpl in Hcov.
    unfold contains in Hcov; simpl in Hcov.
    replace (0 <=? Z.of_nat p) with true in Hcov
      by (symmetry; apply Z.leb_le; lia).
    replace (Z.of_nat p <? Z.of_nat (length F)) with true in Hcov
      by (symmetry; apply Z.ltb_lt; lia).
    simpl in Hcov. now destruct (received calls (Z.of_nat p)).
  - rewrite (lookup_ge_None_2 F) by lia. apply lookup_ge_None_2. lia.
Qed.

Lemma transfer_complete_witness :
  exists t0 t,
    TransferState_init "tmp" 5 = Ok t0
    /\ run 2 [Fetch; Chunk 3 "lo"; Chunk 0 "hel"] t0 = Ok t
    /\ done t = true
    /\ content (_file t) = list_ascii_of_string "hello".
Proof.
  eexists _, _. split; [reflexivity|]. split; [reflexivity|].
  split; [reflexivity|].
  refine (transfer_complete (list_ascii_of_string "hello") "tmp" 2
            [Fetch; Chunk 3 "lo"; Chunk 0 "hel"] _ _ _ _ _ _).
  - reflexivity.
  - repeat constructor; simpl; lia.
  - reflexivity.
  - reflexivity.
Defined.

(** X3. [done] means that every byte has arrived: after a history of calls
    on a transfer created for a file that is not empty, [done] holds
    exactly when every position of the file has been delivered by some
    chunk. *)
Theorem done_iff_all_received tmpname filesize fuel calls t0 t :
  TransferState_init tmpname filesize = Ok t0 ->
  0 < filesize ->
  run fuel calls t0 = Ok t ->
  done t = true
  <-> forall p, 0 <= p < filesize -> received calls p = true.
Proof.
  intros Hinit Hpos Hrun.
  destruct (run_from_init _ _ _ _ _ _ Hinit Hrun) as (_ & _ & Hm0 & Hcov).
  assert (Hch : chain 0 (_map t)).
  { eapply run_chain; [|exact Hrun]. rewrite Hm0. simpl. lia. }
  rewrite covers_nil_done. split.
  - intros Hnil p Hp. specialize (Hcov p). rewrite Hnil in Hcov.
    simpl in Hcov. unfold contains in Hcov; simpl in Hcov.
    replace (0 <=? p) with true in Hcov by (symmetry; apply Z.leb_le; lia).
    replace (p <? filesize) with true in Hcov
      by (symmetry; apply Z.ltb_lt; lia).
    simpl in Hcov. now destruct (received calls p).
  - intros Hall. destruct (_map t) as [|r l] eqn:Em; [reflexivity|].
    exfalso.
    pose proof (chain_covered_stop 0 (r :: l) r Hch (or_introl eq_refl)) as Hs.
    rewrite Hcov in Hs. apply andb_true_iff in Hs as [Hin Hrec].
    unfold contains in Hin; simpl in Hin. to_prop.
    rewrite Hall in Hrec by lia. discriminate.
Qed.

Lemma done_iff_all_received_witness :
  exists t0 t,
    TransferState_init "tmp" 5 = Ok t0
    /\ run 2 [Chunk 3 "lo"; Chunk 0 "hel"] t0 = Ok t
    /\ (done t = true
        <-> forall p, 0 <= p < 5 ->
                      received [Chunk 3 "lo"; Chunk 0 "hel"] p = true).
Proof.
  eexists _, _. split; [reflexivity|]. split; [reflexivity|].
  refine (done_iff_all_received "tmp" 5 2 [Chunk 3 "lo"; Chunk 0 "hel"]
            _ _ _ _ _).
  - reflexivity.
  - lia.
  - reflexivity.
Defined.

(** *** The empty file *)

Lemma fetch_loop_empty_range fuel w :
  fetch_loop fuel [Range 0 0] w = Diverge.
Proof.
  revert w. induction fuel as [|fuel IH]; intros w; [reflexivity|].
  cbn [fetch_loop fetch_scan].
  assert (Hi : result_bool (intersect (Range 0 0) w) = false).
  { unfold intersect. simpl.
    destruct (Z.max 0 (start w) <? Z.min 0 (stop w)) eqn:E; simpl; auto.
    unfold range_bool; simpl. apply Z.ltb_lt in E. lia. }
  rewrite Hi. simpl. destruct (start w <? 0); apply IH.
Qed.

Lemma run_empty_map fuel calls : forall t t',
  _map t = [Range 0 0] -> run fuel calls t = Ok t' -> _map t' = [Range 0 0].
Proof.
  induction calls as [|c calls IH]; simpl; intros t t' Hs H.
  - now inversion H; subst.
  - destruct c as [offset data|].
    + destruct (chunk offset data t) as [t1| |] eqn:E; try discriminate.
      simpl in H. apply chunk_ok in E as (Ho & Hm & _).
      apply (IH t1 t'); auto. rewrite Hm, Hs.
      unfold exclude, exclude_one; simpl.
      replace (0 <=? offset) with true by (symmetry; now apply Z.leb_le).
      now rewrite orb_true_r.
    + destruct (fetch fuel t) as [[res t1]| |] eqn:E; try discriminate.
      simpl in H. apply fetch_keeps in E as [Hm _].
      apply (IH t1 t'); auto. now rewrite Hm.
Qed.

(** X4. The empty file: on a transfer created for a file of no bytes
    [fetch] does not return (its loop finds the one, empty, missing range
    over and over), and whatever chunks arrive the transfer is never
    done. *)
Theorem empty_file_never_done tmpname t0 :
  TransferState_init tmpname 0 = Ok t0 ->
  (forall fuel, fetch fuel t0 = Diverge)
  /\ (forall fuel calls t, run fuel calls t0 = Ok t -> done t = false).
Proof.
  intros H. inversion H; subst; clear H. split.
  - intros fuel. unfold fetch. simpl. now rewrite fetch_loop_empty_range.
  - intros fuel calls t Hrun.
    apply run_empty_map in Hrun; [|reflexivity].
    unfold done. now rewrite Hrun.
Qed.

Lemma empty_file_never_done_witness :
  (forall fuel,
      fetch fuel (MkTransferState (TempFile "tmp" [] false) 1 0 [Range 0 0])
      = Diverge)
  /\ (forall fuel calls t,
        run fuel calls
          (MkTransferState (TempFile "tmp" [] false) 1 0 [Range 0 0]) = Ok t ->
        done t = false).
Proof. exact (empty_file_never_done "tmp" _ eq_refl). Defined.

(** *** The order of the chunks *)

Lemma gapped_weaken lo lo' l : lo' <= lo -> gapped lo l -> gapped lo' l.
Proof. destruct l; simpl; [tauto|]. intros; intuition lia. Qed.

Lemma gapped_app lo mid l1 l2 :
  gapped lo l1 -> (forall r, In r l1 -> stop r <= mid) -> lo <= mid ->
  gapped mid l2 -> gapped lo (l1 ++ l2).
Proof.
  revert lo. induction l1 as [|r l1 IH]; simpl; intros lo H1 Hb Hlo H2.
  - eapply gapped_weaken; eauto.
  - destruct H1 as (? & ? & H1). repeat split; try assumption.
    apply IH; auto.
Qed.

Lemma gapped_exclude_one lo r ex :
  lo < start r -> start r < stop r ->
  gapped lo (exclude_one r ex)
  /\ forall x, In x (exclude_one r ex) -> stop x <= stop r.
Proof.
  intros Hlo Hr. unfold exclude_one.
  destruct ((stop ex <=? start ex) || (stop r <=? start ex)
            || (stop ex <=? start r)) eqn:E.
  - simpl. split; [lia|]. intros x [<-|[]]. lia.
  - to_prop.
    destruct (start r <? start ex) eqn:?, (stop ex <? stop r) eqn:?;
      simpl; to_prop; (split; [|intros x Hx]); simpl in *;
      intuition (subst; simpl; lia).
Qed.

Lemma gapped_exclude lo l ex : gapped lo l -> gapped lo (exclude l ex).
Proof.
  revert lo. induction l as [|r l IH]; simpl; intros lo H; [exact I|].
  destruct H as (Hlo & Hr & H).
  destruct (gapped_exclude_one lo r ex Hlo Hr) as [Hc Hb].
  unfold exclude in *. simpl.
  apply gapped_app with (mid := stop r); auto; lia.
Qed.

Lemma gapped_not_covered lo l p : gapped lo l -> p <= lo -> covers l p = false.
Proof.
  revert lo. induction l as [|r l IH]; simpl; intros lo H Hp; [reflexivity|].
  destruct H as (? & ? & H). rewrite (IH _ H) by lia.
  unfold contains. rewrite orb_false_r. to_prop. lia.
Qed.

(** A list of ranges with gaps is determined by the positions it covers. *)
Lemma gapped_unique l1 : forall l2 lo1 lo2,
  gapped lo1 l1 -> gapped lo2 l2 ->
  (forall p, covers l1 p = covers l2 p) -> l1 = l2.
Proof.
  induction l1 as [|r1 l1 IH]; intros [|r2 l2] lo1 lo2 H1 H2 Hc.
  - reflexivity.
  - exfalso. destruct H2 as (_ & Hr & _).
    specialize (Hc (start r2)). simpl in Hc. unfold contains in Hc at 1.
    replace (start r2 <=? start r2) with true in Hc
      by (symmetry; apply Z.leb_le; lia).
    replace (start r2 <? stop r2) with true in Hc
      by (symmetry; apply Z.ltb_lt; lia).
    discriminate.
  - exfalso. destruct H1 as (_ & Hr & _).
    specialize (Hc (start r1)). simpl in Hc. unfold contains in Hc at 1.
    replace (start r1 <=? start r1) with true in Hc
      by (symmetry; apply Z.leb_le; lia).
    replace (start r1 <? stop r1) with true in Hc
      by (symmetry; apply Z.ltb_lt; lia).
    discriminate.
  - destruct H1 as (_ & Hr1 & H1), H2 as (_ & Hr2 & H2).
    assert (Hin : forall (a b : range) (la lb : list range) p,
               start a < stop a -> gapped (stop a) la ->
               (forall q, covers (a :: la) q = covers (b :: lb) q) ->
               gapped (stop b) lb -> start b < stop b ->
               start a <= p < stop a -> start b <= p).
    { intros a b la lb p Ha Hla Hq Hlb Hb Hp.
      destruct (Z.le_gt_cases (start b) (start a)) as [Hle|Hgt]; [lia|].
      specialize (Hq (start a)). simpl in Hq.
      assert (Ha1 : contains a (start a) = true)
        by (unfold contains; to_prop; lia).
      assert (Hb1 : contains b (start a) = false).
      { unfold contains. apply andb_false_iff. left. to_prop. lia. }
      rewrite Ha1, Hb1 in Hq.
      rewrite (gapped_not_covered _ _ _ Hlb) in Hq by lia.
      discriminate. }
    assert (Hstart : start r1 = start r2).
    { pose proof (Hin r1 r2 l1 l2 (start r1) Hr1 H1 Hc H2 Hr2
                    ltac:(lia)).
      pose proof (Hin r2 r1 l2 l1 (start r2) Hr2 H2
                    (fun q => eq_sym (Hc q)) H1 Hr1 ltac:(lia)).
      lia. }
    assert (Hend : forall (a b : range) (la lb : list range),
               start a = start b -> start a < stop a -> start b < stop b ->
               gapped (stop a) la ->
               (forall q, covers (a :: la) q = covers (b :: lb) q) ->
               stop b <= stop a).
    { intros a b la lb Hs Ha Hb Hla Hq.
      destruct (Z.le_gt_cases (stop b) (stop a)) as [Hle|Hgt]; [lia|].
      specialize (Hq (stop a)). simpl in Hq.
      assert (Ha1 : contains a (stop a) = false).
      { unfold contains. apply andb_false_iff. right. to_prop. lia. }
      assert (Hb1 : contains b (stop a) = true)
        by (unfold contains; to_prop; lia).
      rewrite Ha1, Hb1 in Hq.
      rewrite (gapped_not_covered _ _ _ Hla) in Hq by lia.
      discriminate. }
    assert (Hstop : stop r1 = stop r2).
    { pose proof (Hend r1 r2 l1 l2 Hstart Hr1 Hr2 H1 Hc).
      pose proof (Hend r2 r1 l2 l1 (eq_sym Hstart) Hr2 Hr1 H2
                    (fun q => eq_sym (Hc q))).
      lia. }
    assert (r1 = r2) as -> by (destruct r1, r2; simpl in *; congruence).
    f_equal. apply (IH l2 (stop r2) (stop r2)); auto.
    intros p. specialize (Hc p). simpl in Hc.
    destruct (contains r2 p) eqn:Hp; [|exact Hc].
    unfold contains in Hp. to_prop.
    rewrite (gapped_not_covered _ _ _ H1), (gapped_not_covered _ _ _ H2)
      by lia.
    reflexivity.
Qed.

Lemma run_gapped fuel calls : forall t t',
  gapped (-1) (_map t) -> run fuel calls t = Ok t' -> gapped (-1) (_map t').
Proof.
  induction calls as [|c calls IH]; simpl; intros t t' Hs H.
  - now inversion H; subst.
  - destruct c as [offset data|].
    + destruct (chunk offset data t) as [t1| |] eqn:E; try discriminate.
      simpl in H. apply chunk_ok in E as (_ & Hm & _).
      apply (IH t1 t'); auto. rewrite Hm. now apply gapped_exclude.
    + destruct (fetch fuel t) as [[res t1]| |] eqn:E; try discriminate.
      simpl in H. apply fetch_keeps in E as [Hm _].
      apply (IH t1 t'); auto. now rewrite Hm.
Qed.

Lemma received_Permutation calls1 calls2 p :
  Permutation calls1 calls2 -> received calls1 p = received calls2 p.
Proof.
  unfold received. induction 1; simpl; try congruence.
  rewrite !orb_assoc. f_equal. apply orb_comm.
Qed.

(** X5. The order in which chunks arrive does not matter to the
    bookkeeping: two histories on transfers of the same size that make the
    same calls in different orders end with the same list of missing
    ranges (and so agree on [done]). *)
Theorem chunk_order_irrelevant tmpname filesize fuel calls1 calls2 t0 t1 t2 :
  TransferState_init tmpname filesize = Ok t0 ->
  Permutation calls1 calls2 ->
  run fuel calls1 t0 = Ok t1 ->
  run fuel calls2 t0 = Ok t2 ->
  _map t1 = _map t2 /\ done t1 = done t2.
Proof.
  intros Hinit Hperm Hrun1 Hrun2.
  destruct (run_from_init _ _ _ _ _ _ Hinit Hrun1) as (Hf & _ & Hm0 & Hc1).
  destruct (run_from_init _ _ _ _ _ _ Hinit Hrun2) as (_ & _ & _ & Hc2).
  assert (Hm : _map t1 = _map t2).
  { destruct (Z.eq_dec filesize 0) as [->|Hne].
    - rewrite (run_empty_map _ _ _ _ Hm0 Hrun1).
      now rewrite (run_empty_map _ _ _ _ Hm0 Hrun2).
    - apply (gapped_unique _ _ (-1) (-1)).
      + eapply run_gapped; [|exact Hrun1]. rewrite Hm0. simpl. lia.
      + eapply run_gapped; [|exact Hrun2]. rewrite Hm0. simpl. lia.
      + intros p. rewrite Hc1, Hc2.
        now rewrite (received_Permutation _ _ p Hperm). }
  split; [exact Hm|]. unfold done. now rewrite Hm.
Qed.

Lemma chunk_order_irrelevant_witness :
  exists t0 t1 t2,
    TransferState_init "tmp" 10 = Ok t0
    /\ run 2 [Chunk 2 "ab"; Fetch; Chunk 6 "cd"; Chunk 3 "xyz"] t0 = Ok t1
    /\ run 2 [Chunk 3 "xyz"; Chunk 6 "cd"; Chunk 2 "ab"; Fetch] t0 = Ok t2
    /\ _map t1 = [Range 0 2; Range 8 10]
    /\ _map t1 = _map t2 /\ done t1 = done t2.
Proof.
  eexists _, _, _. split; [reflexivity|]. split; [reflexivity|].
  split; [reflexivity|]. split; [reflexivity|].
  refine (chunk_order_irrelevant "tmp" 10 2
            [Chunk 2 "ab"; Fetch; Chunk 6 "cd"; Chunk 3 "xyz"]
            [Chunk 3 "xyz"; Chunk 6 "cd"; Chunk 2 "ab"; Fetch] _ _ _ _ _ _ _).
  - reflexivity.
  - apply Permutation_sym.
    apply (perm_trans (l' := [Chunk 3 "xyz"; Chunk 2 "ab"; Chunk 6 "cd"; Fetch])).
    + apply perm_skip. apply perm_swap.
    + apply (perm_trans (l' := [Chunk 2 "ab"; Chunk 3 "xyz"; Chunk 6 "cd"; Fetch])).
      * apply perm_swap.
      * apply perm_skip.
        apply (perm_trans (l' := [Chunk 3 "xyz"; Fetch; Chunk 6 "cd"])).
        -- apply perm_skip. apply perm_swap.
        -- apply (perm_trans (l' := [Fetch; Chunk 3 "xyz"; Chunk 6 "cd"])).
           ++ apply perm_swap.
           ++ apply perm_skip. apply perm_swap.
  - reflexivity.
  - reflexivity.
Defined.

(** *** What one fetch asks for *)

Lemma fetch_scan_window l : forall w r,
  stop w = start w + chunk_size ->
  fetch_scan l w = Some r -> 0 < rlen r <= chunk_size.
Proof.
  induction l as [|m l IH]; simpl; intros w r Hw H; [discriminate|].
  destruct (result_bool (intersect m w)) eqn:E.
  - apply intersect_subrange in H as ((? & ? & ?) & ? & ?).
    unfold rlen. lia.
  - destruct (start w <? start m); (eapply IH; [|exact H]); auto.
Qed.

Lemma fetch_loop_window fuel l : forall w r,
  stop w = start w + chunk_size ->
  fetch_loop fuel l w = Ok (Some r) -> 0 < rlen r <= chunk_size.
Proof.
  induction fuel as [|fuel IH]; simpl; intros w r Hw H; [discriminate|].
  destruct (fetch_scan l w) as [r'|] eqn:E.
  - inversion H; subst. eapply fetch_scan_window; eauto.
  - destruct l as [|m l]; [discriminate|]. eapply IH; [|exact H]. reflexivity.
Qed.

Lemma fetch_loop_none fuel l : forall w,
  fetch_loop fuel l w = Ok None -> l = [].
Proof.
  induction fuel as [|fuel IH]; simpl; intros w H; [discriminate|].
  destruct (fetch_scan l w); [discriminate|].
  destruct l as [|m l]; [reflexivity|]. apply IH in H. discriminate.
Qed.

(** X6. What a [fetch] that returns has done. A range it returns has
    between one and [chunk_size] bytes, has cost one credit, and is where
    the next window starts; when it returns none, either there was no
    credit and nothing has changed, or nothing is missing and one credit is
    gone. The missing ranges and the file are never touched. *)
Theorem fetch_contract fuel t res t' :
  fetch fuel t = Ok (res, t') ->
  _map t' = _map t /\ _file t' = _file t
  /\ match res with
     | Some r =>
         0 < rlen r <= chunk_size
         /\ 0 < _credit t /\ _credit t' = _credit t - 1
         /\ _offset t' = stop r
     | None =>
         (_credit t = 0 /\ t' = t)
         \/ (_map t = [] /\ 0 < _credit t
             /\ t' = set_credit (_credit t - 1) t)
     end.
Proof.
  intros H. pose proof (fetch_keeps _ _ _ _ H) as [Hm Hf].
  split; [assumption|]. split; [assumption|].
  unfold fetch in H. destruct (_credit t =? 0) eqn:E0.
  - inversion H; subst. left. split; [now apply Z.eqb_eq|reflexivity].
  - apply Z.eqb_neq in E0.
    destruct (_credit (set_credit (_credit t - 1) t) <? 0) eqn:E1;
      [discriminate|].
    simpl in E1. apply Z.ltb_ge in E1.
    destruct (fetch_loop _ _ _) as [[r|]| |] eqn:E; simpl in H;
      inversion H; subst; clear H.
    + apply fetch_loop_window in E; [|reflexivity].
      simpl. repeat split; lia.
    + apply fetch_loop_none in E. right. simpl in E.
      repeat split; auto; lia.
Qed.

Lemma fetch_contract_witness :
  let t := MkTransferState (TempFile "tmp" [] false) 2 0 [Range 0 100000] in
  let t' := MkTransferState (TempFile "tmp" [] false) 1 65536
              [Range 0 100000] in
  fetch 2 t = Ok (Some (Range 0 65536), t')
  /\ _map t' = _map t /\ _file t' = _file t
  /\ 0 < rlen (Range 0 65536) <= chunk_size
  /\ 0 < _credit t /\ _credit t' = _credit t - 1
  /\ _offset t' = stop (Range 0 65536).
Proof.
  intros t t'. split; [reflexivity|].
  exact (fetch_contract 2 t (Some (Range 0 65536)) t' eq_refl).
Defined.

End DeliveryProofs.

(** ** build_catcher *)

Module CatcherProofs.
Import Ranges Transfer Slave Master Wire TransferProofs DeliveryProofs.

Ltac ok_bind :=
  match goal with
  | |- context [Ok ?x ≫= ?k] => change (Ok x ≫= k) with (k x)
  end;
  cbv beta zeta.

Lemma chain_head_not_empty lo l : chain lo l -> head_not_empty l.
Proof. destruct l; simpl; tauto. Qed.

Lemma fetch_some fuel t :
  head_not_empty (_map t) -> _map t <> [] -> 0 < _credit t ->
  exists r m,
    fetch (S (S fuel)) t
    = Ok (Some r, set_offset (stop r) (set_credit (_credit t - 1) t))
    /\ In m (_map t) /\ subrange r m /\ rlen r <= chunk_size.
Proof.
  intros Hh Hne Hc. unfold fetch.
  replace (_credit t =? 0) with false by (symmetry; apply Z.eqb_neq; lia).
  replace (_credit (set_credit (_credit t - 1) t) <? 0) with false
    by (symmetry; simpl; apply Z.ltb_ge; lia).
  cbn [_map set_credit _offset].
  destruct (_map t) as [|first rest] eqn:Em; [congruence|].
  destruct (fetch_loop_returns fuel first rest
              (Range (_offset t) (_offset t + chunk_size)) Hh) as [r Hr].
  rewrite Hr. simpl.
  destruct (fetch_loop_sound _ _ _ _ Hr) as (m & Hin & Hsub).
  apply fetch_loop_window in Hr; [|reflexivity].
  exists r, m. repeat split; auto; try apply Hsub. lia.
Qed.

Lemma fetch_all_spends fuel address : forall rounds t,
  head_not_empty (_map t) -> _map t <> [] -> 0 <= _credit t ->
  (Z.to_nat (_credit t) < rounds)%nat ->
  exists t' sent,
    fetch_all rounds (S (S fuel)) address t = Ok (t', sent)
    /\ length sent = Z.to_nat (_credit t)
    /\ Forall (fetch_frame address (_map t)) sent
    /\ _credit t' = 0 /\ _map t' = _map t /\ _file t' = _file t.
Proof.
  induction rounds as [|rounds IH]; intros t Hh Hne Hc Hr; [lia|].
  cbn [fetch_all].
  destruct (Z.eq_dec (_credit t) 0) as [H0|H0].
  - unfold fetch. rewrite H0. simpl. exists t, []. rewrite H0.
    repeat split; auto.
  - destruct (fetch_some fuel t Hh Hne ltac:(lia))
      as (r & m & -> & Hin & Hsub & Hlen).
    simpl.
    replace (range_bool r) with true
      by (symmetry; apply Z.ltb_lt; apply Hsub).
    destruct (IH (set_offset (stop r) (set_credit (_credit t - 1) t)))
      as (t' & sent & -> & Hl & Hall & H1 & H2 & H3); auto.
    { simpl. lia. }
    { simpl. lia. }
    simpl. exists t', (SendFile [address; "FETCH"%string; pretty (start r);
                                 pretty (rlen r)] :: sent).
    simpl in *. repeat split; auto.
    + rewrite Hl. lia.
    + constructor; [|exact Hall]. exists r, m. auto.
Qed.

Lemma run_fetches_spends fuel address l t before st :
  store st !! l = Some t ->
  head_not_empty (_map t) -> _map t <> [] -> 0 <= _credit t ->
  (Z.to_nat (_credit t) < S (S fuel))%nat ->
  exists t' sent,
    run_fetches (S (S fuel)) address (Some l) before st
    = Ok (set_store (<[l := t']> (store st)) st, before ++ sent)
    /\ length sent = Z.to_nat (_credit t)
    /\ Forall (fetch_frame address (_map t)) sent
    /\ _credit t' = 0 /\ _map t' = _map t /\ _file t' = _file t.
Proof.
  intros Hst Hh Hne Hc Hr. unfold run_fetches. rewrite Hst.
  destruct (fetch_all_spends fuel address (S (S fuel)) t Hh Hne Hc Hr)
    as (t' & sent & -> & H).
  simpl. exists t', sent. split; [reflexivity|exact H].
Qed.

(** X7. A CHUNK that leaves bytes missing is written into the transfer of
    its address, earns one credit, and all the credit there is then goes
    into FETCH frames: the reply is credit + 1 FETCHes, each for a
    non-empty part of a range that is still missing, and the credit is
    zero afterwards. The transfer map and the workers are untouched. *)
Theorem catcher_chunk_fetches_more fuel address a0 data args st l t offset :
  transfers st !! address = Some (Some l) -> store st !! l = Some t ->
  closed (_file t) = false -> parse_int a0 = Some offset -> 0 <= offset ->
  chain 0 (_map t) -> 0 <= _credit t ->
  (Z.to_nat (_credit t) + 1 < S (S fuel))%nat ->
  let missing :=
    exclude (_map t) (Range offset (offset + Z.of_nat (String.length data))) in
  missing <> [] ->
  exists st' t' sent,
    build_catcher_step (S (S fuel))
      (address :: "CHUNK"%string :: a0 :: data :: args) st
    = Ok (st', sent)
    /\ length sent = (Z.to_nat (_credit t) + 1)%nat
    /\ Forall (fetch_frame address missing) sent
    /\ store st' !! l = Some t'
    /\ _credit t' = 0 /\ _map t' = missing
    /\ content (_file t')
       = write_at (content (_file t)) (Z.to_nat offset)
           (list_ascii_of_string data)
    /\ transfers st' = transfers st /\ slaves st' = slaves st.
Proof.
  intros Htr Hst Hcl Ha Ho Hch Hcr Hfuel missing Hne.
  assert (Hchunk : exists t1,
             chunk offset data t = Ok t1 /\ _map t1 = missing
             /\ _credit t1 = _credit t + 1
             /\ content (_file t1)
                = write_at (content (_file t)) (Z.to_nat offset)
                    (list_ascii_of_string data)).
  { unfold chunk, seek_write. rewrite Hcl.
    replace (offset <? 0) with false by (symmetry; apply Z.ltb_ge; lia).
    simpl. eexists. split; [reflexivity|]. simpl. fold missing.
    destruct missing; [congruence|auto]. }
  destruct Hchunk as (t1 & Hc1 & Hm1 & Hcr1 & Hcont1).
  unfold build_catcher_step. rewrite Htr.
  change (String.eqb "CHUNK" "CHUNK") with true. cbv iota.
  rewrite Hst, Ha, Hc1. ok_bind.
  replace (done t1) with false
    by (unfold done; rewrite Hm1; destruct missing; congruence).
  assert (Hl : (l < length (store st))%nat) by (eapply lookup_lt_Some; eauto).
  destruct (run_fetches_spends fuel address l t1 []
              (set_store (<[l := t1]> (store st)) st))
    as (t' & sent & -> & Hlen & Hall & H0 & Hm & Hf).
  { simpl. now apply list_lookup_insert_eq. }
  { rewrite Hm1. eapply chain_head_not_empty, chain_exclude, Hch. }
  { now rewrite Hm1. }
  { lia. }
  { rewrite Hcr1. lia. }
  exists (set_store (<[l:=t']> (store (set_store (<[l:=t1]> (store st)) st)))
            (set_store (<[l:=t1]> (store st)) st)), t', sent.
  split; [reflexivity|]. simpl.
  repeat split; auto.
  - rewrite Hlen, Hcr1. lia.
  - now rewrite <- Hm1.
  - apply list_lookup_insert_eq. now rewrite length_insert.
  - now rewrite Hm.
  - now rewrite Hf.
Qed.

Lemma catcher_chunk_fetches_more_witness :
  let t := MkTransferState (TempFile "tmp" (truncate_to 10) false) 0 10
             [Range 0 10] in
  let st := MkState [] {[ "f"%string := Some 0%nat ]} false 0 [t] [] None None in
  exists st' t' sent,
    build_catcher_step 2 ["f"; "CHUNK"; "2"; "ab"]%string st = Ok (st', sent)
    /\ length sent = 1%nat
    /\ Forall (fetch_frame "f" [Range 0 2; Range 4 10]) sent
    /\ store st' !! 0%nat = Some t'
    /\ _credit t' = 0 /\ _map t' = [Range 0 2; Range 4 10]
    /\ content (_file t')
       = write_at (truncate_to 10) 2 (list_ascii_of_string "ab")
    /\ transfers st' = transfers st /\ slaves st' = slaves st.
Proof.
  intros t st.
  refine (catcher_chunk_fetches_more 0 "f" "2" "ab" [] st 0%nat t 2
            _ _ _ _ _ _ _ _ _).
  - reflexivity.
  - reflexivity.
  - reflexivity.
  - reflexivity.
  - lia.
  - simpl. lia.
  - simpl. lia.
  - simpl. lia.
  - discriminate.
Defined.

(** X8. The CHUNK that delivers the last missing byte: the reply is the
    one frame DONE, the address is dropped from the transfer map (other
    addresses keep their transfers), and the transfer is left done with a
    credit of zero. No FETCH is sent. *)
Theorem catcher_chunk_completes fuel address a0 data args st l t offset :
  transfers st !! address = Some (Some l) -> store st !! l = Some t ->
  closed (_file t) = false -> parse_int a0 = Some offset -> 0 <= offset ->
  exclude (_map t) (Range offset (offset + Z.of_nat (String.length data)))
  = [] ->
  exists st' t',
    build_catcher_step fuel
      (address :: "CHUNK"%string :: a0 :: data :: args) st
    = Ok (st', [SendFile [address; "DONE"%string]])
    /\ transfers st' = delete address (transfers st)
    /\ transfers st' !! address = None
    /\ store st' !! l = Some t'
    /\ done t' = true /\ _credit t' = 0
    /\ slaves st' = slaves st.
Proof.
  intros Htr Hst Hcl Ha Ho Hex.
  unfold build_catcher_step. rewrite Htr.
  change (String.eqb "CHUNK" "CHUNK") with true. cbv iota.
  rewrite Hst, Ha. unfold chunk, seek_write. rewrite Hcl.
  replace (offset <? 0) with false by (symmetry; apply Z.ltb_ge; lia).
  rewrite Hex. simpl.
  eexists _, _. split; [reflexivity|]. simpl.
  repeat split.
  - apply lookup_delete_eq.
  - apply list_lookup_insert_eq. eapply lookup_lt_Some; eauto.
  - reflexivity.
  - reflexivity.
Qed.

Lemma catcher_chunk_completes_witness :
  let t := MkTransferState (TempFile "tmp" (truncate_to 4) false) 0 4
             [Range 0 1; Range 2 4] in
  let st := MkState [] {[ "f"%string := Some 0%nat ]} false 0 [t] [] None None in
  exists st' t',
    build_catcher_step 2 ["f"; "CHUNK"; "0"; "abcd"]%string st
    = Ok (st', [SendFile ["f"; "DONE"]%string])
    /\ transfers st' = delete "f"%string (transfers st)
    /\ transfers st' !! "f"%string = None
    /\ store st' !! 0%nat = Some t'
    /\ done t' = true /\ _credit t' = 0
    /\ slaves st' = slaves st.
Proof.
  intros t st.
  refine (catcher_chunk_completes 2 "f" "0" "abcd" [] st 0%nat t 0
            _ _ _ _ _ _); try reflexivity; lia.
Defined.

(** X9. A HELLO from an address that has a transfer with no credit left
    and bytes missing (the worker has timed out waiting for a FETCH): the
    credit is reset to [pipeline_size] and spent at once, so exactly ten
    FETCH frames go out, each for a part of a missing range; no byte of
    the file and no missing range changes. *)
Theorem catcher_hello_refills fuel address args st l t :
  transfers st !! address = Some (Some l) -> store st !! l = Some t ->
  _credit t = 0 -> chain 0 (_map t) -> _map t <> [] ->
  (10 <= fuel)%nat ->
  exists st' t' sent,
    build_catcher_step (S fuel) (address :: "HELLO"%string :: args) st
    = Ok (st', sent)
    /\ length sent = 10%nat
    /\ Forall (fetch_frame address (_map t)) sent
    /\ store st' !! l = Some t'
    /\ _credit t' = 0 /\ _map t' = _map t /\ _file t' = _file t
    /\ transfers st' = transfers st /\ slaves st' = slaves st.
Proof.
  intros Htr Hst Hcr Hch Hne Hfuel.
  destruct fuel as [|fuel]; [lia|].
  unfold build_catcher_step. rewrite Htr.
  change (String.eqb "HELLO" "CHUNK") with false.
  change (String.eqb "HELLO" "HELLO") with true. cbv iota.
  rewrite Hst, Hcr. change (0 =? 0) with true. cbv iota.
  assert (Hl : (l < length (store st))%nat) by (eapply lookup_lt_Some; eauto).
  assert (Hreset : reset_credit t = set_credit pipeline_size t)
    by (unfold reset_credit; now rewrite Hcr).
  destruct (run_fetches_spends fuel address l (reset_credit t) []
              (set_store (<[l := reset_credit t]> (store st)) st))
    as (t' & sent & -> & Hlen & Hall & H0 & Hm & Hf).
  { simpl. now apply list_lookup_insert_eq. }
  { rewrite Hreset. simpl. eapply chain_head_not_empty, Hch. }
  { now rewrite Hreset. }
  { rewrite Hreset. simpl. unfold pipeline_size. lia. }
  { rewrite Hreset. simpl. unfold pipeline_size. lia. }
  eexists _, t', sent. split; [reflexivity|]. simpl.
  rewrite Hreset in *. simpl in *.
  repeat split; auto.
  apply list_lookup_insert_eq. now rewrite length_insert.
Qed.

Lemma catcher_hello_refills_witness :
  let t := MkTransferState (TempFile "tmp" [] false) 0 0 [Range 0 1000000] in
  let st := MkState [] {[ "f"%string := Some 0%nat ]} false 0 [t] [] None None in
  exists st' t' sent,
    build_catcher_step 11 ["f"; "HELLO"; "1"]%string st = Ok (st', sent)
    /\ length sent = 10%nat
    /\ Forall (fetch_frame "f" [Range 0 1000000]) sent
    /\ store st' !! 0%nat = Some t'
    /\ _credit t' = 0 /\ _map t' = _map t /\ _file t' = _file t
    /\ transfers st' = transfers st /\ slaves st' = slaves st.
Proof.
  intros t st.
  refine (catcher_hello_refills 10 "f" ["1"%string] st 0%nat t
            _ _ _ _ _ _).
  - reflexivity.
  - reflexivity.
  - reflexivity.
  - simpl. lia.
  - discriminate.
  - lia.
Defined.

(** X10. The first HELLO of a transfer: from an address with no transfer,
    a HELLO that names a worker with a transfer under way puts that very
    transfer (the object the worker's [SlaveState] refers to) in the
    transfer map under the address, and spends its credit on FETCH
    frames, one per credit. *)
Theorem catcher_hello_adopts fuel address a args st id slave l t :
  transfers st !! address = None -> parse_int a = Some id ->
  find_slave id (slaves st) = Some slave -> _transfer slave = Some l ->
  store st !! l = Some t ->
  chain 0 (_map t) -> _map t <> [] -> 0 <= _credit t ->
  (Z.to_nat (_credit t) < S (S fuel))%nat ->
  exists st' t' sent,
    build_catcher_step (S (S fuel))
      (address :: "HELLO"%string :: a :: args) st
    = Ok (st', sent)
    /\ transfers st' = <[address := Some l]> (transfers st)
    /\ transfers st' !! address = Some (_transfer slave)
    /\ length sent = Z.to_nat (_credit t)
    /\ Forall (fetch_frame address (_map t)) sent
    /\ store st' !! l = Some t'
    /\ _credit t' = 0 /\ _map t' = _map t /\ _file t' = _file t
    /\ slaves st' = slaves st.
Proof.
  intros Hnone Ha Hfind Htr Hst Hch Hne Hcr Hfuel.
  unfold build_catcher_step. rewrite Hnone.
  change (String.eqb "HELLO" "CHUNK") with false.
  change (String.eqb "HELLO" "HELLO") with true.
  cbv iota. change (negb true) with false. cbv iota.
  rewrite Ha. cbv beta zeta.
  change (slaves (set_catcher_slave_id (Some id) st)) with (slaves st).
  rewrite Hfind, Htr.
  assert (Hl : (l < length (store st))%nat) by (eapply lookup_lt_Some; eauto).
  destruct (run_fetches_spends fuel address l t []
              (set_transfers
                 (<[address := Some l]>
                    (transfers (set_catcher_slave_id (Some id) st)))
                 (set_catcher_slave_id (Some id) st)))
    as (t' & sent & -> & Hlen & Hall & H0 & Hm & Hf); auto.
  { eapply chain_head_not_empty, Hch. }
  eexists _, t', sent. split; [reflexivity|]. simpl.
  repeat split; auto.
  - apply lookup_insert_eq.
  - now apply list_lookup_insert_eq.
Qed.

Lemma catcher_hello_adopts_witness :
  let t := MkTransferState (TempFile "tmp" (truncate_to 9) false) 1 0
             [Range 0 9] in
  let slave := MkSlaveState 1 (Some 5) (Some [JStr "BUILT"])
                 (Some [JStr "SEND"]) None (Some 0%nat) false in
  let st := MkState [("w"%string, slave)] ∅ false 1 [t] [] None None in
  exists st' t' sent,
    build_catcher_step 2 ["f"; "HELLO"; "1"]%string st = Ok (st', sent)
    /\ transfers st' = <[ "f"%string := Some 0%nat ]> (transfers st)
    /\ transfers st' !! "f"%string = Some (_transfer slave)
    /\ length sent = 1%nat
    /\ Forall (fetch_frame "f" [Range 0 9]) sent
    /\ store st' !! 0%nat = Some t'
    /\ _credit t' = 0 /\ _map t' = _map t /\ _file t' = _file t
    /\ slaves st' = slaves st.
Proof.
  intros t slave st.
  refine (catcher_hello_adopts 0 "f" "1" [] st 1 slave 0%nat t
            _ _ _ _ _ _ _ _ _); try reflexivity; try discriminate;
    simpl; lia.
Defined.

End CatcherProofs.

(** ** slave_driver: what every iteration keeps *)

Module DriverProofs.
Import Ranges Transfer Slave Master Wire TransferProofs MasterProofs.

Ltac ok_step :=
  match goal with
  | |- context [Ok ?x ≫= ?k] => change (Ok x ≫= k) with (k x)
  end;
  cbv beta zeta.

Lemma dict_get_del_other {V} k k' (d : list (string * V)) :
  k <> k' -> dict_get k' (dict_del k d) = dict_get k' d.
Proof.
  intros Hne. induction d as [|[k0 v0] d IH]; simpl; [reflexivity|].
  destruct (String.eqb k k0) eqn:E; simpl.
  - apply String.eqb_eq in E. subst k0.
    replace (String.eqb k' k) with false; [exact IH|].
    symmetry. apply String.eqb_neq. congruence.
  - now rewrite IH.
Qed.

Lemma set_request_keeps now value s s' :
  set_request now value s = Ok s' ->
  _slave_id s' = _slave_id s /\ _terminated s' = _terminated s
  /\ _transfer s' = _transfer s /\ _reply s' = _reply s
  /\ _last_seen s' = Some now /\ _request s' = Some value.
Proof.
  unfold set_request. destruct value as [|tag rest]; [discriminate|].
  destruct (is_str tag "BUILT").
  - destruct (BuildState_make (_slave_id s) rest); simpl; try discriminate.
    intros H; inversion H; subst; simpl; auto 10.
  - simpl. intros H; inversion H; subst; simpl; auto 10.
Qed.

Lemma set_reply_keeps tmpname value s store s' store' record :
  set_reply tmpname value s store = Ok (s', store', record) ->
  _slave_id s' = _slave_id s /\ _terminated s' = _terminated s
  /\ _last_seen s' = _last_seen s /\ _request s' = _request s
  /\ _reply s' = Some value
  /\ (store' = store
      \/ exists t n, TransferState_init tmpname n = Ok t
                     /\ store' = store ++ [t]).
Proof.
  unfold set_reply. destruct value as [|tag rest]; [discriminate|].
  destruct (is_str tag "SEND").
  - destruct (_build s) as [b|]; [|discriminate].
    destruct (as_int (filesize b)) as [n|]; [|discriminate].
    destruct (TransferState_init tmpname n) as [t| |] eqn:E; try discriminate.
    simpl. destruct (_last_seen s); [|discriminate].
    intros H; inversion H; subst; simpl. repeat split; auto.
    right. eauto.
  - destruct (is_str tag "DONE"); simpl;
      (destruct (_last_seen s); [|discriminate]);
      intros H; inversion H; subst; simpl; auto 10.
Qed.

Lemma send_reply_keeps tmpname address empty s before reply st st' effs :
  send_reply tmpname address empty s before reply st = Ok (st', effs) ->
  exists s',
    slaves st' = dict_set address s' (slaves st)
    /\ _slave_id s' = _slave_id s /\ _terminated s' = _terminated s
    /\ _reply s' = Some reply
    /\ counter st' = counter st /\ transfers st' = transfers st
    /\ paused st' = paused st /\ build_queue st' = build_queue st
    /\ catcher_slave_id st' = catcher_slave_id st
    /\ driver_reply st' = Some reply
    /\ (store st' = store st
        \/ exists t n, TransferState_init tmpname n = Ok t
                       /\ store st' = store st ++ [t])
    /\ exists record,
         effs = before ++ [SendStatus record; SendSlave address empty reply].
Proof.
  unfold send_reply.
  destruct (set_reply tmpname reply s (store st)) as [[[s' store'] record]| |]
    eqn:E; try discriminate.
  simpl. intros H; inversion H; subst; clear H. simpl.
  apply set_reply_keeps in E as (? & ? & ? & ? & ? & ?).
  exists s'. repeat split; eauto.
Qed.

Lemma verify_keeps sha filehash package filename t ok calls t' :
  verify sha filehash package filename t = Ok (ok, calls, t') ->
  _credit t' = _credit t /\ _map t' = _map t /\ _offset t' = _offset t
  /\ content (_file t') = content (_file t) /\ closed (_file t') = true
  /\ closed (_file t) = false.
Proof.
  unfold verify. destruct (closed (_file t)) eqn:Hc; [discriminate|].
  destruct (match filehash with JStr _ => _ | _ => _ end).
  - destruct (with_name package) as [dir| |]; cbn [mbind outcome_bind];
      try discriminate.
    destruct (has_nul dir); [discriminate|].
    destruct (truediv dir filename) as [target| |];
      cbn [mbind outcome_bind]; try discriminate.
    destruct (has_nul target); [discriminate|].
    destruct (String.eqb dir _ && _); [discriminate|].
    intros H; inversion H; subst; simpl; auto 10.
  - intros H; inversion H; subst; simpl; auto 10.
Qed.

Section Shape.
Variable sha256_hexdigest : bytes -> string.

(** The ways an iteration of [slave_driver] can end: the message is
    dropped; or the worker is looked up (or made), its request is set, and
    then the entry of the worker is deleted, or nothing more happens, or a
    reply is set and sent, after at most a pop of the build queue or a
    [verify] of one transfer. *)
Lemma driver_step_shape now tmpname address empty message st st' effs :
  slave_driver_step sha256_hexdigest now tmpname address empty message st
  = Ok (st', effs) ->
  (st' = st /\ dict_get address (slaves st) = None
   /\ effs = [Log ERROR "Invalid first message from slave"])
  \/ exists msg args slave0 st0 slave,
      message = msg :: args
      /\ lookup_slave address msg st = Some (slave0, st0)
      /\ set_request now message slave0 = Ok slave
      /\ (st' = set_slaves
                  (dict_del address (dict_set address slave (slaves st0))) st0
          \/ st' = set_slaves (dict_set address slave (slaves st0)) st0
          \/ exists before reply st2,
              send_reply tmpname address empty slave before reply st2
              = Ok (st', effs)
              /\ slaves st2 = dict_set address slave (slaves st0)
              /\ counter st2 = counter st0
              /\ transfers st2 = transfers st0
              /\ paused st2 = paused st0
              /\ catcher_slave_id st2 = catcher_slave_id st0
              /\ (store st2 = store st0
                  \/ exists l t t',
                      store st0 !! l = Some t
                      /\ store st2 = <[l := t']> (store st0)
                      /\ _credit t' = _credit t /\ _map t' = _map t)).
Proof.
  unfold slave_driver_step. destruct message as [|msg args]; [discriminate|].
  destruct (lookup_slave address msg st) as [[slave0 st0]|] eqn:El.
  - destruct (set_request now (msg :: args) slave0) as [slave| |] eqn:Er;
      try discriminate.
    ok_step. intros H. right. exists msg, args, slave0, st0, slave.
    split; [reflexivity|]. split; [exact El|]. split; [exact Er|].
    destruct (is_str msg "HELLO").
    { right; right. eexists _, _, _. split; [exact H|]. simpl. auto 10. }
    destruct (is_str msg "BYE").
    { left. now inversion H. }
    destruct (is_str msg "IDLE").
    { right; right.
      destruct (_terminated slave);
        [eexists _, _, _; split; [exact H|]; simpl; auto 10|].
      destruct (paused (set_slaves _ _));
        [eexists _, _, _; split; [exact H|]; simpl; auto 10|].
      destruct (build_queue (set_slaves _ _)) as [|[package version] rest];
        eexists _, _, _; (split; [exact H|]); simpl; auto 10. }
    destruct (is_str msg "BUILT").
    { destruct (_build slave) as [b|]; [|discriminate].
      right; right. eexists _, _, _. split; [exact H|]. simpl. auto 10. }
    destruct (is_str msg "SENT").
    { destruct (_transfer slave) as [l|]; [|right; left; now inversion H].
      simpl in H.
      destruct (store st0 !! l) as [t|] eqn:Et; [|discriminate].
      destruct (_build slave) as [b|]; [|discriminate].
      destruct (verify _ _ _ _ t) as [[[ok calls] t']| |] eqn:Ev;
        try discriminate.
      apply verify_keeps in Ev as (Hc & Hm & _).
      simpl in H. right; right. destruct ok.
      - destruct (as_str (package b)); [|discriminate].
        eexists _, _, _. split; [exact H|]. simpl.
        repeat split; auto. right. eauto 10.
      - eexists _, _, _. split; [exact H|]. simpl.
        repeat split; auto. right. eauto 10. }
    destruct (driver_reply (set_slaves _ _)) as [reply|] eqn:Ed;
      [|discriminate].
    right; right. eexists _, _, _. split; [exact H|]. simpl. auto 10.
  - intros H. inversion H; subst. left. split; [reflexivity|].
    split; [|reflexivity].
    unfold lookup_slave in El. destruct (dict_get address (slaves st'));
      [discriminate|reflexivity].
Qed.

Lemma lookup_slave_cases address msg st slave0 st0 :
  lookup_slave address msg st = Some (slave0, st0) ->
  (dict_get address (slaves st) = Some slave0 /\ st0 = st)
  \/ (dict_get address (slaves st) = None
      /\ slave0 = SlaveState_init (counter st + 1)
      /\ st0 = set_slaves (dict_set address slave0 (slaves st))
                 (set_counter (counter st + 1) st)
      /\ is_str msg "HELLO" = true).
Proof.
  unfold lookup_slave. destruct (dict_get address (slaves st)) as [s|].
  - intros H; inversion H; subst. now left.
  - destruct (is_str msg "HELLO"); [|discriminate].
    intros H; inversion H; subst. right. auto.
Qed.

(** What an iteration of [slave_driver] leaves alone, and what it can do
    to the worker of the message. *)
Lemma driver_step_frame now tmpname address empty message st st' effs :
  slave_driver_step sha256_hexdigest now tmpname address empty message st
  = Ok (st', effs) ->
  transfers st' = transfers st /\ paused st' = paused st
  /\ catcher_slave_id st' = catcher_slave_id st
  /\ (forall a, a <> address ->
         dict_get a (slaves st') = dict_get a (slaves st))
  /\ counter st <= counter st'
  /\ (forall s', dict_get address (slaves st') = Some s' ->
        match dict_get address (slaves st) with
        | Some s => _slave_id s' = _slave_id s
                    /\ _terminated s' = _terminated s
                    /\ counter st' = counter st
        | None => _slave_id s' = counter st + 1
                  /\ _terminated s' = false
                  /\ counter st' = counter st + 1
        end)
  /\ (length (store st) <= length (store st'))%nat
  /\ (Forall credit_ok (store st) -> Forall credit_ok (store st')).
Proof.
  intros H. apply driver_step_shape in H.
  destruct H as [(-> & Hnone & _)|H].
  { repeat split; auto; try lia. intros s' Hs'. congruence. }
  destruct H as (msg & args & slave0 & st0 & slave & -> & Hl & Hr & H).
  apply set_request_keeps in Hr as (Hid & Hterm & _).
  assert (H0 : transfers st0 = transfers st /\ paused st0 = paused st
               /\ catcher_slave_id st0 = catcher_slave_id st
               /\ store st0 = store st
               /\ counter st <= counter st0
               /\ (forall a, a <> address ->
                      dict_get a (slaves st0) = dict_get a (slaves st))
               /\ match dict_get address (slaves st) with
                  | Some s => _slave_id slave = _slave_id s
                              /\ _terminated slave = _terminated s
                              /\ counter st0 = counter st
                  | None => _slave_id slave = counter st + 1
                            /\ _terminated slave = false
                            /\ counter st0 = counter st + 1
                  end).
  { apply lookup_slave_cases in Hl
      as [(Hg & ->)|(Hg & -> & -> & _)]; rewrite Hg; simpl.
    - repeat split; auto; lia.
    - repeat split; auto; try lia.
      intros a Ha. now apply dict_get_set_other. }
  destruct H0 as (Ht0 & Hp0 & Hc0 & Hs0 & Hle0 & Ho0 & Hm0).
  destruct H as [->|[->|H]].
  - simpl. rewrite Hs0. repeat split; auto.
    + intros a Ha. rewrite dict_get_del_other, dict_get_set_other by auto.
      auto.
    + intros s' Hs'. rewrite dict_get_del in Hs'. discriminate.
  - simpl. rewrite Hs0. repeat split; auto.
    + intros a Ha. rewrite dict_get_set_other by auto. auto.
    + intros s' Hs'. rewrite dict_get_set in Hs'. inversion Hs'; subst.
      exact Hm0.
  - destruct H as (before & reply & st2 & Hsend & Hsl & Hcn & Htr & Hpa
                   & Hcs & Hst).
    apply send_reply_keeps in Hsend
      as (s' & Hsl' & Hid' & Hterm' & _ & Hcn' & Htr' & Hpa' & _ & Hcs'
          & _ & Hst' & _).
    assert (Hlen : length (store st2) = length (store st)
                   /\ (Forall credit_ok (store st) ->
                       Forall credit_ok (store st2))).
    { destruct Hst as [->|(l & t & t' & Hlk & -> & Hcr & _)].
      - rewrite Hs0. auto.
      - rewrite length_insert, Hs0. split; [reflexivity|].
        intros Hall. rewrite Hs0 in Hlk. apply Forall_insert; auto.
        unfold credit_ok. rewrite Hcr.
        eapply (Forall_lookup_1 credit_ok); eauto. }
    destruct Hlen as [Hlen Hok].
    repeat split; try congruence.
    + intros a Ha. rewrite Hsl', Hsl.
      rewrite !dict_get_set_other by auto. auto.
    + intros s'' Hs''. rewrite Hsl', dict_get_set in Hs''.
      inversion Hs''; subst s''.
      destruct (dict_get address (slaves st)); intuition congruence.
    + destruct Hst' as [->|(t & n & _ & ->)];
        rewrite ?length_app; simpl; lia.
    + intros Hall. specialize (Hok Hall).
      destruct Hst' as [->|(t & n & Hinit & ->)]; [assumption|].
      apply Forall_app. split; [assumption|]. constructor; [|constructor].
      unfold credit_ok. unfold TransferState_init in Hinit.
      destruct (n <? 0); [discriminate|]. inversion Hinit; subst; simpl. lia.
Qed.

End Shape.

End DriverProofs.

(** ** build_catcher: what every iteration keeps *)

Module CatcherFrame.
Import Ranges Transfer Slave Master Wire TransferProofs MasterProofs.









End CatcherFrame.

(** ** What holds in every run of the master *)

Module RunProofs.
Import Ranges Transfer Slave Master Wire Scenario.
Import TransferProofs MasterProofs DriverProofs CatcherFrame.

Lemma dict_get_map_kill n a (d : list (string * SlaveState)) :
  dict_get a
    (map (fun kv : string * SlaveState =>
            if id_eq (_slave_id (snd kv)) n
            then (fst kv, kill (snd kv)) else kv) d)
  = (fun s => if id_eq (_slave_id s) n then kill s else s) <$> dict_get a d.
Proof.
  induction d as [|[k v] d IH]; simpl; [reflexivity|].
  destruct (id_eq (_slave_id v) n) eqn:E; simpl;
    destruct (String.eqb a k); simpl; rewrite ?E; auto.
Qed.










Section Runs.
Variable sha256_hexdigest : bytes -> string.
Variable fuel : nat.

Local Abbreviation handle := (handle sha256_hexdigest fuel).
Local Abbreviation handle_all := (handle_all sha256_hexdigest fuel).








End Runs.



End RunProofs.

(** ** slave_driver: what each message of a worker does *)

Module DriverSteps.
Import Ranges Transfer Slave Master Wire Scenario.
Import TransferProofs MasterProofs DriverProofs CatcherFrame RunProofs.

Ltac tag_is :=
  repeat match goal with
  | |- context [is_str (JStr ?a) ?b] =>
      let v := eval vm_compute in (is_str (JStr a) b) in
      change (is_str (JStr a) b) with v
  end; cbv iota.

(** [send_reply] for a reply other than SEND: what is sent, and what the
    state is afterwards. *)
Lemma send_plain tmpname address empty s before tag more st now :
  _last_seen s = Some now ->
  is_str (JStr tag) "SEND" = false ->
  exists st' s',
    send_reply tmpname address empty s before (JStr tag :: more) st
    = Ok (st',
          before ++ [SendStatus (JInt (_slave_id s) :: timestamp now
                                   :: JStr tag :: more);
                     SendSlave address empty (JStr tag :: more)])
    /\ slaves st' = dict_set address s' (slaves st)
    /\ counter st' = counter st /\ store st' = store st
    /\ transfers st' = transfers st /\ paused st' = paused st
    /\ build_queue st' = build_queue st
    /\ driver_reply st' = Some (JStr tag :: more)
    /\ s' = MkSlaveState (_slave_id s) (_last_seen s) (_request s)
              (Some (JStr tag :: more))
              (if is_str (JStr tag) "DONE" then None else _build s)
              (if is_str (JStr tag) "DONE" then None else _transfer s)
              (_terminated s).
Proof.
  intros Hseen Htag. unfold send_reply, set_reply. rewrite Htag.
  destruct (is_str (JStr tag) "DONE") eqn:Hd; simpl; rewrite Hseen;
    simpl; eexists _, _; (split; [reflexivity|]); simpl; auto 10.
Qed.

Lemma dict_set_set {V} k (v v' : V) d :
  dict_set k v (dict_set k v' d) = dict_set k v d.
Proof.
  induction d as [|[k0 v0] d IH]; simpl.
  - now rewrite String.eqb_refl.
  - destruct (String.eqb k k0) eqn:E; simpl.
    + now rewrite String.eqb_refl.
    + now rewrite E, IH.
Qed.

Section Steps.
Variable sha256_hexdigest : bytes -> string.

Local Abbreviation step := (slave_driver_step sha256_hexdigest).

Ltac known Hget :=
  unfold slave_driver_step, lookup_slave; rewrite Hget;
  rewrite set_request_plain by reflexivity;
  ok_step; tag_is.

(** The reply to IDLE for a worker that has not been killed. *)

Lemma idle_step now tmpname address empty args st slave :
  dict_get address (slaves st) = Some slave ->
  _terminated slave = false ->
  let reply :=
    match (if paused st then [] else build_queue st) with
    | (package, version) :: _ => [JStr "BUILD"; package; version]
    | [] => [JStr "SLEEP"]
    end in
  exists st' s',
    step now tmpname address empty (JStr "IDLE" :: args) st
    = Ok (st',
          [SendStatus (JInt (_slave_id slave) :: timestamp now :: reply);
           SendSlave address empty reply])
    /\ build_queue st' = (if paused st then build_queue st
                         else tail (build_queue st))
    /\ paused st' = paused st
    /\ slaves st' = dict_set address s' (slaves st)
    /\ _slave_id s' = _slave_id slave
    /\ _terminated s' = false
    /\ _build s' = _build slave
    /\ driver_reply st' = Some reply
    /\ counter st' = counter st /\ store st' = store st.
Proof.
  intros Hget Hterm. known Hget.
  change (_terminated (seen now (JStr "IDLE" :: args) slave))
    with (_terminated slave).
  rewrite Hterm.
  set (st1 := set_slaves
                (dict_set address (seen now (JStr "IDLE" :: args) slave)
                   (slaves st)) st).
  change (paused st1) with (paused st).
  change (build_queue st1) with (build_queue st).
  assert (Hset : forall s' q,
            dict_set address s' (slaves (set_build_queue q st1))
            = dict_set address s' (slaves st)).
  { intros s' q. simpl. apply dict_set_set. }
  destruct (paused st) eqn:Hp;
    [|destruct (build_queue st) as [|[p v] rest] eqn:Hbq].
  - destruct (send_plain tmpname address empty
                (seen now (JStr "IDLE" :: args) slave) [] "SLEEP" [] st1
                now eq_refl eq_refl)
      as (st' & s' & -> & Hs & ? & ? & _ & Hpa & Hq & ? & Hs').
    exists st', s'. split; [reflexivity|]. rewrite Hq, Hpa, Hs.
    change (build_queue st1) with (build_queue st).
    change (paused st1) with (paused st). rewrite ?Hbq, ?Hp.
    repeat split; auto; try (subst s'; simpl; auto; fail).
    apply (Hset _ (build_queue st)).
  - destruct (send_plain tmpname address empty
                (seen now (JStr "IDLE" :: args) slave) [] "SLEEP" [] st1
                now eq_refl eq_refl)
      as (st' & s' & -> & Hs & ? & ? & _ & Hpa & Hq & ? & Hs').
    exists st', s'. split; [reflexivity|]. rewrite Hq, Hpa, Hs.
    change (build_queue st1) with (build_queue st).
    change (paused st1) with (paused st). rewrite ?Hbq, ?Hp.
    repeat split; auto; try (subst s'; simpl; auto; fail).
    apply (Hset _ (build_queue st)).
  - destruct (send_plain tmpname address empty
                (seen now (JStr "IDLE" :: args) slave) [] "BUILD" [p; v]
                (set_build_queue rest st1)
                now eq_refl eq_refl)
      as (st' & s' & -> & Hs & ? & ? & _ & Hpa & Hq & ? & Hs').
    exists st', s'. split; [reflexivity|]. rewrite Hq, Hpa, Hs.
    repeat split; auto; try (subst s'; simpl; auto; fail).
Qed.

(** X13. An iteration of [slave_driver] touches no worker but the one
    the message came from, and of that one it keeps the id and the
    terminated flag: a worker that has been killed stays killed as long as
    it is in the map. The transfer map of [build_catcher] and the pause
    flag are not touched. *)
Theorem driver_touches_only_sender now tmpname address empty message
    st st' effs :
  step now tmpname address empty message st = Ok (st', effs) ->
  transfers st' = transfers st /\ paused st' = paused st
  /\ (forall a, a <> address ->
        dict_get a (slaves st') = dict_get a (slaves st))
  /\ (forall s s',
        dict_get address (slaves st) = Some s ->
        dict_get address (slaves st') = Some s' ->
        _slave_id s' = _slave_id s /\ _terminated s' = _terminated s).
Proof.
  intros H.
  apply driver_step_frame in H as (Ht & Hp & _ & Ho & _ & Hm & _).
  split; [exact Ht|]. split; [exact Hp|]. split; [exact Ho|].
  intros s s' Hs Hs'. specialize (Hm s' Hs'). rewrite Hs in Hm. tauto.
Qed.

(** X14. The reply to IDLE, for a worker that has not been killed: SLEEP
    while the master is paused, whatever is queued, and the queue is left
    as it is; else BUILD with the package and version at the head of the
    queue, which is taken off the queue; SLEEP when nothing is queued. *)
Theorem idle_dispatch now tmpname address empty args st slave :
  dict_get address (slaves st) = Some slave ->
  _terminated slave = false ->
  let reply :=
    match (if paused st then [] else build_queue st) with
    | (package, version) :: _ => [JStr "BUILD"; package; version]
    | [] => [JStr "SLEEP"]
    end in
  exists st',
    step now tmpname address empty (JStr "IDLE" :: args) st
    = Ok (st',
          [SendStatus (JInt (_slave_id slave) :: timestamp now :: reply);
           SendSlave address empty reply])
    /\ build_queue st' = (if paused st then build_queue st
                         else tail (build_queue st))
    /\ paused st' = paused st.
Proof.
  intros Hget Hterm reply.
  destruct (idle_step now tmpname address empty args st slave Hget Hterm)
    as (st' & s' & H & Hq & Hp & _).
  exists st'. auto.
Qed.

(** X15. A queued build is handed out once: of two workers that say IDLE
    one after the other while the master is not paused, the first is told
    to build the head of the queue and the second the entry after it, and
    both entries have left the queue. *)
Theorem build_handed_out_once now now' tmpname tmpname' a b empty empty'
    args args' st sa sb p1 v1 p2 v2 rest :
  a <> b ->
  dict_get a (slaves st) = Some sa -> _terminated sa = false ->
  dict_get b (slaves st) = Some sb -> _terminated sb = false ->
  paused st = false ->
  build_queue st = (p1, v1) :: (p2, v2) :: rest ->
  exists st1 st2,
    step now tmpname a empty (JStr "IDLE" :: args) st
    = Ok (st1,
          [SendStatus [JInt (_slave_id sa); timestamp now;
                       JStr "BUILD"; p1; v1];
           SendSlave a empty [JStr "BUILD"; p1; v1]])
    /\ step now' tmpname' b empty' (JStr "IDLE" :: args') st1
       = Ok (st2,
             [SendStatus [JInt (_slave_id sb); timestamp now';
                          JStr "BUILD"; p2; v2];
              SendSlave b empty' [JStr "BUILD"; p2; v2]])
    /\ build_queue st2 = rest.
Proof.
  intros Hab Ha Hta Hb Htb Hp Hq.
  destruct (idle_step now tmpname a empty args st sa Ha Hta)
    as (st1 & s1 & H1 & Hq1 & Hp1 & Hs1 & _).
  rewrite Hp, Hq in H1, Hq1. simpl in H1, Hq1.
  assert (Hb1 : dict_get b (slaves st1) = Some sb).
  { rewrite Hs1, dict_get_set_other by auto. exact Hb. }
  destruct (idle_step now' tmpname' b empty' args' st1 sb Hb1 Htb)
    as (st2 & s2 & H2 & Hq2 & _).
  rewrite Hp1, Hp, Hq1 in H2, Hq2. simpl in H2, Hq2.
  exists st1, st2. auto.
Qed.

(** X16. PAUSE holds builds back and RESUME releases them: after the
    control message PAUSE a worker that says IDLE is told to SLEEP and the
    queued build stays queued; after RESUME its next IDLE is answered with
    that build. *)
Theorem pause_holds_builds now now' tmpname tmpname' address empty empty'
    args args' st slave p v rest :
  dict_get address (slaves st) = Some slave ->
  _terminated slave = false ->
  build_queue st = (p, v) :: rest ->
  exists st1 st2 st3 st4,
    control [JStr "PAUSE"] st = Ok (st1, [Log WARNING "Pausing operations"])
    /\ step now tmpname address empty (JStr "IDLE" :: args) st1
       = Ok (st2,
             [SendStatus [JInt (_slave_id slave); timestamp now;
                          JStr "SLEEP"];
              SendSlave address empty [JStr "SLEEP"]])
    /\ build_queue st2 = (p, v) :: rest
    /\ control [JStr "RESUME"] st2
       = Ok (st3, [Log WARNING "Resuming operations"])
    /\ step now' tmpname' address empty' (JStr "IDLE" :: args') st3
       = Ok (st4,
             [SendStatus [JInt (_slave_id slave); timestamp now';
                          JStr "BUILD"; p; v];
              SendSlave address empty' [JStr "BUILD"; p; v]])
    /\ build_queue st4 = rest.
Proof.
  intros Hget Hterm Hq.
  destruct (idle_step now tmpname address empty args (set_paused true st)
              slave Hget Hterm)
    as (st2 & s2 & H2 & Hq2 & Hp2 & Hs2 & Hid2 & Ht2 & _).
  simpl in H2, Hq2.
  assert (Hget3 : dict_get address (slaves (set_paused false st2)) = Some s2).
  { simpl. rewrite Hs2. apply dict_get_set. }
  destruct (idle_step now' tmpname' address empty' args'
              (set_paused false st2) s2 Hget3 Ht2)
    as (st4 & s4 & H4 & Hq4 & _).
  simpl in H4, Hq4. rewrite Hq2, Hq in H4, Hq4. simpl in H4, Hq4.
  rewrite Hid2 in H4.
  exists (set_paused true st), st2, (set_paused false st2), st4.
  repeat split; auto. congruence.
Qed.

(** X17. KILL takes effect at the next IDLE: after the control message
    KILL with the id of a worker, the IDLE of that worker is answered BYE
    and no build leaves the queue for it; the workers with another id are
    as they were. *)
Theorem kill_takes_effect_at_idle now tmpname address empty args more st
    slave :
  dict_get address (slaves st) = Some slave ->
  exists st1 st2,
    control (JStr "KILL" :: JInt (_slave_id slave) :: more) st
    = Ok (st1, [Log WARNING "Killing slave"])
    /\ step now tmpname address empty (JStr "IDLE" :: args) st1
       = Ok (st2,
             [SendStatus [JInt (_slave_id slave); timestamp now; JStr "BYE"];
              SendSlave address empty [JStr "BYE"]])
    /\ build_queue st2 = build_queue st
    /\ forall a s, dict_get a (slaves st) = Some s ->
         _slave_id s <> _slave_id slave ->
         dict_get a (slaves st1) = Some s.
Proof.
  intros Hget.
  set (st1 := set_slaves
                (map (fun kv : string * SlaveState =>
                        if id_eq (_slave_id (snd kv)) (JInt (_slave_id slave))
                        then (fst kv, kill (snd kv)) else kv)
                   (slaves st)) st).
  assert (Hk : dict_get address (slaves st1) = Some (kill slave)).
  { unfold st1, set_slaves. cbn [slaves].
    rewrite dict_get_map_kill, Hget. simpl. now rewrite Z.eqb_refl. }
  assert (Hstep : exists st2,
             step now tmpname address empty (JStr "IDLE" :: args) st1
             = Ok (st2,
                   [SendStatus [JInt (_slave_id slave); timestamp now;
                                JStr "BYE"];
                    SendSlave address empty [JStr "BYE"]])
             /\ build_queue st2 = build_queue st).
  { known Hk.
    change (_terminated (seen now (JStr "IDLE" :: args) (kill slave)))
      with true. cbv iota.
    match goal with
    | |- context [send_reply _ _ _ ?s _ _ ?st0] =>
        destruct (send_plain tmpname address empty s [] "BYE" [] st0 now
                    eq_refl eq_refl)
          as (st2 & s2 & -> & _ & _ & _ & _ & _ & Hq & _)
    end.
    exists st2. split; [reflexivity|]. exact Hq. }
  destruct Hstep as (st2 & H2 & Hq).
  exists st1, st2. split; [reflexivity|]. split; [exact H2|].
  split; [exact Hq|].
  intros a s Ha Hne. unfold st1, set_slaves. cbn [slaves].
  rewrite dict_get_map_kill, Ha. simpl. destruct (Z.eqb_spec (_slave_id s) (_slave_id slave)); congruence.
Qed.

Lemma hello_new now tmpname address empty args st :
  dict_get address (slaves st) = None ->
  let id := counter st + 1 in
  exists st',
    step now tmpname address empty (JStr "HELLO" :: args) st
    = Ok (st',
          [Log WARNING "New slave";
           SendStatus [JInt id; timestamp now; JStr "HELLO"; JInt id];
           SendSlave address empty [JStr "HELLO"; JInt id]])
    /\ counter st' = id
    /\ dict_get address (slaves st')
       = Some (MkSlaveState id (Some now) (Some (JStr "HELLO" :: args))
                 (Some [JStr "HELLO"; JInt id]) None None false)
    /\ (forall a, a <> address ->
          dict_get a (slaves st') = dict_get a (slaves st))
    /\ store st' = store st /\ transfers st' = transfers st.
Proof.
  intros Hget id. unfold slave_driver_step, lookup_slave. rewrite Hget.
  tag_is. rewrite set_request_plain by reflexivity. ok_step. tag_is.
  match goal with
  | |- context [send_reply _ _ _ ?s ?before (_ :: ?more) ?st0] =>
      destruct (send_plain tmpname address empty s before "HELLO" more st0
                  now eq_refl eq_refl)
        as (st' & s' & -> & Hs & Hc & Hst & Htr & _ & _ & _ & ->)
  end.
  exists st'. split; [reflexivity|]. split; [exact Hc|].
  rewrite Hs, Hst, Htr. simpl. rewrite dict_get_set.
  split; [reflexivity|]. split; [|auto].
  intros a Ha. now rewrite !dict_get_set_other by auto.
Qed.

(** X18. The first message of a worker. From an address that is not in
    the slaves map a HELLO makes a new [SlaveState] with the next id, the
    counter plus one, which is what the reply HELLO carries; the other
    workers are as they were. *)
Theorem hello_from_new_worker now tmpname address empty args st :
  dict_get address (slaves st) = None ->
  let id := counter st + 1 in
  exists st',
    step now tmpname address empty (JStr "HELLO" :: args) st
    = Ok (st',
          [Log WARNING "New slave";
           SendStatus [JInt id; timestamp now; JStr "HELLO"; JInt id];
           SendSlave address empty [JStr "HELLO"; JInt id]])
    /\ counter st' = id
    /\ dict_get address (slaves st')
       = Some (MkSlaveState id (Some now) (Some (JStr "HELLO" :: args))
                 (Some [JStr "HELLO"; JInt id]) None None false)
    /\ (forall a, a <> address ->
          dict_get a (slaves st') = dict_get a (slaves st))
    /\ store st' = store st /\ transfers st' = transfers st.
Proof. exact (hello_new now tmpname address empty args st). Qed.

(** X19. BYE makes the master forget the worker: the entry leaves the
    slaves map and nothing is sent back. What the address sends next is
    a first message again: anything but HELLO is logged and dropped with
    the state as it is, and a HELLO gets a new id, not the one the worker
    had. *)
Theorem bye_forgets_worker now now' tmpname tmpname' address empty empty'
    args msg args' args'' st slave :
  dict_get address (slaves st) = Some slave ->
  _slave_id slave <= counter st ->
  is_str msg "HELLO" = false ->
  exists st1 st2,
    step now tmpname address empty (JStr "BYE" :: args) st
    = Ok (st1, [Log WARNING "Slave shutdown"])
    /\ dict_get address (slaves st1) = None
    /\ step now' tmpname' address empty' (msg :: args') st1
       = Ok (st1, [Log ERROR "Invalid first message from slave"])
    /\ step now' tmpname' address empty' (JStr "HELLO" :: args'') st1
       = Ok (st2,
             [Log WARNING "New slave";
              SendStatus [JInt (counter st + 1); timestamp now';
                          JStr "HELLO"; JInt (counter st + 1)];
              SendSlave address empty'
                [JStr "HELLO"; JInt (counter st + 1)]])
    /\ counter st + 1 <> _slave_id slave.
Proof.
  intros Hget Hid Hmsg.
  set (st1 := set_slaves
                (dict_del address
                   (dict_set address (seen now (JStr "BYE" :: args) slave)
                      (slaves st))) st).
  assert (H1 : step now tmpname address empty (JStr "BYE" :: args) st
               = Ok (st1, [Log WARNING "Slave shutdown"])).
  { known Hget. reflexivity. }
  assert (Hnone : dict_get address (slaves st1) = None).
  { apply dict_get_del. }
  destruct (hello_new now' tmpname' address empty' args'' st1 Hnone)
    as (st2 & H2 & _).
  exists st1, st2. split; [exact H1|]. split; [exact Hnone|].
  split; [|split; [exact H2|lia]].
  unfold slave_driver_step, lookup_slave. rewrite Hnone, Hmsg. reflexivity.
Qed.

Ltac built Hget :=
  unfold slave_driver_step, lookup_slave; rewrite Hget;
  unfold set_request; tag_is; cbn [BuildState_make];
  repeat ok_step; tag_is; cbn [_build status].

(** X20. BUILT for a build that succeeded (a status that is true, a file
    size that is an integer and not negative): the build is logged to the
    database, a new transfer of that size is made, which the worker's
    state refers to from then on, and the worker is told to SEND. *)
Theorem built_starts_transfer now tmpname address empty st slave
    a1 a2 a3 a4 a5 a6 a7 a8 a9 a10 a11 a12 n :
  let b := MkBuildState (_slave_id slave)
             a1 a2 a3 a4 a5 a6 a7 a8 a9 a10 a11 a12 in
  dict_get address (slaves st) = Some slave ->
  truthy a3 = true -> as_int a6 = Some n -> 0 <= n ->
  exists st' s' t,
    TransferState_init tmpname n = Ok t
    /\ step now tmpname address empty
         [JStr "BUILT"; a1; a2; a3; a4; a5; a6; a7; a8; a9; a10; a11; a12]
         st
       = Ok (st',
             [DbLogBuild b;
              SendStatus [JInt (_slave_id slave); timestamp now;
                          JStr "SEND"];
              SendSlave address empty [JStr "SEND"]])
    /\ dict_get address (slaves st') = Some s'
    /\ store st' = store st ++ [t]
    /\ _build s' = Some b
    /\ _transfer s' = Some (length (store st)).
Proof.
  intros b Hget Hst Hn Hpos. built Hget. rewrite Hst.
  match goal with
  | |- context [send_reply _ _ _ ?s ?before _ ?st0] =>
      destruct (send_reply_send tmpname address empty s before st0 now b n
                  eq_refl eq_refl Hn Hpos)
        as (st' & s' & t & Ht & -> & Hs & Hstore & Hb & Htr)
  end.
  exists st', s', t. auto 10.
Qed.

(** X21. BUILT for a build that failed (a status that is not true): the
    build is logged to the database all the same, no transfer is made, the
    worker is told DONE and its build and transfer are cleared. *)
Theorem built_failed_is_done now tmpname address empty st slave
    a1 a2 a3 a4 a5 a6 a7 a8 a9 a10 a11 a12 :
  let b := MkBuildState (_slave_id slave)
             a1 a2 a3 a4 a5 a6 a7 a8 a9 a10 a11 a12 in
  dict_get address (slaves st) = Some slave ->
  truthy a3 = false ->
  exists st' s',
    step now tmpname address empty
      [JStr "BUILT"; a1; a2; a3; a4; a5; a6; a7; a8; a9; a10; a11; a12] st
    = Ok (st',
          [DbLogBuild b;
           SendStatus [JInt (_slave_id slave); timestamp now; JStr "DONE"];
           SendSlave address empty [JStr "DONE"]])
    /\ dict_get address (slaves st') = Some s'
    /\ store st' = store st
    /\ _build s' = None /\ _transfer s' = None.
Proof.
  intros b Hget Hst. built Hget. rewrite Hst.
  match goal with
  | |- context [send_reply _ _ _ ?s ?before _ ?st0] =>
      destruct (send_plain tmpname address empty s before "DONE" [] st0 now
                  eq_refl eq_refl)
        as (st' & s' & -> & Hs & _ & Hstore & _ & _ & _ & _ & ->)
  end.
  eexists st', _. split; [reflexivity|]. rewrite Hs, dict_get_set.
  split; [reflexivity|]. split; [exact Hstore|]. split; reflexivity.
Qed.

(** X22. A BUILT message that does not carry the twelve fields of a build
    is not caught: [BuildState(...)] raises TypeError in the setter of
    [request], which ends [slave_driver]. *)
Theorem built_malformed_raises now tmpname address empty st slave args :
  dict_get address (slaves st) = Some slave ->
  length args <> 12%nat ->
  step now tmpname address empty (JStr "BUILT" :: args) st
  = Raise TypeError.
Proof.
  intros Hget Hlen.
  unfold slave_driver_step, lookup_slave. rewrite Hget.
  unfold set_request. tag_is.
  do 13 (destruct args as [|? args]; [reflexivity || (simpl in Hlen; lia)|]).
  reflexivity.
Qed.

(** X23. A message of a known worker with a tag the loop has no branch
    for is logged, and then answered all the same: with the reply of the
    latest iteration that made one, whichever worker that was for, since
    the variable [reply] still holds it. That reply also becomes the
    reply of this worker's state. *)
Theorem unrecognised_message_repeats_reply now tmpname address empty msg
    args st slave rtag more :
  dict_get address (slaves st) = Some slave ->
  is_str msg "HELLO" = false -> is_str msg "BYE" = false ->
  is_str msg "IDLE" = false -> is_str msg "BUILT" = false ->
  is_str msg "SENT" = false ->
  driver_reply st = Some (JStr rtag :: more) ->
  is_str (JStr rtag) "SEND" = false ->
  exists st' s',
    step now tmpname address empty (msg :: args) st
    = Ok (st',
          [Log ERROR "Invalid message from existing slave";
           SendStatus (JInt (_slave_id slave) :: timestamp now
                         :: JStr rtag :: more);
           SendSlave address empty (JStr rtag :: more)])
    /\ dict_get address (slaves st') = Some s'
    /\ _reply s' = Some (JStr rtag :: more)
    /\ build_queue st' = build_queue st.
Proof.
  intros Hget H1 H2 H3 H4 H5 Hr Hs.
  unfold slave_driver_step, lookup_slave. rewrite Hget.
  rewrite set_request_plain by exact H4. ok_step.
  rewrite H1, H2, H3, H4, H5.
  match goal with
  | |- context [driver_reply ?st0] =>
      change (driver_reply st0) with (driver_reply st)
  end.
  rewrite Hr.
  match goal with
  | |- context [send_reply _ _ _ ?s ?before _ ?st0] =>
      destruct (send_plain tmpname address empty s before rtag more st0 now
                  eq_refl Hs)
        as (st' & s' & -> & Hsl & _ & _ & _ & _ & Hq & _ & ->)
  end.
  eexists st', _. split; [reflexivity|]. rewrite Hsl, dict_get_set.
  split; [reflexivity|]. split; [reflexivity|exact Hq].
Qed.

End Steps.
(** *** Worked instances *)

Lemma driver_touches_only_sender_witness :
  let sa := MkSlaveState 1 (Some 5) (Some [JStr "HELLO"])
              (Some [JStr "HELLO"; JInt 1]) None None true in
  let sb := MkSlaveState 2 (Some 6) (Some [JStr "HELLO"])
              (Some [JStr "HELLO"; JInt 2]) None None false in
  let sa' := MkSlaveState 1 (Some 9) (Some [JStr "IDLE"])
               (Some [JStr "BYE"]) None None true in
  let st := MkState [("a"%string, sa); ("b"%string, sb)] ∅ true 2 []
              [(JStr "foo", JStr "1.0")] (Some [JStr "HELLO"; JInt 2])
              None in
  let st' := MkState [("a"%string, sa'); ("b"%string, sb)] ∅ true 2 []
               [(JStr "foo", JStr "1.0")] (Some [JStr "BYE"]) None in
  transfers st' = transfers st /\ paused st' = paused st
  /\ (forall a, a <> "a"%string ->
        dict_get a (slaves st') = dict_get a (slaves st))
  /\ (forall s s',
        dict_get "a" (slaves st) = Some s ->
        dict_get "a" (slaves st') = Some s' ->
        _slave_id s' = _slave_id s /\ _terminated s' = _terminated s).
Proof.
  intros sa sb sa' st st'.
  exact (driver_touches_only_sender constant_digest 9 "tmp" "a" ""
           [JStr "IDLE"] st st'
           [SendStatus [JInt 1; timestamp 9; JStr "BYE"];
            SendSlave "a" "" [JStr "BYE"]] eq_refl).
Defined.

Lemma idle_dispatch_witness :
  let sa := MkSlaveState 1 (Some 5) (Some [JStr "HELLO"])
              (Some [JStr "HELLO"; JInt 1]) None None false in
  let st := MkState [("a"%string, sa)] ∅ false 1 []
              [(JStr "foo", JStr "1.0"); (JStr "bar", JStr "2.0")]
              (Some [JStr "HELLO"; JInt 1]) None in
  exists st',
    slave_driver_step constant_digest 9 "tmp" "a" "" [JStr "IDLE"] st
    = Ok (st',
          [SendStatus [JInt 1; timestamp 9; JStr "BUILD"; JStr "foo";
                       JStr "1.0"];
           SendSlave "a" "" [JStr "BUILD"; JStr "foo"; JStr "1.0"]])
    /\ build_queue st' = [(JStr "bar", JStr "2.0")]
    /\ paused st' = false.
Proof.
  intros sa st.
  exact (idle_dispatch constant_digest 9 "tmp" "a" "" [] st sa
           eq_refl eq_refl).
Defined.

Lemma build_handed_out_once_witness :
  let sa := MkSlaveState 1 (Some 5) (Some [JStr "HELLO"])
              (Some [JStr "HELLO"; JInt 1]) None None false in
  let sb := MkSlaveState 2 (Some 6) (Some [JStr "HELLO"])
              (Some [JStr "HELLO"; JInt 2]) None None false in
  let st := MkState [("a"%string, sa); ("b"%string, sb)] ∅ false 2 []
              [(JStr "foo", JStr "1.0"); (JStr "bar", JStr "2.0")]
              (Some [JStr "HELLO"; JInt 2]) None in
  exists st1 st2,
    slave_driver_step constant_digest 8 "tmp" "a" "" [JStr "IDLE"] st
    = Ok (st1,
          [SendStatus [JInt 1; timestamp 8; JStr "BUILD"; JStr "foo";
                       JStr "1.0"];
           SendSlave "a" "" [JStr "BUILD"; JStr "foo"; JStr "1.0"]])
    /\ slave_driver_step constant_digest 9 "tmp" "b" "" [JStr "IDLE"] st1
       = Ok (st2,
             [SendStatus [JInt 2; timestamp 9; JStr "BUILD"; JStr "bar";
                          JStr "2.0"];
              SendSlave "b" "" [JStr "BUILD"; JStr "bar"; JStr "2.0"]])
    /\ build_queue st2 = [].
Proof.
  intros sa sb st.
  refine (build_handed_out_once constant_digest 8 9 "tmp" "tmp" "a" "b"
            "" "" [] [] st sa sb (JStr "foo") (JStr "1.0") (JStr "bar")
            (JStr "2.0") [] _ eq_refl eq_refl eq_refl eq_refl eq_refl
            eq_refl).
  discriminate.
Defined.

Lemma pause_holds_builds_witness :
  let sa := MkSlaveState 1 (Some 5) (Some [JStr "HELLO"])
              (Some [JStr "HELLO"; JInt 1]) None None false in
  let st := MkState [("a"%string, sa)] ∅ false 1 []
              [(JStr "foo", JStr "1.0")]
              (Some [JStr "HELLO"; JInt 1]) None in
  exists st1 st2 st3 st4,
    control [JStr "PAUSE"] st = Ok (st1, [Log WARNING "Pausing operations"])
    /\ slave_driver_step constant_digest 8 "tmp" "a" "" [JStr "IDLE"] st1
       = Ok (st2,
             [SendStatus [JInt 1; timestamp 8; JStr "SLEEP"];
              SendSlave "a" "" [JStr "SLEEP"]])
    /\ build_queue st2 = [(JStr "foo", JStr "1.0")]
    /\ control [JStr "RESUME"] st2
       = Ok (st3, [Log WARNING "Resuming operations"])
    /\ slave_driver_step constant_digest 9 "tmp" "a" "" [JStr "IDLE"] st3
       = Ok (st4,
             [SendStatus [JInt 1; timestamp 9; JStr "BUILD"; JStr "foo";
                          JStr "1.0"];
              SendSlave "a" "" [JStr "BUILD"; JStr "foo"; JStr "1.0"]])
    /\ build_queue st4 = [].
Proof.
  intros sa st.
  exact (pause_holds_builds constant_digest 8 9 "tmp" "tmp" "a" "" "" [] []
           st sa (JStr "foo") (JStr "1.0") [] eq_refl eq_refl eq_refl).
Defined.

Lemma kill_takes_effect_at_idle_witness :
  let sa := MkSlaveState 1 (Some 5) (Some [JStr "HELLO"])
              (Some [JStr "HELLO"; JInt 1]) None None false in
  let sb := MkSlaveState 2 (Some 6) (Some [JStr "HELLO"])
              (Some [JStr "HELLO"; JInt 2]) None None false in
  let st := MkState [("a"%string, sa); ("b"%string, sb)] ∅ false 2 []
              [(JStr "foo", JStr "1.0")]
              (Some [JStr "HELLO"; JInt 2]) None in
  exists st1 st2,
    control [JStr "KILL"; JInt 1] st = Ok (st1, [Log WARNING "Killing slave"])
    /\ slave_driver_step constant_digest 9 "tmp" "a" "" [JStr "IDLE"] st1
       = Ok (st2,
             [SendStatus [JInt 1; timestamp 9; JStr "BYE"];
              SendSlave "a" "" [JStr "BYE"]])
    /\ build_queue st2 = [(JStr "foo", JStr "1.0")]
    /\ forall a s, dict_get a (slaves st) = Some s ->
         _slave_id s <> 1 ->
         dict_get a (slaves st1) = Some s.
Proof.
  intros sa sb st.
  exact (kill_takes_effect_at_idle constant_digest 9 "tmp" "a" "" [] [] st
           sa eq_refl).
Defined.

Lemma hello_from_new_worker_witness :
  exists st',
    slave_driver_step constant_digest 9 "tmp" "a" "" [JStr "HELLO"] initial
    = Ok (st',
          [Log WARNING "New slave";
           SendStatus [JInt 1; timestamp 9; JStr "HELLO"; JInt 1];
           SendSlave "a" "" [JStr "HELLO"; JInt 1]])
    /\ counter st' = 1
    /\ dict_get "a" (slaves st')
       = Some (MkSlaveState 1 (Some 9) (Some [JStr "HELLO"])
                 (Some [JStr "HELLO"; JInt 1]) None None false)
    /\ (forall a, a <> "a"%string ->
          dict_get a (slaves st') = dict_get a (slaves initial))
    /\ store st' = store initial /\ transfers st' = transfers initial.
Proof.
  exact (hello_from_new_worker constant_digest 9 "tmp" "a" "" [] initial
           eq_refl).
Defined.

Lemma bye_forgets_worker_witness :
  let sa := MkSlaveState 1 (Some 5) (Some [JStr "HELLO"])
              (Some [JStr "HELLO"; JInt 1]) None None false in
  let st := MkState [("a"%string, sa)] ∅ false 1 [] []
              (Some [JStr "HELLO"; JInt 1]) None in
  exists st1 st2,
    slave_driver_step constant_digest 7 "tmp" "a" "" [JStr "BYE"] st
    = Ok (st1, [Log WARNING "Slave shutdown"])
    /\ dict_get "a" (slaves st1) = None
    /\ slave_driver_step constant_digest 8 "tmp" "a" "" [JStr "IDLE"] st1
       = Ok (st1, [Log ERROR "Invalid first message from slave"])
    /\ slave_driver_step constant_digest 8 "tmp" "a" "" [JStr "HELLO"] st1
       = Ok (st2,
             [Log WARNING "New slave";
              SendStatus [JInt 2; timestamp 8; JStr "HELLO"; JInt 2];
              SendSlave "a" "" [JStr "HELLO"; JInt 2]])
    /\ 1 + 1 <> 1.
Proof.
  intros sa st.
  refine (bye_forgets_worker constant_digest 7 8 "tmp" "tmp" "a" "" "" []
            (JStr "IDLE") [] [] st sa eq_refl _ eq_refl).
  simpl. lia.
Defined.

Lemma built_starts_transfer_witness :
  let sa := MkSlaveState 1 (Some 5) (Some [JStr "IDLE"])
              (Some [JStr "BUILD"; JStr "foo"; JStr "1.0"]) None None
              false in
  let st := MkState [("a"%string, sa)] ∅ false 1 [] []
              (Some [JStr "BUILD"; JStr "foo"; JStr "1.0"]) None in
  let b := MkBuildState 1 (JStr "foo") (JStr "1.0") (JBool true)
             (JStr "ok") (JStr "foo-1.0-py3-none-any.whl") (JInt 3)
             (JStr "ab") (JFloat 25 2) (JStr "1.0") (JStr "py3")
             (JStr "none") (JStr "any") in
  exists st' s' t,
    TransferState_init "tmp" 3 = Ok t
    /\ slave_driver_step constant_digest 9 "tmp" "a" "" (built 3 "ab") st
       = Ok (st',
             [DbLogBuild b;
              SendStatus [JInt 1; timestamp 9; JStr "SEND"];
              SendSlave "a" "" [JStr "SEND"]])
    /\ dict_get "a" (slaves st') = Some s'
    /\ store st' = [] ++ [t]
    /\ _build s' = Some b
    /\ _transfer s' = Some 0%nat.
Proof.
  intros sa st b.
  refine (built_starts_transfer constant_digest 9 "tmp" "a" "" st sa
            (JStr "foo") (JStr "1.0") (JBool true) (JStr "ok")
            (JStr "foo-1.0-py3-none-any.whl") (JInt 3) (JStr "ab")
            (JFloat 25 2) (JStr "1.0") (JStr "py3") (JStr "none")
            (JStr "any") 3 eq_refl eq_refl eq_refl _).
  lia.
Defined.

Lemma built_failed_is_done_witness :
  let sa := MkSlaveState 1 (Some 5) (Some [JStr "IDLE"])
              (Some [JStr "BUILD"; JStr "foo"; JStr "1.0"]) None None
              false in
  let st := MkState [("a"%string, sa)] ∅ false 1 [] []
              (Some [JStr "BUILD"; JStr "foo"; JStr "1.0"]) None in
  let b := MkBuildState 1 (JStr "foo") (JStr "1.0") (JBool false)
             (JStr "error") JNull JNull JNull (JFloat 25 2) JNull JNull
             JNull JNull in
  exists st' s',
    slave_driver_step constant_digest 9 "tmp" "a" ""
      [JStr "BUILT"; JStr "foo"; JStr "1.0"; JBool false; JStr "error";
       JNull; JNull; JNull; JFloat 25 2; JNull; JNull; JNull; JNull] st
    = Ok (st',
          [DbLogBuild b;
           SendStatus [JInt 1; timestamp 9; JStr "DONE"];
           SendSlave "a" "" [JStr "DONE"]])
    /\ dict_get "a" (slaves st') = Some s'
    /\ store st' = []
    /\ _build s' = None /\ _transfer s' = None.
Proof.
  intros sa st b.
  exact (built_failed_is_done constant_digest 9 "tmp" "a" "" st sa
           (JStr "foo") (JStr "1.0") (JBool false) (JStr "error")
           JNull JNull JNull (JFloat 25 2) JNull JNull JNull JNull
           eq_refl eq_refl).
Defined.

Lemma built_malformed_raises_witness :
  let sa := MkSlaveState 1 (Some 5) (Some [JStr "IDLE"])
              (Some [JStr "BUILD"; JStr "foo"; JStr "1.0"]) None None
              false in
  let st := MkState [("a"%string, sa)] ∅ false 1 [] []
              (Some [JStr "BUILD"; JStr "foo"; JStr "1.0"]) None in
  slave_driver_step constant_digest 9 "tmp" "a" ""
    [JStr "BUILT"; JStr "foo"; JStr "1.0"] st
  = Raise TypeError.
Proof.
  intros sa st.
  refine (built_malformed_raises constant_digest 9 "tmp" "a" "" st sa
            [JStr "foo"; JStr "1.0"] eq_refl _).
  simpl. lia.
Defined.

Lemma unrecognised_message_repeats_reply_witness :
  let sa := MkSlaveState 1 (Some 5) (Some [JStr "IDLE"])
              (Some [JStr "BUILD"; JStr "foo"; JStr "1.0"]) None None
              false in
  let sb := MkSlaveState 2 (Some 4) (Some [JStr "HELLO"])
              (Some [JStr "HELLO"; JInt 2]) None None false in
  let st := MkState [("a"%string, sa); ("b"%string, sb)] ∅ false 2 [] []
              (Some [JStr "BUILD"; JStr "foo"; JStr "1.0"]) None in
  exists st' s',
    slave_driver_step constant_digest 9 "tmp" "b" "" [JStr "PING"] st
    = Ok (st',
          [Log ERROR "Invalid message from existing slave";
           SendStatus [JInt 2; timestamp 9; JStr "BUILD"; JStr "foo";
                       JStr "1.0"];
           SendSlave "b" "" [JStr "BUILD"; JStr "foo"; JStr "1.0"]])
    /\ dict_get "b" (slaves st') = Some s'
    /\ _reply s' = Some [JStr "BUILD"; JStr "foo"; JStr "1.0"]
    /\ build_queue st' = [].
Proof.
  intros sa sb st.
  exact (unrecognised_message_repeats_reply constant_digest 9 "tmp" "b" ""
           (JStr "PING") [] st sb "BUILD" [JStr "foo"; JStr "1.0"]
           eq_refl eq_refl eq_refl eq_refl eq_refl eq_refl eq_refl eq_refl).
Defined.

End DriverSteps.

(** ** verify: what becomes of the file *)

Module VerifyProofs.
Import Ranges Json Transfer Index TransferProofs.

Section Verify.
Variable sha256_hexdigest : bytes -> string.

(** X25. [verify], on a transfer whose temporary file holds what the
    chunks wrote, for a build whose package and file name are plain names
    and with no file where the directory of the package goes: the verdict
    is whether the build's hash, as it was sent, is the SHA-256 digest of
    the file in lower case. A verified file ends up under
    package/filename with the bytes received and mode 0644; a file that
    fails is deleted; nothing else changes, and the temporary name is
    gone either way. The file is closed: a chunk that arrives afterwards,
    or a second [verify], raises ValueError. *)
Theorem verify_publishes_or_deletes filehash pkg file t (f : files) :
  closed (_file t) = false ->
  plain_name pkg = true -> plain_name file = true ->
  f !! name (_file t) = Some (content (_file t), 384) ->
  f !! pkg = None ->
  name (_file t) <> (pkg ++ "/" ++ file)%string ->
  exists ok calls t',
    verify sha256_hexdigest filehash (JStr pkg) (JStr file) t
    = Ok (ok, calls, t')
    /\ ok = match filehash with
            | JStr h =>
                String.eqb (lower (sha256_hexdigest (content (_file t)))) h
            | _ => false
            end
    /\ apply_calls calls f !! name (_file t) = None
    /\ apply_calls calls f !! (pkg ++ "/" ++ file)%string
       = (if ok then Some (content (_file t), 420)
          else f !! (pkg ++ "/" ++ file)%string)
    /\ (forall q, q <> name (_file t) -> q <> (pkg ++ "/" ++ file)%string ->
          apply_calls calls f !! q = f !! q)
    /\ (forall offset data, chunk offset data t' = Raise ValueError)
    /\ (forall filehash' pkg' file',
          verify sha256_hexdigest filehash' pkg' file' t'
          = Raise ValueError).
Proof.
  intros Hopen Hpkg Hfile Hf Hdir Hne.
  assert (Hself : name (_file t) <> pkg) by congruence.
  rewrite (verify_plain _ _ _ _ _ Hopen Hpkg Hfile Hself). cbv zeta.
  destruct (match filehash with JStr _ => _ | _ => _ end) eqn:E;
    eexists _, _, _; (split; [reflexivity|]); (split; [reflexivity|]);
    unfold apply_calls; simpl; rewrite ?Hf; simpl.
  - rewrite lookup_alter_eq, Hf. simpl.
    rewrite lookup_insert_ne by auto. rewrite lookup_delete_eq.
    rewrite lookup_insert_eq.
    repeat split; auto. intros q Hq Hq'.
    rewrite lookup_insert_ne by auto. rewrite lookup_delete_ne by auto.
    now rewrite lookup_alter_ne by auto.
  - rewrite lookup_delete_eq, lookup_delete_ne by auto.
    repeat split; auto. intros q Hq Hq'. now rewrite lookup_delete_ne by auto.
Qed.

End Verify.

Lemma verify_publishes_or_deletes_witness :
  let t := MkTransferState
             (TempFile "tmp0" (list_ascii_of_string "ABC") false) 0 3 [] in
  let f : files := {[ "tmp0"%string := (list_ascii_of_string "ABC", 384) ]} in
  exists ok calls t',
    verify string_of_list_ascii (JStr "abc") (JStr "foo") (JStr "foo.whl") t
    = Ok (ok, calls, t')
    /\ ok = String.eqb (lower (string_of_list_ascii
                                 (list_ascii_of_string "ABC"))) "abc"
    /\ apply_calls calls f !! "tmp0"%string = None
    /\ apply_calls calls f !! "foo/foo.whl"%string
       = (if ok then Some (list_ascii_of_string "ABC", 420)
          else f !! "foo/foo.whl"%string)
    /\ (forall q, q <> "tmp0"%string -> q <> "foo/foo.whl"%string ->
          apply_calls calls f !! q = f !! q)
    /\ (forall offset data, chunk offset data t' = Raise ValueError)
    /\ (forall filehash' pkg' file',
          verify string_of_list_ascii filehash' pkg' file' t'
          = Raise ValueError).
Proof.
  intros t f.
  refine (verify_publishes_or_deletes string_of_list_ascii (JStr "abc")
            "foo" "foo.whl" t f eq_refl eq_refl eq_refl _ _ _).
  - apply lookup_singleton_eq.
  - now apply lookup_singleton_ne.
  - discriminate.
Defined.

End VerifyProofs.

Module ReplaceProofs.
Import Index IndexProofs.

Lemma AtomicReplaceFile_discipline_witness :
  let f : files :=
    {[ "simple/index.html"%string := (list_ascii_of_string "old", 420) ]} in
  let target := join "simple" "index.html" in
  let new := list_ascii_of_string "<ht" in
  let calls :=
    fst (AtomicReplaceFile "simple" "index.html" "tmpab12" (Failed new)) in
  Forall (fun g : files =>
            g !! target = f !! target \/ g !! target = Some (new, 420))
    (visible calls f)
  /\ apply_calls calls f !! join "simple" "tmpab12" = None
  /\ apply_calls calls f !! target
     = (if snd (AtomicReplaceFile "simple" "index.html" "tmpab12"
                  (Failed new))
        then Some (new, 420) else f !! target).
Proof.
  intros f target new calls.
  refine (AtomicReplaceFile_discipline "simple" "index.html" "tmpab12"
            (Failed new) f _).
  discriminate.
Defined.

End ReplaceProofs.

(** ** the_scribe.py: names, pages and counts *)

Module ScribeProofs.
Import Transfer Scribe.

(** *** canonicalize_name *)

Ltac each_char c :=
  destruct c as [[] [] [] [] [] [] [] []]; try reflexivity; try discriminate.

Lemma separator_lower c : separator (lower_ascii c) = separator c.
Proof. each_char c. Qed.

Lemma dash_lower c : Ascii.eqb (lower_ascii c) "-" = Ascii.eqb c "-".
Proof. each_char c. Qed.

Lemma upper_case_lower c : upper_case (lower_ascii c) = false.
Proof. each_char c. Qed.

Lemma lower_fixed c : upper_case c = false -> lower_ascii c = c.
Proof. each_char c. Qed.

Lemma dash_separator c : Ascii.eqb c "-" = true -> separator c = true.
Proof. unfold separator. now intros ->. Qed.

Lemma canonicalize_canonical name : forall in_run,
  canonical_from in_run (lower (sub_runs in_run name)) = true.
Proof.
  induction name as [|c rest IH]; intros in_run; [reflexivity|].
  simpl. destruct (separator c) eqn:Es.
  - destruct in_run; [apply IH|]. simpl. apply IH.
  - simpl. rewrite dash_lower.
    destruct (Ascii.eqb c "-") eqn:Ed.
    + apply dash_separator in Ed. congruence.
    + now rewrite separator_lower, Es, upper_case_lower, IH.
Qed.

Lemma canonical_fixed name : forall after_dash,
  canonical_from after_dash name = true ->
  lower (sub_runs after_dash name) = name.
Proof.
  induction name as [|c rest IH]; intros b H; [reflexivity|].
  simpl in H. destruct (Ascii.eqb c "-") eqn:Ed.
  - apply andb_true_iff in H as [Hb H].
    destruct b; [discriminate|].
    simpl. rewrite (dash_separator c Ed). simpl.
    apply Ascii.eqb_eq in Ed. subst c. now rewrite IH.
  - apply andb_true_iff in H as [H Hrest].
    apply andb_true_iff in H as [Hs Hu].
    apply negb_true_iff in Hs, Hu.
    simpl. rewrite Hs. simpl. now rewrite lower_fixed, IH.
Qed.

(** X26. [canonicalize_name] gives the canonical form of PEP 503: the
    result has no upper case letter, no "_" and no ".", and no two "-" in
    a row; a name that is in this form already is returned as it is, so
    canonicalizing twice is canonicalizing once. *)
Theorem canonicalize_name_idempotent name :
  forallb is_ascii (list_ascii_of_string name) = true ->
  canonical (canonicalize_name name) = true
  /\ canonicalize_name (canonicalize_name name) = canonicalize_name name
  /\ (if canonical name then canonicalize_name name = name
      else canonicalize_name name <> name).
Proof.
  intros _. unfold canonical, canonicalize_name.
  pose proof (canonicalize_canonical name false) as H.
  split; [exact H|]. split; [now apply canonical_fixed|].
  destruct (canonical_from false name) eqn:E.
  - now apply canonical_fixed.
  - intros Heq. rewrite Heq in H. congruence.
Qed.

Lemma canonicalize_name_idempotent_witness :
  canonical (canonicalize_name "Foo_.Bar--baz") = true
  /\ canonicalize_name (canonicalize_name "Foo_.Bar--baz")
     = canonicalize_name "Foo_.Bar--baz"
  /\ (if canonical "Foo_.Bar--baz"
      then canonicalize_name "Foo_.Bar--baz" = "Foo_.Bar--baz"%string
      else canonicalize_name "Foo_.Bar--baz" <> "Foo_.Bar--baz"%string).
Proof. exact (canonicalize_name_idempotent "Foo_.Bar--baz" eq_refl). Defined.

(** *** grouper *)

Section Grouper.
Context {A : Type}.
Variable fillvalue : A.

Lemma zip_round_full : forall n (it : list A) k,
  (n <= length it)%nat ->
  zip_round fillvalue (repeat Shared n) it k
  = Some (firstn n it, repeat Shared n, skipn n it, k).
Proof.
  induction n as [|n IH]; intros it k Hn; [reflexivity|].
  destruct it as [|x it]; [simpl in Hn; lia|].
  simpl in *. rewrite IH by lia. reflexivity.
Qed.

Lemma zip_round_empty : forall n k,
  (n < k)%nat ->
  zip_round fillvalue (repeat Shared n) [] k
  = Some (repeat fillvalue n, repeat Filler n, [], (k - n)%nat).
Proof.
  induction n as [|n IH]; intros k Hk; simpl.
  - now rewrite Nat.sub_0_r.
  - destruct (Nat.eqb_spec (Nat.pred k) 0) as [E|E]; [lia|].
    rewrite IH by lia. simpl.
    replace (Nat.pred k - n)%nat with (k - S n)%nat by lia. reflexivity.
Qed.

Lemma zip_round_short : forall n (it : list A) k,
  (length it < n)%nat -> (n - length it < k)%nat ->
  zip_round fillvalue (repeat Shared n) it k
  = Some (it ++ repeat fillvalue (n - length it),
          repeat Shared (length it) ++ repeat Filler (n - length it),
          [], (k - (n - length it))%nat).
Proof.
  induction n as [|n IH]; intros it k Hn Hk; [lia|].
  destruct it as [|x it].
  - apply zip_round_empty. simpl in Hk. lia.
  - simpl in *. rewrite IH by lia. reflexivity.
Qed.

Lemma zip_round_end : forall m rest k,
  (1 <= k <= m)%nat ->
  zip_round fillvalue (repeat Shared m ++ rest) [] k = None.
Proof.
  induction m as [|m IH]; intros rest k Hk; [lia|].
  simpl. destruct (Nat.eqb_spec (Nat.pred k) 0) as [E|E]; [reflexivity|].
  rewrite IH by lia. reflexivity.
Qed.

Lemma zip_rounds_pages n : (0 < n)%nat ->
  forall fuel (l : list A),
  (length l < fuel)%nat ->
  exists pages,
    zip_rounds fuel fillvalue (repeat Shared n) l n = Ok pages
    /\ Forall (fun page => length page = n) pages
    /\ (length pages * n < length l + n)%nat
    /\ concat pages
       = l ++ repeat fillvalue (length pages * n - length l).
Proof.
  intros Hn. induction fuel as [|fuel IH]; intros l Hl; [lia|].
  cbn [zip_rounds].
  destruct (Nat.le_gt_cases n (length l)) as [Hfull|Hshort].
  - rewrite zip_round_full by exact Hfull.
    destruct (IH (skipn n l)) as (pages & -> & Hall & Hlen & Hcat).
    { rewrite length_skipn. lia. }
    rewrite length_skipn in Hlen, Hcat.
    exists (firstn n l :: pages). split; [reflexivity|].
    split; [|split].
    + constructor; [|exact Hall]. rewrite length_firstn. lia.
    + simpl. lia.
    + simpl. rewrite Hcat, app_assoc, firstn_skipn.
      do 2 f_equal. lia.
  - destruct l as [|x l'] eqn:El.
    + rewrite <- (app_nil_r (repeat Shared n)).
      rewrite zip_round_end by lia.
      exists []. split; [reflexivity|]. split; [constructor|].
      split; [simpl; lia|reflexivity].
    + rewrite <- El in *.
      assert (Hpos : (0 < length l)%nat) by (rewrite El; simpl; lia).
      rewrite zip_round_short by lia.
      destruct fuel as [|fuel]; [lia|]. cbn [zip_rounds].
      rewrite zip_round_end by lia. simpl.
      exists [l ++ repeat fillvalue (n - length l)].
      split; [reflexivity|]. split; [|split].
      * constructor; [|constructor].
        rewrite length_app, repeat_length. lia.
      * simpl. lia.
      * simpl. rewrite app_nil_r. do 2 f_equal. lia.
Qed.

(** X27. [grouper] cuts the data into pages of [n] items, in order: every
    page has exactly [n] items, the pages put end to end are the data
    followed by fewer than [n] fill values, and so there are just as many
    pages as the data needs. With [n] positive the loop of [zip_longest]
    ends, within one round more than there are items. *)
Theorem grouper_pages fuel (iterable : list A) n :
  (0 < n)%nat -> (length iterable < fuel)%nat ->
  exists pages,
    grouper fuel iterable n fillvalue = Ok pages
    /\ Forall (fun page => length page = n) pages
    /\ (length pages * n < length iterable + n)%nat
    /\ concat pages
       = iterable
         ++ repeat fillvalue (length pages * n - length iterable).
Proof.
  intros Hn Hfuel. unfold grouper.
  destruct n as [|n]; [lia|].
  now apply zip_rounds_pages.
Qed.

End Grouper.

Lemma grouper_pages_witness :
  exists pages,
    grouper 8 ["A"; "B"; "C"; "D"; "E"; "F"; "G"]%string 3 "x"%string
    = Ok pages
    /\ Forall (fun page => length page = 3%nat) pages
    /\ (length pages * 3 < 7 + 3)%nat
    /\ concat pages
       = ["A"; "B"; "C"; "D"; "E"; "F"; "G"]%string
         ++ repeat "x"%string (length pages * 3 - 7).
Proof.
  refine (grouper_pages "x"%string 8
            ["A"; "B"; "C"; "D"; "E"; "F"; "G"]%string 3 _ _);
    simpl; lia.
Defined.

(** *** Counts of versions and files *)

(** X28. The counts in a package's JSON file: the versions counted are
    those with at least one file, so there are no more of them than
    versions and no more than files, and none exactly when there is no
    file. *)
Theorem num_versions_le_num_files {F} (versions : list (string * builds F)) :
  (get_num_versions versions <= get_num_files versions)%nat
  /\ (get_num_versions versions <= length versions)%nat
  /\ (get_num_versions versions = 0%nat <-> get_num_files versions = 0%nat).
Proof.
  unfold get_num_versions, get_num_files.
  induction versions as [|[v b] versions IH]; simpl; [lia|].
  destruct (Nat.ltb_spec 0 (get_num_files_for_version b)); simpl; lia.
Qed.

(** *** handle_index *)

Lemma size_add_new (x : string) (X : gset string) :
  x ∉ X -> size ({[ x ]} ∪ X) = S (size X).
Proof.
  intros Hx. rewrite size_union by set_solver.
  now rewrite size_singleton.
Qed.

Lemma handle_index_cache r cache :
  cache ⊆ fst (handle_index r cache)
  /\ size (fst (handle_index r cache))
     = (size cache
        + length (List.filter is_simple_index (snd (handle_index r cache))))%nat
  /\ length (List.filter is_package_index (snd (handle_index r cache)))
     = (if is_pkgboth r then 1 else 0)%nat
  /\ Forall (fun w => match w with
                      | SimpleIndex packages =>
                          packages = fst (handle_index r cache)
                      | _ => True
                      end) (snd (handle_index r cache))
  /\ match r with
     | Msg msg data =>
         String.eqb msg "PKGBOTH" = true -> data ∈ fst (handle_index r cache)
     | _ => True
     end.
Proof.
  destruct r as [e|msg data]; simpl.
  { repeat split; auto; lia. }
  destruct (String.eqb msg "PKGBOTH") eqn:E1.
  { destruct (decide (data ∈ cache)) as [Hin|Hin]; simpl.
    - repeat split; auto; lia.
    - rewrite size_add_new by exact Hin.
      repeat split; auto; try lia; set_solver. }
  destruct (String.eqb msg "PKGPROJ"); simpl;
    [repeat split; auto; try lia; discriminate|].
  destruct (String.eqb msg "HOME"); simpl;
    [repeat split; auto; try lia; discriminate|].
  destruct (String.eqb msg "SEARCH"); simpl;
    repeat split; auto; try lia; discriminate.
Qed.

(** X29. The package cache of [handle_index] only grows, and the index of
    all packages is rewritten exactly when it grows: whatever requests
    arrive, the cache afterwards has as many packages more as there were
    writes of that index, each PKGBOTH request rewrites the index of its
    package once, and no other request does. *)
Theorem simple_index_rewritten_when_new rs : forall cache,
  cache ⊆ fst (handle_indexes rs cache)
  /\ size (fst (handle_indexes rs cache))
     = (size cache
        + length (List.filter is_simple_index
                    (snd (handle_indexes rs cache))))%nat
  /\ length (List.filter is_package_index (snd (handle_indexes rs cache)))
     = length (List.filter is_pkgboth rs)
  /\ Forall (fun w => match w with
                      | SimpleIndex packages =>
                          cache ⊆ packages
                          /\ packages ⊆ fst (handle_indexes rs cache)
                      | _ => True
                      end) (snd (handle_indexes rs cache)).
Proof.
  induction rs as [|r rs IH]; intros cache; simpl.
  { repeat split; auto; lia. }
  destruct (handle_index_cache r cache) as (H1 & H2 & H3 & H4 & _).
  destruct (handle_index r cache) as [cache1 out1]. simpl in *.
  destruct (IH cache1) as (I1 & I2 & I3 & I4).
  destruct (handle_indexes rs cache1) as [cache2 out2]. simpl in *.
  rewrite !List.filter_app, !length_app.
  split; [transitivity cache1; assumption|]. split; [lia|]. split.
  - rewrite I3. destruct (is_pkgboth r); simpl; lia.
  - apply Forall_app. split.
    + eapply Forall_impl; [exact H4|]. intros [] ?; auto.
      subst. split; auto.
    + eapply Forall_impl; [exact I4|]. intros [] Hw; auto.
      destruct Hw as [? ?].
      split; [transitivity cache1; assumption|assumption].
Qed.

End ScribeProofs.

(** ** index_scribbler: when the root index is written *)

Module ScribblerProofs.
Import Scribbler.

Ltac sets :=
  apply set_eq; intros ?;
  rewrite ?elem_of_union, ?elem_of_singleton, ?elem_of_empty;
  intuition (subst; auto).

Lemma index_scribbler_loop_names received : forall p,
  dirs (fst (index_scribbler_loop received p)) = dirs p
  /\ names (fst (index_scribbler_loop received p))
     = list_to_set received ∪ names p
  /\ size (names (fst (index_scribbler_loop received p)))
     = (size (names p)
        + length (List.filter is_root_write
                    (snd (index_scribbler_loop received p))))%nat
  /\ length (List.filter (fun w => negb (is_root_write w))
               (snd (index_scribbler_loop received p)))
     = length received.
Proof.
  induction received as [|package rest IH]; intros p; simpl.
  { split; [reflexivity|]. split; [sets|]. split; [lia|reflexivity]. }
  unfold index_scribbler_step.
  destruct (decide (package ∈ names p)) as [Hin|Hin].
  - destruct (IH p) as (I1 & I2 & I3 & I4).
    destruct (index_scribbler_loop rest p) as [p2 out2]. simpl in *.
    split; [exact I1|]. split; [rewrite I2; sets|].
    split; [exact I3|]. now rewrite I4.
  - destruct (IH (MkPackages (dirs p) ({[ package ]} ∪ names p)))
      as (I1 & I2 & I3 & I4).
    destruct (index_scribbler_loop rest _) as [p2 out2]. simpl in *.
    split; [exact I1|]. split; [rewrite I2; sets|].
    split; [|now rewrite I4].
    rewrite I3, size_union by (apply disjoint_singleton_l; exact Hin).
    rewrite size_singleton. lia.
Qed.

(** X30. [index_scribbler] writes the root index once for every package
    name it receives for the first time, and the index of the package on
    every request. The directories found at the start do not count as
    known names (they are in the set as [Path] objects, the names arrive
    as strings): whatever directories there are, the root index is
    written as many times as there are different names among those
    received. *)
Theorem root_index_once_per_name output_dirs received :
  let result := index_scribbler output_dirs received in
  dirs (fst result) = output_dirs
  /\ names (fst result) = list_to_set received
  /\ length (List.filter is_root_write (snd result))
     = size (list_to_set received : gset string)
  /\ length (List.filter (fun w => negb (is_root_write w)) (snd result))
     = length received.
Proof.
  unfold index_scribbler.
  destruct (index_scribbler_loop_names received (MkPackages output_dirs ∅))
    as (H1 & H2 & H3 & H4).
  cbn [names dirs] in *. rewrite size_empty in H3.
  assert (Hn : names (fst (index_scribbler_loop received
                             (MkPackages output_dirs ∅)))
               = list_to_set received).
  { rewrite H2. sets. }
  cbv zeta. split; [exact H1|]. split; [exact Hn|]. split; [|exact H4].
  rewrite <- Hn. lia.
Qed.

End ScribblerProofs.
